(** * solve-triangle: a shallow embedding of [src/index.js]

    The module solves triangles from side lengths and angles ([solve]) and
    from three cartesian coordinates ([solvePoints]); [distance] is its
    third export.

    Numbers.  A JavaScript number is modelled by [num]: [NaN], the two
    infinities, or a finite value carried as a real.  Finite arithmetic is
    exact: rounding, overflow and the sign of zero are not modelled.  The
    non-finite values follow IEEE 754 as JavaScript does: [x / 0] is an
    infinity for [x <> 0], [Inf - Inf] and [0 * Inf] are [NaN], every
    comparison with [NaN] is false, and [Math.acos], [Math.asin],
    [Math.sqrt] answer [NaN] outside their domain.

    Values.  The six quantities given to [solve] range over [undefined],
    the empty string (which [solve] deletes) and numbers; a point given to
    [solvePoints] or [distance] ranges over [jsval]: [undefined], [null],
    booleans, numbers, arrays and plain objects.  Error messages, which the
    source builds with template strings, are the constructors of [error],
    carrying the interpolated values.

    Statements.  The properties of [solve] and [solvePoints] are stated
    on the values that the code computes and with the tests that the code
    applies to them ([in_range], [conflicting], [equalFloat], the test for
    falsy values); computed quantities are compared within the tolerance
    0.001 of the code.  The lemmas about triangles (the soundness of the
    branches, the closed inputs) are facts of the exact arithmetic. *)

From Stdlib Require Import Reals Lra Lia List String ZArith Bool.
Import ListNotations.

Set Implicit Arguments.

(** ** Numbers *)

Inductive num : Type :=
| NaN
| Inf (negative : bool)
| Fin (r : R).

Declare Scope num_scope.
Delimit Scope num_scope with num.
Bind Scope num_scope with num.

Module Num.

Local Open Scope R_scope.

Definition Rltb (x y : R) : bool := if Rlt_dec x y then true else false.
Definition Rleb (x y : R) : bool := if Rle_dec x y then true else false.
Definition Reqb (x y : R) : bool := if Req_dec_T x y then true else false.

Definition add (x y : num) : num :=
  match x, y with
  | NaN, _ | _, NaN => NaN
  | Inf s, Inf s' => if Bool.eqb s s' then Inf s else NaN
  | Inf s, Fin _ | Fin _, Inf s => Inf s
  | Fin p, Fin q => Fin (p + q)
  end.

Definition sub (x y : num) : num :=
  match x, y with
  | NaN, _ | _, NaN => NaN
  | Inf s, Inf s' => if Bool.eqb s s' then NaN else Inf s
  | Inf s, Fin _ => Inf s
  | Fin _, Inf s => Inf (negb s)
  | Fin p, Fin q => Fin (p - q)
  end.

Definition mul (x y : num) : num :=
  match x, y with
  | NaN, _ | _, NaN => NaN
  | Inf s, Inf s' => Inf (xorb s s')
  | Inf s, Fin q => if Reqb q 0 then NaN else Inf (xorb s (Rltb q 0))
  | Fin p, Inf s => if Reqb p 0 then NaN else Inf (xorb (Rltb p 0) s)
  | Fin p, Fin q => Fin (p * q)
  end.

Definition div (x y : num) : num :=
  match x, y with
  | NaN, _ | _, NaN => NaN
  | Inf _, Inf _ => NaN
  | Inf s, Fin q => Inf (xorb s (Rltb q 0))
  | Fin _, Inf _ => Fin 0
  | Fin p, Fin q =>
      if Reqb q 0 then (if Reqb p 0 then NaN else Inf (Rltb p 0))
      else Fin (p / q)
  end.

(** [x ** 2] *)
Definition sq (x : num) : num := mul x x.

(** [x <= y], [x >= y], [x > y], [x < y], [x == y] on numbers. *)
Definition le (x y : num) : bool :=
  match x, y with
  | NaN, _ | _, NaN => false
  | Inf true, _ => true
  | _, Inf false => true
  | Inf false, _ => false
  | Fin _, Inf true => false
  | Fin p, Fin q => Rleb p q
  end.

Definition lt (x y : num) : bool :=
  match x, y with
  | NaN, _ | _, NaN => false
  | Inf s, Inf s' => s && negb s'
  | Inf s, Fin _ => s
  | Fin _, Inf s => negb s
  | Fin p, Fin q => Rltb p q
  end.

Definition ge (x y : num) : bool := le y x.
Definition gt (x y : num) : bool := lt y x.

Definition eq (x y : num) : bool :=
  match x, y with
  | Inf s, Inf s' => Bool.eqb s s'
  | Fin p, Fin q => Reqb p q
  | _, _ => false
  end.

(** [Number.isNaN] *)
Definition isNaN (x : num) : bool :=
  match x with NaN => true | _ => false end.

(** ToBoolean on a number: [0] and [NaN] are falsy. *)
Definition truthy (x : num) : bool :=
  match x with
  | NaN => false
  | Inf _ => true
  | Fin r => negb (Reqb r 0)
  end.

End Num.

Infix "+" := Num.add : num_scope.
Infix "-" := Num.sub : num_scope.
Infix "*" := Num.mul : num_scope.
Infix "/" := Num.div : num_scope.
Infix "<=?" := Num.le : num_scope.
Infix "<?" := Num.lt : num_scope.
Infix ">=?" := Num.ge : num_scope.
Infix ">?" := Num.gt : num_scope.
Infix "==?" := Num.eq (at level 70) : num_scope.

(** ** The [Math] object *)

Module Math.

Import Num.
Local Open Scope R_scope.

Definition PI : num := Fin Rtrigo1.PI.

Definition sin (x : num) : num :=
  match x with Fin r => Fin (Rtrigo_def.sin r) | _ => NaN end.

Definition cos (x : num) : num :=
  match x with Fin r => Fin (Rtrigo_def.cos r) | _ => NaN end.

Definition asin (x : num) : num :=
  match x with
  | Fin r => if Rltb r (-1) || Rltb 1 r then NaN else Fin (Ratan.asin r)
  | _ => NaN
  end.

Definition acos (x : num) : num :=
  match x with
  | Fin r => if Rltb r (-1) || Rltb 1 r then NaN else Fin (Ratan.acos r)
  | _ => NaN
  end.

Definition sqrt (x : num) : num :=
  match x with
  | NaN => NaN
  | Inf s => if s then NaN else Inf false
  | Fin r => if Rltb r 0 then NaN else Fin (R_sqrt.sqrt r)
  end.

Definition abs (x : num) : num :=
  match x with
  | NaN => NaN
  | Inf _ => Inf false
  | Fin r => Fin (Rabs r)
  end.

(** [Math.hypot(x, y)]: an infinite argument wins over [NaN]. *)
Definition hypot (x y : num) : num :=
  match x, y with
  | Inf _, _ | _, Inf _ => Inf false
  | NaN, _ | _, NaN => NaN
  | Fin p, Fin q => Fin (R_sqrt.sqrt (p * p + q * q))
  end.

End Math.

Local Open Scope num_scope.

(** ** Constants *)

Definition toRad : num := Math.PI / Fin 180.
Definition toDeg : num := Fin 180 / Math.PI.
Definition angleSum : num := Math.PI.
Definition order : list string :=
  ["a"; "gamma"; "b"; "alpha"; "c"; "beta"]%string.

(** ** Values held by the value array and by the result object *)

(** A slot of [valArray] or a property of the result is [undefined]
    ([None]) or a number. *)
Definition slot : Type := option num.

(** ToNumber: [undefined] becomes [NaN]. *)
Definition ToNumber (x : slot) : num :=
  match x with Some n => n | None => NaN end.

(** ToBoolean. *)
Definition truthy (x : slot) : bool :=
  match x with Some n => Num.truthy n | None => false end.

Definition get (valArray : list slot) (i : Z) : slot :=
  if (i <? 0)%Z then None else nth (Z.to_nat i) valArray None.

Fixpoint replace_nth (i : nat) (x : slot) (l : list slot) : list slot :=
  match l, i with
  | [], _ => []
  | _ :: l', O => x :: l'
  | y :: l', S i' => y :: replace_nth i' x l'
  end.

(** [valArray[i] = x]; every index the source writes is a remainder
    modulo 6 into an array of length 6. *)
Definition put (valArray : list slot) (i : Z) (x : num) : list slot :=
  replace_nth (Z.to_nat i) (Some x) valArray.

(** [k % 6] *)
Definition m6 (k : Z) : Z := Z.rem k 6.

Notation "v .[ i ]" := (ToNumber (get v i))
  (at level 1, left associativity, format "v .[ i ]").

(** ** Values given as points *)

#[local] Unset Elimination Schemes.
Inductive jsval : Type :=
| JUndefined
| JNull
| JBoolean (b : bool)
| JNumber (n : num)
| JArray (elements : list jsval)
| JObject (properties : list (string * jsval)).
#[local] Set Elimination Schemes.

(** ** Errors, solutions, result *)

Inductive param : Type :=
| Undefined
| EmptyString
| Number (n : num).

Record triangleToSolve : Type := {
  in_a : param; in_b : param; in_c : param;
  in_alpha : param; in_beta : param; in_gamma : param;
  in_mode : option string
}.

Inductive error : Type :=
| UnknownMode (mode : string)
| IllegalSide (property : string) (value : num)
| IllegalAngle (property : string) (value : num)
| TooFewParameters
| NoSideLength
| ImpossibleSides (a b c : num)
| NoSolution
| InputConflict (property : string) (input calculated : num)
| IllegalParameter (name : string) (value : jsval)
| RepeatedCoordinates (name1 : string) (point1 : jsval)
    (name2 : string) (point2 : jsval).

Record triangleSolution : Type := {
  sol_a : slot; sol_b : slot; sol_c : slot;
  sol_alpha : num; sol_beta : num; sol_gamma : num;
  sol_area : num;
  sol_incircle_radius : num;
  sol_circumcircle_radius : num;
  sol_ha : num; sol_hb : num; sol_hc : num
}.

Record solveResult : Type := {
  res_a : slot; res_b : slot; res_c : slot;
  res_alpha : slot; res_beta : slot; res_gamma : slot;
  res_mode : option string;
  solutions : list triangleSolution;
  res_error : option error
}.

Definition set_error (result : solveResult) (e : error) : solveResult :=
  {| res_a := res_a result; res_b := res_b result; res_c := res_c result;
     res_alpha := res_alpha result; res_beta := res_beta result;
     res_gamma := res_gamma result; res_mode := res_mode result;
     solutions := solutions result; res_error := Some e |}.

Definition push (result : solveResult) (s : triangleSolution) : solveResult :=
  {| res_a := res_a result; res_b := res_b result; res_c := res_c result;
     res_alpha := res_alpha result; res_beta := res_beta result;
     res_gamma := res_gamma result; res_mode := res_mode result;
     solutions := solutions result ++ [s]; res_error := res_error result |}.

(** [result[property]] for the properties named by [order]. *)
Definition prop (result : solveResult) (property : string) : slot :=
  if String.eqb property "a" then res_a result
  else if String.eqb property "gamma" then res_gamma result
  else if String.eqb property "b" then res_b result
  else if String.eqb property "alpha" then res_alpha result
  else if String.eqb property "c" then res_c result
  else if String.eqb property "beta" then res_beta result
  else None.

Definition mode_is (m : option string) (s : string) : bool :=
  match m with Some m' => String.eqb m' s | None => false end.

(** ** Helpers *)

Definition equalFloat (f1 f2 maxDifference : num) : bool :=
  Math.abs (f1 - f2) <=? maxDifference.

Definition tolerance : num := Fin (1 / 1000).

Definition incircleRadius (a b c : num) : num :=
  let s := Fin (1 / 2) * (a + b + c) in
  Math.sqrt (((s - a) * (s - b) * (s - c)) / s).

(** ** addSolutionToResult *)

(** [result.mode === "deg" ? toDeg : 1] *)
Definition modeOutConv (result : solveResult) : num :=
  if mode_is (res_mode result) "deg" then toDeg else Fin 1.

(** [i % 2 == 1 ? modeOutConv * valArray[i] : valArray[i]] *)
Definition calculatedValue (modeOutConv : num) (valArray : list slot)
    (i : nat) : num :=
  if Nat.odd i then modeOutConv * valArray.[Z.of_nat i]
  else valArray.[Z.of_nat i].

(** The test made on property [i] by the conflict loop: the property was
    given and differs from the calculated value. *)
Definition conflicting (modeOutConv : num) (valArray : list slot)
    (result : solveResult) (i : nat) : bool :=
  truthy (prop result (nth i order ""%string))
  && negb (equalFloat (ToNumber (prop result (nth i order ""%string)))
             (calculatedValue modeOutConv valArray i) tolerance).

(** The conflict loop: the first property that was given and differs from
    the calculated value stops the loop with an error. *)
Fixpoint conflict_loop (idxs : list nat) (modeOutConv : num)
    (valArray : list slot) (result : solveResult) : option error :=
  match idxs with
  | [] => None
  | i :: rest =>
      let property := nth i order ""%string in
      if conflicting modeOutConv valArray result i
      then Some (InputConflict property (ToNumber (prop result property))
                   (calculatedValue modeOutConv valArray i))
      else conflict_loop rest modeOutConv valArray result
  end.

Definition make_solution (modeOutConv : num) (valArray : list slot)
  : triangleSolution :=
  let a := get valArray 0 in
  let b := get valArray 2 in
  let c := get valArray 4 in
  let radius := (valArray.[0] / Math.sin valArray.[3]) / Fin 2 in
  {| sol_a := a; sol_b := b; sol_c := c;
     sol_gamma := modeOutConv * valArray.[1];
     sol_alpha := modeOutConv * valArray.[3];
     sol_beta := modeOutConv * valArray.[5];
     sol_area := Fin (1 / 2) * valArray.[0] * valArray.[2]
                 * Math.sin valArray.[1];
     sol_incircle_radius :=
       incircleRadius valArray.[0] valArray.[2] valArray.[4];
     sol_circumcircle_radius := radius;
     sol_ha := (ToNumber b * ToNumber c) / (Fin 2 * radius);
     sol_hb := (ToNumber a * ToNumber c) / (Fin 2 * radius);
     sol_hc := (ToNumber a * ToNumber b) / (Fin 2 * radius) |}.

(** The two range checks over the angle slots and the side slots:
    [(x) => x <= 0 || x >= angleSum] and [(x) => x <= 0]. *)
Definition angle_out (x : num) : bool := (x <=? Fin 0) || (x >=? angleSum).

Definition side_out (x : num) : bool := x <=? Fin 0.

Definition angle_out_of_range (valArray : list slot) : bool :=
  existsb angle_out [valArray.[1]; valArray.[3]; valArray.[5]].

Definition side_out_of_range (valArray : list slot) : bool :=
  existsb side_out [valArray.[0]; valArray.[2]; valArray.[4]].

Definition addSolutionToResult (valArray : list slot) (result : solveResult)
    (parameterCount : Z) : solveResult :=
  let modeOutConv := modeOutConv result in
  match (if (3 <? parameterCount)%Z
         then conflict_loop (seq 0 (List.length order)) modeOutConv valArray result
         else None) with
  | Some e => set_error result e
  | None =>
      if angle_out_of_range valArray then set_error result NoSolution
      else if side_out_of_range valArray then set_error result NoSolution
      else push result (make_solution modeOutConv valArray)
  end.

(** ** solve *)

(** [Number.isNaN(num) || num <= 0] *)
Definition illegal_side (num : num) : bool :=
  Num.isNaN num || (num <=? Fin 0).

(** [Number.isNaN(num) || num <= 0 || num >= angleSum] *)
Definition illegal_angle (num : num) : bool :=
  Num.isNaN num || (num <=? Fin 0) || (num >=? angleSum).

(** The loop over the side slots 0, 2, 4: validation, first given side
    and number of given sides. *)
Fixpoint sides_loop (idxs : list Z) (valArray : list slot)
    (firstSide sideCount : Z) : error + (list slot * Z * Z) :=
  match idxs with
  | [] => inr (valArray, firstSide, sideCount)
  | i :: rest =>
      match get valArray i with
      | None => sides_loop rest valArray firstSide sideCount
      | Some raw =>
          let num := raw in
          if illegal_side num
          then inl (IllegalSide (nth (Z.to_nat i) order ""%string) raw)
          else sides_loop rest (put valArray i num)
                 (if (firstSide <? 0)%Z then i else firstSide)
                 (sideCount + 1)%Z
      end
  end.

(** The loop over the angle slots 1, 3, 5; angles are converted to
    radians. *)
Fixpoint angles_loop (modeInConv : num) (idxs : list Z)
    (valArray : list slot) (firstAngle angleCount : Z)
  : error + (list slot * Z * Z) :=
  match idxs with
  | [] => inr (valArray, firstAngle, angleCount)
  | i :: rest =>
      match get valArray i with
      | None => angles_loop modeInConv rest valArray firstAngle angleCount
      | Some raw =>
          let num := raw * modeInConv in
          if illegal_angle num
          then inl (IllegalAngle (nth (Z.to_nat i) order ""%string) raw)
          else angles_loop modeInConv rest (put valArray i num)
                 (if (firstAngle <? 0)%Z then i else firstAngle)
                 (angleCount + 1)%Z
      end
  end.

(** SSS; [a], [b], [c] are the arguments of [solve] as numbers. *)
Definition solve_SSS (a b c : num) (valArray : list slot)
    (result : solveResult) (parameterCount : Z) : solveResult :=
  let valArray := put valArray 3
    (Math.acos ((Num.sq b + Num.sq c - Num.sq a) / (Fin 2 * b * c))) in
  let valArray := put valArray 5
    (Math.acos ((Num.sq a + Num.sq c - Num.sq b) / (Fin 2 * a * c))) in
  let valArray := put valArray 1 (angleSum - valArray.[3] - valArray.[5]) in
  if existsb (fun x => negb (truthy x)) valArray
  then set_error result (ImpossibleSides a b c)
  else addSolutionToResult valArray result parameterCount.

Definition solve_ASA (valArray : list slot) (result : solveResult)
    (firstSide parameterCount : Z) : solveResult :=
  let thirdAngleIndex := m6 (firstSide + 3) in
  let valArray := put valArray thirdAngleIndex
    (angleSum - valArray.[m6 (firstSide + 5)] - valArray.[m6 (firstSide + 1)]) in
  let valArray := put valArray (m6 (firstSide + 2))
    (valArray.[firstSide]
     * (Math.sin valArray.[m6 (firstSide + 5)]
        / Math.sin valArray.[thirdAngleIndex])) in
  let valArray := put valArray (m6 (firstSide + 4))
    (valArray.[firstSide]
     * (Math.sin valArray.[m6 (firstSide + 7)]
        / Math.sin valArray.[thirdAngleIndex])) in
  addSolutionToResult valArray result parameterCount.

Definition solve_SAS (valArray : list slot) (result : solveResult)
    (firstAngle parameterCount : Z) : solveResult :=
  let side1 := valArray.[m6 (firstAngle + 5)] in
  let side2 := valArray.[m6 (firstAngle + 1)] in
  let side3 := Math.sqrt (Num.sq side1 + Num.sq side2
                          - Fin 2 * side1 * side2
                            * Math.cos valArray.[firstAngle]) in
  let valArray := put valArray (m6 (firstAngle + 3)) side3 in
  let valArray := put valArray (m6 (firstAngle + 2))
    (Math.acos ((Num.sq side3 + Num.sq side2 - Num.sq side1)
                / (Fin 2 * side3 * side2))) in
  let valArray := put valArray (m6 (firstAngle + 4))
    (angleSum - valArray.[m6 (firstAngle + 2)] - valArray.[firstAngle]) in
  addSolutionToResult valArray result parameterCount.

Definition solve_SAA (valArray : list slot) (result : solveResult)
    (firstSide parameterCount : Z) : solveResult :=
  let valArray := put valArray (m6 (firstSide + 5))
    (angleSum - valArray.[m6 (firstSide + 1)] - valArray.[m6 (firstSide + 3)]) in
  let valArray := put valArray (m6 (firstSide + 2))
    (valArray.[firstSide]
     * (Math.sin valArray.[m6 (firstSide + 5)]
        / Math.sin valArray.[m6 (firstSide + 3)])) in
  let valArray := put valArray (m6 (firstSide + 4))
    (valArray.[firstSide]
     * (Math.sin valArray.[m6 (firstSide + 7)]
        / Math.sin valArray.[m6 (firstSide + 3)])) in
  addSolutionToResult valArray result parameterCount.

Definition solve_AAS (valArray : list slot) (result : solveResult)
    (firstSide parameterCount : Z) : solveResult :=
  let valArray := put valArray (m6 (firstSide + 1))
    (angleSum - valArray.[m6 (firstSide + 5)] - valArray.[m6 (firstSide + 3)]) in
  let valArray := put valArray (m6 (firstSide + 2))
    (valArray.[firstSide]
     * (Math.sin valArray.[m6 (firstSide + 5)]
        / Math.sin valArray.[m6 (firstSide + 3)])) in
  let valArray := put valArray (m6 (firstSide + 4))
    (valArray.[firstSide]
     * (Math.sin valArray.[m6 (firstSide + 7)]
        / Math.sin valArray.[m6 (firstSide + 3)])) in
  addSolutionToResult valArray result parameterCount.

(** SSA: the known sides are at [firstAngle + 5] and [firstAngle + 3]. *)
Definition solve_SSA (valArray : list slot) (result : solveResult)
    (firstAngle parameterCount : Z) : solveResult :=
  let s1 := valArray.[m6 (firstAngle + 3)] in
  let s2 := valArray.[m6 (firstAngle + 5)] in
  let angle := valArray.[firstAngle] in
  let D := (s2 / s1) * Math.sin angle in
  if D >? Fin 1 then set_error result NoSolution
  else if s1 >=? s2 then
    let valArray := put valArray (m6 (firstAngle + 2))
      (if D ==? Fin 1 then Math.PI / Fin 2 else Math.asin D) in
    let valArray := put valArray (m6 (firstAngle + 4))
      (angleSum - angle - valArray.[m6 (firstAngle + 2)]) in
    let valArray := put valArray (m6 (firstAngle + 1))
      (s1 * (Math.sin valArray.[m6 (firstAngle + 4)] / Math.sin angle)) in
    addSolutionToResult valArray result parameterCount
  else
    let mysteryAngle := Math.asin D in
    let valArray := put valArray (m6 (firstAngle + 2)) mysteryAngle in
    let valArray := put valArray (m6 (firstAngle + 4))
      (angleSum - angle - valArray.[m6 (firstAngle + 2)]) in
    let valArray := put valArray (m6 (firstAngle + 1))
      (s1 * (Math.sin valArray.[m6 (firstAngle + 4)] / Math.sin angle)) in
    let result := addSolutionToResult valArray result parameterCount in
    let valArray := put valArray (m6 (firstAngle + 2))
      (angleSum - mysteryAngle) in
    let valArray := put valArray (m6 (firstAngle + 4))
      (angleSum - angle - valArray.[m6 (firstAngle + 2)]) in
    let valArray := put valArray (m6 (firstAngle + 1))
      (s1 * (Math.sin valArray.[m6 (firstAngle + 4)] / Math.sin angle)) in
    addSolutionToResult valArray result parameterCount.

(** ASS: the known sides are at [firstAngle + 1] and [firstAngle + 3]. *)
Definition solve_ASS (valArray : list slot) (result : solveResult)
    (firstAngle parameterCount : Z) : solveResult :=
  let angle := valArray.[firstAngle] in
  let s1 := valArray.[m6 (firstAngle + 3)] in
  let s2 := valArray.[m6 (firstAngle + 1)] in
  let D := (s2 / s1) * Math.sin angle in
  if D >? Fin 1 then set_error result NoSolution
  else if s1 >=? s2 then
    let valArray := put valArray (m6 (firstAngle + 4))
      (if D ==? Fin 1 then Math.PI / Fin 2 else Math.asin D) in
    let valArray := put valArray (m6 (firstAngle + 2))
      (angleSum - angle - valArray.[m6 (firstAngle + 4)]) in
    let valArray := put valArray (m6 (firstAngle + 5))
      (s1 * (Math.sin valArray.[m6 (firstAngle + 2)] / Math.sin angle)) in
    addSolutionToResult valArray result parameterCount
  else
    let mysteryAngle := Math.asin D in
    let valArray := put valArray (m6 (firstAngle + 4)) mysteryAngle in
    let valArray := put valArray (m6 (firstAngle + 2))
      (angleSum - angle - valArray.[m6 (firstAngle + 4)]) in
    let valArray := put valArray (m6 (firstAngle + 5))
      (s1 * (Math.sin valArray.[m6 (firstAngle + 2)] / Math.sin angle)) in
    let result := addSolutionToResult valArray result parameterCount in
    let valArray := put valArray (m6 (firstAngle + 4))
      (angleSum - mysteryAngle) in
    let valArray := put valArray (m6 (firstAngle + 2))
      (angleSum - angle - valArray.[m6 (firstAngle + 4)]) in
    let valArray := put valArray (m6 (firstAngle + 5))
      (s1 * (Math.sin valArray.[m6 (firstAngle + 2)] / Math.sin angle)) in
    addSolutionToResult valArray result parameterCount.

(** The properties of the result object that survive the deletion of
    [undefined] and of the empty string. *)
Definition kept (p : param) : slot :=
  match p with Number n => Some n | _ => None end.

(** An argument of [solve] used as a number. *)
Definition param_number (p : param) : num :=
  match p with Number n => n | EmptyString => Fin 0 | Undefined => NaN end.

Definition initial_result (t : triangleToSolve) (mode : string) : solveResult :=
  {| res_a := kept (in_a t); res_b := kept (in_b t); res_c := kept (in_c t);
     res_alpha := kept (in_alpha t); res_beta := kept (in_beta t);
     res_gamma := kept (in_gamma t);
     res_mode := if String.eqb mode "" then None else Some mode;
     solutions := []; res_error := None |}.

(** The chain of cases, entered once the parameters are validated. *)
Definition dispatch (a b c : num) (valArray : list slot) (result : solveResult)
    (firstSide firstAngle sideCount angleCount : Z) : solveResult :=
  let parameterCount := (angleCount + sideCount)%Z in
  if (parameterCount <? 3)%Z then set_error result TooFewParameters
  else if (sideCount =? 0)%Z then set_error result NoSideLength
  else if (sideCount =? 3)%Z then
    solve_SSS a b c valArray result parameterCount
  else if truthy (get valArray (m6 (firstSide + 5)))
          && truthy (get valArray (m6 (firstSide + 1))) then
    solve_ASA valArray result firstSide parameterCount
  else if truthy (get valArray (m6 (firstAngle + 5)))
          && truthy (get valArray (m6 (firstAngle + 1))) then
    solve_SAS valArray result firstAngle parameterCount
  else if truthy (get valArray (m6 (firstSide + 1)))
          && truthy (get valArray (m6 (firstSide + 3))) then
    solve_SAA valArray result firstSide parameterCount
  else if truthy (get valArray (m6 (firstSide + 5)))
          && truthy (get valArray (m6 (firstSide + 3))) then
    solve_AAS valArray result firstSide parameterCount
  else if truthy (get valArray (m6 (firstAngle + 5)))
          && truthy (get valArray (m6 (firstAngle + 3))) then
    solve_SSA valArray result firstAngle parameterCount
  else if truthy (get valArray (m6 (firstAngle + 1)))
          && truthy (get valArray (m6 (firstAngle + 3))) then
    solve_ASS valArray result firstAngle parameterCount
  else result.

(** The two validation loops in sequence: the value array with angles in
    radians, [firstSide], [firstAngle], [sideCount], [angleCount]. *)
Definition analyse (modeInConv : num) (valArray : list slot)
  : error + (list slot * Z * Z * Z * Z) :=
  match sides_loop [0; 2; 4]%Z valArray (-1) 0 with
  | inl e => inl e
  | inr (valArray, firstSide, sideCount) =>
      match angles_loop modeInConv [1; 3; 5]%Z valArray (-1) 0 with
      | inl e => inl e
      | inr (valArray, firstAngle, angleCount) =>
          inr (valArray, firstSide, firstAngle, sideCount, angleCount)
      end
  end.

(** The default of the [mode] argument. *)
Definition mode_of (t : triangleToSolve) : string :=
  match in_mode t with Some m => m | None => "deg"%string end.

(** [mode === "deg" ? toRad : 1] *)
Definition modeInConv (mode : string) : num :=
  if String.eqb mode "deg" then toRad else Fin 1.

Definition solve (t : triangleToSolve) : solveResult :=
  let mode := mode_of t in
  let result := initial_result t mode in
  let valArray := [res_a result; res_gamma result; res_b result;
                   res_alpha result; res_c result; res_beta result] in
  if negb (String.eqb mode "deg") && negb (String.eqb mode "rad")
  then set_error result (UnknownMode mode)
  else
    let modeInConv := modeInConv mode in
    match analyse modeInConv valArray with
    | inl e => set_error result e
    | inr (valArray, firstSide, firstAngle, sideCount, angleCount) =>
        dispatch (param_number (in_a t)) (param_number (in_b t))
          (param_number (in_c t)) valArray result
          firstSide firstAngle sideCount angleCount
    end.

(** ** Points: pointToArray, distance, checkCoordinate *)

(** A call either returns or throws; the only exception the modelled
    code can raise is a [TypeError]. *)
Inductive exception : Type := TypeError.

Inductive completion (A : Type) : Type :=
| Return (x : A)
| Throw (e : exception).

Arguments Return {A} x.
Arguments Throw {A} e.

Definition bind {A B : Type} (c : completion A) (k : A -> completion B)
  : completion B :=
  match c with Return x => k x | Throw e => Throw e end.

Notation "x <- c ;; k" := (bind c (fun x => k))
  (at level 61, c at next level, right associativity).

(** ToNumber on the values of the model: an array converts through its
    string form, a plain object is [NaN]. *)
Fixpoint jsToNumber (v : jsval) : num :=
  match v with
  | JUndefined => NaN
  | JNull => Fin 0
  | JBoolean b => if b then Fin 1 else Fin 0
  | JNumber n => n
  | JArray [] => Fin 0
  | JArray [x] =>
      match x with
      | JUndefined | JNull => Fin 0
      | JBoolean _ => NaN
      | JNumber n => n
      | JArray _ => jsToNumber x
      | JObject _ => NaN
      end
  | JArray _ => NaN
  | JObject _ => NaN
  end.

(** The global [isNaN]. *)
Definition isNaN (v : jsval) : bool := Num.isNaN (jsToNumber v).

(** [typeof v === "object"] *)
Definition typeof_object (v : jsval) : bool :=
  match v with JNull | JArray _ | JObject _ => true | _ => false end.

Definition isArray (v : jsval) : bool :=
  match v with JArray _ => true | _ => false end.

Fixpoint lookup (key : string) (properties : list (string * jsval))
  : option jsval :=
  match properties with
  | [] => None
  | (k, v) :: rest => if String.eqb k key then Some v else lookup key rest
  end.

(** [Object.hasOwn(o, key)] for a key that is not an array index:
    [null] and [undefined] cannot be converted to an object. *)
Definition hasOwn (o : jsval) (key : string) : completion bool :=
  match o with
  | JUndefined | JNull => Throw TypeError
  | JObject properties =>
      Return (match lookup key properties with Some _ => true | None => false end)
  | _ => Return false
  end.

(** [o.key] on a value that passed [hasOwn]. *)
Definition member (o : jsval) (key : string) : jsval :=
  match o with
  | JObject properties =>
      match lookup key properties with Some v => v | None => JUndefined end
  | _ => JUndefined
  end.

(** [p[i]]: reading an index of [null] or [undefined] throws. *)
Definition index (p : jsval) (i : nat) : completion jsval :=
  match p with
  | JUndefined | JNull => Throw TypeError
  | JArray elements => Return (nth i elements JUndefined)
  | _ => Return JUndefined
  end.

Definition pointToArray (point : jsval) : completion jsval :=
  if isArray point then Return point
  else
    hx <- hasOwn point "x" ;;
    if hx then Return (JArray [member point "x"; member point "y"])
    else
      hX <- hasOwn point "X" ;;
      if hX then Return (JArray [member point "X"; member point "Y"])
      else Return JNull.

Definition distance (p1 p2 : jsval) : completion num :=
  p1 <- pointToArray p1 ;;
  p2 <- pointToArray p2 ;;
  x1 <- index p1 0 ;;
  x2 <- index p2 0 ;;
  y1 <- index p1 1 ;;
  y2 <- index p2 1 ;;
  Return (Math.hypot (jsToNumber x1 - jsToNumber x2)
            (jsToNumber y1 - jsToNumber y2)).

Definition array_length (p : jsval) : nat :=
  match p with JArray elements => List.length elements | _ => O end.

Definition checkCoordinate (p : jsval) : completion bool :=
  if negb (typeof_object p) then Return false
  else if isArray p && (2 <=? array_length p)%nat then
    p0 <- index p 0 ;;
    p1 <- index p 1 ;;
    Return (negb (isNaN p0) && negb (isNaN p1))
  else
    hx <- hasOwn p "x" ;;
    hy <- (if hx then hasOwn p "y" else Return false) ;;
    if hx && hy then
      Return (negb (isNaN (member p "x")) && negb (isNaN (member p "y")))
    else
      hX <- hasOwn p "X" ;;
      hY <- (if hX then hasOwn p "Y" else Return false) ;;
      if hX && hY then
        Return (negb (isNaN (member p "X")) && negb (isNaN (member p "Y")))
      else Return false.

(** ** barycentricToCartesian *)

Record Point : Type := { px : num; py : num }.

(** [valArray.reduce((s, c, i) => s + hom[i] * c[k], 0)] *)
Fixpoint weighted_sum (k : nat) (hom : list num) (valArray : list jsval)
    (i : nat) (s : num) : completion num :=
  match valArray with
  | [] => Return s
  | c :: rest =>
      ck <- index c k ;;
      weighted_sum k hom rest (S i)
        (s + ToNumber (nth_error hom i) * jsToNumber ck)
  end.

Definition barycentricToCartesian (p1 p2 p3 : jsval) (bary : list num)
  : completion Point :=
  let barSum := fold_left Num.add bary (Fin 0) in
  let hom := map (fun c => c / barSum) bary in
  a1 <- pointToArray p1 ;;
  a2 <- pointToArray p2 ;;
  a3 <- pointToArray p3 ;;
  let valArray := [a1; a2; a3] in
  x <- weighted_sum 0 hom valArray 0 (Fin 0) ;;
  y <- weighted_sum 1 hom valArray 0 (Fin 0) ;;
  Return {| px := x; py := y |}.

(** ** solvePoints *)

Record pointsSolution : Type := {
  ps_angleA : num; ps_angleB : num; ps_angleC : num;
  ps_sideAB : num; ps_sideBC : num; ps_sideCA : num;
  ps_a : num; ps_b : num; ps_c : num;
  ps_alpha : num; ps_beta : num; ps_gamma : num;
  ps_area : num;
  ps_centroid : Point;
  ps_incircle_center : Point; ps_incircle_radius : num;
  ps_circumcircle_center : Point; ps_circumcircle_radius : num;
  ps_ha : num; ps_hb : num; ps_hc : num
}.

Record pointsResult : Type := {
  pr_A : jsval; pr_B : jsval; pr_C : jsval;
  pr_mode : string;
  pr_solutions : list pointsSolution;
  pr_error : option error
}.

Definition points_error (result : pointsResult) (e : error) : pointsResult :=
  {| pr_A := pr_A result; pr_B := pr_B result; pr_C := pr_C result;
     pr_mode := pr_mode result; pr_solutions := pr_solutions result;
     pr_error := Some e |}.

Definition nameArray : list string := ["A"; "B"; "C"]%string.

(** [JSON.stringify(v).replaceAll(...)]: [JSON.stringify(undefined)] is
    [undefined], which has no method. *)
Definition stringify_replaceAll (v : jsval) : completion jsval :=
  match v with JUndefined => Throw TypeError | _ => Return v end.

(** The first loop: every point must be a coordinate. *)
Fixpoint check_loop (idxs : list nat) (valArray : list jsval)
  : completion (option error) :=
  match idxs with
  | [] => Return None
  | i :: rest =>
      ok <- checkCoordinate (nth i valArray JUndefined) ;;
      if negb ok then
        shown <- stringify_replaceAll (nth i valArray JUndefined) ;;
        Return (Some (IllegalParameter (nth i nameArray ""%string) shown))
      else check_loop rest valArray
  end.

(** The second loop: consecutive points must differ. *)
Fixpoint duplicate_loop (idxs : list nat) (valArray : list jsval)
  : completion (option error) :=
  match idxs with
  | [] => Return None
  | i :: rest =>
      d <- distance (nth i valArray JUndefined)
             (nth ((i + 1) mod 3) valArray JUndefined) ;;
      if d ==? Fin 0 then
        Return (Some (RepeatedCoordinates
                        (nth i nameArray ""%string)
                        (nth i valArray JUndefined)
                        (nth ((i + 1) mod 3) nameArray ""%string)
                        (nth ((i + 1) mod 3) valArray JUndefined)))
      else duplicate_loop rest valArray
  end.

Definition solvePoints (A B C : jsval) (mode : option string)
  : completion pointsResult :=
  let mode := match mode with Some m => m | None => "deg"%string end in
  let result := {| pr_A := A; pr_B := B; pr_C := C; pr_mode := mode;
                   pr_solutions := []; pr_error := None |} in
  let valArray := [A; B; C] in
  invalid <- check_loop [0; 1; 2]%nat valArray ;;
  match invalid with
  | Some e => Return (points_error result e)
  | None =>
  repeated <- duplicate_loop [0; 1; 2]%nat valArray ;;
  match repeated with
  | Some e => Return (points_error result e)
  | None =>
  sideAB <- distance A B ;;
  sideBC <- distance B C ;;
  sideCA <- distance C A ;;
  if negb (String.eqb mode "deg") && negb (String.eqb mode "rad")
  then Return (points_error result (UnknownMode mode))
  else
  let modeOutConv := if String.eqb mode "deg" then toDeg else Fin 1 in
  let angleA := Math.acos ((Num.sq sideCA + Num.sq sideAB - Num.sq sideBC)
                           / (Fin 2 * sideCA * sideAB)) in
  let angleB := Math.acos ((Num.sq sideBC + Num.sq sideAB - Num.sq sideCA)
                           / (Fin 2 * sideBC * sideAB)) in
  let angleC := angleSum - angleA - angleB in
  if existsb (fun x => negb (Num.truthy x)) [angleA; angleB; angleC]
  then Return (points_error result (ImpossibleSides sideBC sideCA sideAB))
  else
  pA <- pointToArray A ;;
  pB <- pointToArray B ;;
  pC <- pointToArray C ;;
  centroid <- barycentricToCartesian pA pB pC
                [Fin 1 / Fin 3; Fin 1 / Fin 3; Fin 1 / Fin 3] ;;
  incenter <- barycentricToCartesian pA pB pC [sideBC; sideCA; sideAB] ;;
  circumcenter <- barycentricToCartesian pA pB pC
                    [Math.sin (Fin 2 * angleA); Math.sin (Fin 2 * angleB);
                     Math.sin (Fin 2 * angleC)] ;;
  let radius := (sideBC / Math.sin angleA) / Fin 2 in
  let solution :=
    {| ps_angleA := modeOutConv * angleA;
       ps_angleB := modeOutConv * angleB;
       ps_angleC := modeOutConv * angleC;
       ps_sideAB := sideAB; ps_sideBC := sideBC; ps_sideCA := sideCA;
       ps_a := sideBC; ps_b := sideCA; ps_c := sideAB;
       ps_alpha := modeOutConv * angleA;
       ps_beta := modeOutConv * angleB;
       ps_gamma := modeOutConv * angleC;
       ps_area := Fin (1 / 2) * sideAB * sideBC * Math.sin angleB;
       ps_centroid := centroid;
       ps_incircle_center := incenter;
       ps_incircle_radius := incircleRadius sideAB sideBC sideCA;
       ps_circumcircle_center := circumcenter;
       ps_circumcircle_radius := radius;
       ps_ha := (sideCA * sideAB) / (Fin 2 * radius);
       ps_hb := (sideBC * sideAB) / (Fin 2 * radius);
       ps_hc := (sideBC * sideCA) / (Fin 2 * radius) |} in
  Return {| pr_A := A; pr_B := B; pr_C := C; pr_mode := mode;
            pr_solutions := [solution]; pr_error := None |}
  end end.

(** ** The case a validated value array falls into *)

Inductive triangleCase : Type := SSS | ASA | SAS | SAA | AAS | SSA | ASS.

(** The conditions of the chain in [dispatch], in its order. *)
Definition classify (valArray : list slot)
    (firstSide firstAngle sideCount : Z) : option triangleCase :=
  if (sideCount =? 3)%Z then Some SSS
  else if truthy (get valArray (m6 (firstSide + 5)))
          && truthy (get valArray (m6 (firstSide + 1))) then Some ASA
  else if truthy (get valArray (m6 (firstAngle + 5)))
          && truthy (get valArray (m6 (firstAngle + 1))) then Some SAS
  else if truthy (get valArray (m6 (firstSide + 1)))
          && truthy (get valArray (m6 (firstSide + 3))) then Some SAA
  else if truthy (get valArray (m6 (firstSide + 5)))
          && truthy (get valArray (m6 (firstSide + 3))) then Some AAS
  else if truthy (get valArray (m6 (firstAngle + 5)))
          && truthy (get valArray (m6 (firstAngle + 3))) then Some SSA
  else if truthy (get valArray (m6 (firstAngle + 1)))
          && truthy (get valArray (m6 (firstAngle + 3))) then Some ASS
  else None.

(** A slot that passed the side loop, or the angle loop. *)
Definition side_slot (x : slot) : Prop :=
  match x with Some n => illegal_side n = false | None => True end.

Definition angle_slot (x : slot) : Prop :=
  match x with Some n => illegal_angle n = false | None => True end.

(** The value array after both loops: six slots, sides at the even and
    angles (in radians) at the odd positions. *)
Inductive validated : list slot -> Prop :=
| validated_intro a gamma b alpha c beta :
    side_slot a -> angle_slot gamma -> side_slot b ->
    angle_slot alpha -> side_slot c -> angle_slot beta ->
    validated [a; gamma; b; alpha; c; beta].

(** Bookkeeping of the two loops: whether a slot is given, and the first
    given slot among three. *)
Definition given (x : slot) : Z := match x with Some _ => 1 | None => 0 end.

Definition first_given (i j k : Z) (x y z : slot) : Z :=
  match x, y, z with
  | Some _, _, _ => i
  | None, Some _, _ => j
  | None, None, Some _ => k
  | None, None, None => -1
  end.

(** An angle slot converted to radians. *)
Definition scaled (conv : num) (x : slot) : slot :=
  match x with Some n => Some (n * conv) | None => None end.

(** * Vocabulary of the statements *)

(** The candidate computed in the SSA branch from two infinite sides and
    an angle of 30 degrees. *)
Definition nan_candidate : list slot :=
  [Some (Inf false); Some NaN; Some (Inf false);
   Some (Fin (30 * (PI / 180))); Some NaN; Some NaN].

(** [solve({a: Infinity, b: Infinity, alpha: 30})] *)
Definition infinite_sides_input : triangleToSolve :=
  {| in_a := Number (Inf false); in_b := Number (Inf false);
     in_c := Undefined; in_alpha := Number (Fin 30); in_beta := Undefined;
     in_gamma := Undefined; in_mode := None |}.

(** Every given quantity is legal and the mode is known: the input passes
    the validation of [solve]. *)
Definition accepted (t : triangleToSolve) : Prop :=
  (mode_of t = "deg"%string \/ mode_of t = "rad"%string) /\
  side_slot (kept (in_a t)) /\ side_slot (kept (in_b t)) /\
  side_slot (kept (in_c t)) /\
  angle_slot (scaled (modeInConv (mode_of t)) (kept (in_alpha t))) /\
  angle_slot (scaled (modeInConv (mode_of t)) (kept (in_beta t))) /\
  angle_slot (scaled (modeInConv (mode_of t)) (kept (in_gamma t))).

(** The value array after validation. *)
Definition validated_array (t : triangleToSolve) : list slot :=
  [kept (in_a t); scaled (modeInConv (mode_of t)) (kept (in_gamma t));
   kept (in_b t); scaled (modeInConv (mode_of t)) (kept (in_alpha t));
   kept (in_c t); scaled (modeInConv (mode_of t)) (kept (in_beta t))].

Definition firstSide (t : triangleToSolve) : Z :=
  first_given 0 2 4 (kept (in_a t)) (kept (in_b t)) (kept (in_c t)).

Definition firstAngle (t : triangleToSolve) : Z :=
  first_given 1 3 5 (kept (in_gamma t)) (kept (in_alpha t)) (kept (in_beta t)).

Definition sideCount (t : triangleToSolve) : Z :=
  (given (kept (in_a t)) + given (kept (in_b t)) + given (kept (in_c t)))%Z.

Definition angleCount (t : triangleToSolve) : Z :=
  (given (kept (in_gamma t)) + given (kept (in_alpha t))
   + given (kept (in_beta t)))%Z.

(** [solve({a: 1, b: 2, c: 10})] *)
Definition sides_1_2_10 : triangleToSolve :=
  {| in_a := Number (Fin 1); in_b := Number (Fin 2); in_c := Number (Fin 10);
     in_alpha := Undefined; in_beta := Undefined; in_gamma := Undefined;
     in_mode := None |}.

(** [solve({a: 1, b: 1, c: 1, alpha: 10, mode: "deg"})] *)
Definition equilateral_alpha_10 : triangleToSolve :=
  {| in_a := Number (Fin 1); in_b := Number (Fin 1); in_c := Number (Fin 1);
     in_alpha := Number (Fin 10); in_beta := Undefined; in_gamma := Undefined;
     in_mode := Some "deg"%string |}.

(** A result whose error is set holds no solution. *)
Definition clean (r : solveResult) : Prop :=
  res_error r <> None -> solutions r = [].

(** The two candidates that the SSA branch computes in double precision
    for [solve({a: 1, b: 1.0000000000000002, alpha: 45})]:
    [angle = 45 * toRad = 0.7853981633974483],
    [D = 1.0000000000000002 * 0.7071067811865475 = 0.7071067811865476],
    [mysteryAngle = 0.7853981633974484]; for the second candidate
    [angleSum - mysteryAngle] and [angleSum - angle] round to the same
    number 2.356194490192345, so the remaining angle is 0. *)
Definition rounded_candidate_1 : list slot :=
  [Some (Fin 1); Some (Fin 1.5707963267948966);
   Some (Fin 1.0000000000000002); Some (Fin 0.7853981633974483);
   Some (Fin 1.4142135623730951); Some (Fin 0.7853981633974484)].

Definition rounded_candidate_2 : list slot :=
  [Some (Fin 1); Some (Fin 0);
   Some (Fin 1.0000000000000002); Some (Fin 0.7853981633974483);
   Some (Fin 0); Some (Fin 2.356194490192345)].


(** The case [solve] commits to, once the input is accepted. *)
Definition classification (t : triangleToSolve) : option triangleCase :=
  if (angleCount t + sideCount t <? 3)%Z then None
  else if (sideCount t =? 0)%Z then None
  else classify (validated_array t) (firstSide t) (firstAngle t) (sideCount t).

(** The quantities of the SSA and ASS branches: [s1] is the known side at
    offset 3 from the known angle (the side opposite to it), [s2] the other
    known side, at offset 5 (SSA) or 1 (ASS). *)
Definition s2_offset (c : triangleCase) : Z :=
  match c with ASS => 1 | _ => 5 end.

Definition known_angle (t : triangleToSolve) : num :=
  (validated_array t).[firstAngle t].

Definition known_s1 (t : triangleToSolve) : num :=
  (validated_array t).[m6 (firstAngle t + 3)].

Definition known_s2 (t : triangleToSolve) (c : triangleCase) : num :=
  (validated_array t).[m6 (firstAngle t + s2_offset c)].








(** Six reals that describe a triangle: positive sides, angles strictly
    between 0 and pi that sum to pi, and the law of sines. *)
Definition triangle (a b c alpha beta gamma : R) : Prop :=
  (0 < a /\ 0 < b /\ 0 < c /\
   0 < alpha < PI /\ 0 < beta < PI /\ 0 < gamma < PI /\
   alpha + beta + gamma = PI /\
   a * sin beta = b * sin alpha /\
   b * sin gamma = c * sin beta /\
   c * sin alpha = a * sin gamma)%R.

(** The six quantities of a solution are finite numbers. *)
Definition finite_solution (s : triangleSolution) : Prop :=
  exists a b c alpha beta gamma,
    sol_a s = Some (Fin a) /\ sol_b s = Some (Fin b) /\
    sol_c s = Some (Fin c) /\ sol_alpha s = Fin alpha /\
    sol_beta s = Fin beta /\ sol_gamma s = Fin gamma.

(** A value array that holds a triangle, angles in radians. *)
Definition triangle_array (v : list slot) : Prop :=
  exists a b c alpha beta gamma,
    v = [Some (Fin a); Some (Fin gamma); Some (Fin b);
         Some (Fin alpha); Some (Fin c); Some (Fin beta)] /\
    triangle a b c alpha beta gamma.

(** Every finite solution of a result is made of a triangle. *)
Definition sound (r : solveResult) : Prop :=
  forall s, In s (solutions r) -> finite_solution s ->
  exists v, triangle_array v /\ s = make_solution (modeOutConv r) v.

(** The six slots of a candidate read as finite numbers. *)
Definition finite_array (v : list slot) : Prop :=
  (exists x, get v 0 = Some (Fin x)) /\ (exists x, v.[1] = Fin x) /\
  (exists x, get v 2 = Some (Fin x)) /\ (exists x, v.[3] = Fin x) /\
  (exists x, get v 4 = Some (Fin x)) /\ (exists x, v.[5] = Fin x).

(** What every run of [solve] preserves: the mode of the result, a known
    mode as soon as there is a solution, and soundness. *)
Definition sound_run (t : triangleToSolve) (r : solveResult) : Prop :=
  res_mode r = res_mode (initial_result t (mode_of t)) /\
  (solutions r <> [] ->
   mode_of t = "deg"%string \/ mode_of t = "rad"%string) /\
  sound r.

(** A property of a solution passed as an argument. *)
Definition as_param (x : slot) : param :=
  match x with Some n => Number n | None => Undefined end.

(** The six quantities of a solution as the argument of [solve]:
    [solve({...s, mode})]. *)
Definition feed_back (s : triangleSolution) (mode : option string)
  : triangleToSolve :=
  {| in_a := as_param (sol_a s); in_b := as_param (sol_b s);
     in_c := as_param (sol_c s);
     in_alpha := Number (sol_alpha s); in_beta := Number (sol_beta s);
     in_gamma := Number (sol_gamma s); in_mode := mode |}.

(** [mode === "deg" ? toDeg : 1] as a function of the mode. *)
Definition outConv (mode : string) : num :=
  if String.eqb mode "deg" then toDeg else Fin 1.

(** [solve({a: 1, b: 1, c: 1})] and its solution. *)
Definition equilateral : triangleToSolve :=
  {| in_a := Number (Fin 1); in_b := Number (Fin 1); in_c := Number (Fin 1);
     in_alpha := Undefined; in_beta := Undefined; in_gamma := Undefined;
     in_mode := None |}.

Definition equilateral_solution : triangleSolution :=
  make_solution toDeg
    [Some (Fin 1); Some (Fin (PI - PI / 3 - PI / 3)); Some (Fin 1);
     Some (Fin (PI / 3)); Some (Fin 1); Some (Fin (PI / 3))].

(** The three accepted representations of a point with finite
    coordinates: [[x, y]], [{x, y}] and [{X, Y}]. *)
Inductive representation : Type := AsArray | As_xy | As_XY.

Definition point (rep : representation) (x y : R) : jsval :=
  match rep with
  | AsArray => JArray [JNumber (Fin x); JNumber (Fin y)]
  | As_xy => JObject [("x"%string, JNumber (Fin x));
                      ("y"%string, JNumber (Fin y))]
  | As_XY => JObject [("X"%string, JNumber (Fin x));
                      ("Y"%string, JNumber (Fin y))]
  end.

(** The mode argument is left out, ["deg"] or ["rad"]. *)
Definition valid_mode (mode : option string) : Prop :=
  mode = None \/ mode = Some "deg"%string \/ mode = Some "rad"%string.

(** The angle sum in the unit of the mode. *)
Definition full_angle (mode : option string) : num :=
  match mode with
  | Some m => if String.eqb m "rad" then Math.PI else Fin 180
  | None => Fin 180
  end.



(** The initial result of [solvePoints]. *)
Definition points_initial (A B C : jsval) (mode : option string)
  : pointsResult :=
  {| pr_A := A; pr_B := B; pr_C := C;
     pr_mode := match mode with Some m => m | None => "deg"%string end;
     pr_solutions := []; pr_error := None |}.

(** [mode = "deg"], the default of [solvePoints]. *)
Definition points_mode (mode : option string) : string :=
  match mode with Some m => m | None => "deg"%string end.

(** [solution[property]] for the properties named by [order]. *)
Definition solution_value (s : triangleSolution) (property : string) : num :=
  if String.eqb property "a" then ToNumber (sol_a s)
  else if String.eqb property "gamma" then sol_gamma s
  else if String.eqb property "b" then ToNumber (sol_b s)
  else if String.eqb property "alpha" then sol_alpha s
  else if String.eqb property "c" then ToNumber (sol_c s)
  else if String.eqb property "beta" then sol_beta s
  else NaN.

(** The number of parameters given to [solve]. *)
Definition parameterCount (t : triangleToSolve) : Z :=
  (angleCount t + sideCount t)%Z.

(** Two results hold the same parameters and mode. *)
Definition same_parameters (r r' : solveResult) : Prop :=
  res_a r = res_a r' /\ res_b r = res_b r' /\ res_c r = res_c r' /\
  res_alpha r = res_alpha r' /\ res_beta r = res_beta r' /\
  res_gamma r = res_gamma r' /\ res_mode r = res_mode r'.

(** [{a, b, c, mode}], the argument of [solve] with three sides. *)
Definition sides_only (a b c : num) (mode : option string)
  : triangleToSolve :=
  {| in_a := Number a; in_b := Number b; in_c := Number c;
     in_alpha := Undefined; in_beta := Undefined; in_gamma := Undefined;
     in_mode := mode |}.

(** ** The six-tuple of a branch with one candidate *)

(** The value array that each of the branches SSS, ASA, SAS, SAA and AAS
    hands to [addSolutionToResult]. *)
Definition SSS_array (a b c : num) (valArray : list slot) : list slot :=
  let valArray := put valArray 3
    (Math.acos ((Num.sq b + Num.sq c - Num.sq a) / (Fin 2 * b * c))) in
  let valArray := put valArray 5
    (Math.acos ((Num.sq a + Num.sq c - Num.sq b) / (Fin 2 * a * c))) in
  put valArray 1 (angleSum - valArray.[3] - valArray.[5]).

Definition ASA_array (valArray : list slot) (firstSide : Z) : list slot :=
  let thirdAngleIndex := m6 (firstSide + 3) in
  let valArray := put valArray thirdAngleIndex
    (angleSum - valArray.[m6 (firstSide + 5)] - valArray.[m6 (firstSide + 1)]) in
  let valArray := put valArray (m6 (firstSide + 2))
    (valArray.[firstSide]
     * (Math.sin valArray.[m6 (firstSide + 5)]
        / Math.sin valArray.[thirdAngleIndex])) in
  put valArray (m6 (firstSide + 4))
    (valArray.[firstSide]
     * (Math.sin valArray.[m6 (firstSide + 7)]
        / Math.sin valArray.[thirdAngleIndex])).

Definition SAS_array (valArray : list slot) (firstAngle : Z) : list slot :=
  let side1 := valArray.[m6 (firstAngle + 5)] in
  let side2 := valArray.[m6 (firstAngle + 1)] in
  let side3 := Math.sqrt (Num.sq side1 + Num.sq side2
                          - Fin 2 * side1 * side2
                            * Math.cos valArray.[firstAngle]) in
  let valArray := put valArray (m6 (firstAngle + 3)) side3 in
  let valArray := put valArray (m6 (firstAngle + 2))
    (Math.acos ((Num.sq side3 + Num.sq side2 - Num.sq side1)
                / (Fin 2 * side3 * side2))) in
  put valArray (m6 (firstAngle + 4))
    (angleSum - valArray.[m6 (firstAngle + 2)] - valArray.[firstAngle]).

Definition SAA_array (valArray : list slot) (firstSide : Z) : list slot :=
  let valArray := put valArray (m6 (firstSide + 5))
    (angleSum - valArray.[m6 (firstSide + 1)] - valArray.[m6 (firstSide + 3)]) in
  let valArray := put valArray (m6 (firstSide + 2))
    (valArray.[firstSide]
     * (Math.sin valArray.[m6 (firstSide + 5)]
        / Math.sin valArray.[m6 (firstSide + 3)])) in
  put valArray (m6 (firstSide + 4))
    (valArray.[firstSide]
     * (Math.sin valArray.[m6 (firstSide + 7)]
        / Math.sin valArray.[m6 (firstSide + 3)])).

Definition AAS_array (valArray : list slot) (firstSide : Z) : list slot :=
  let valArray := put valArray (m6 (firstSide + 1))
    (angleSum - valArray.[m6 (firstSide + 5)] - valArray.[m6 (firstSide + 3)]) in
  let valArray := put valArray (m6 (firstSide + 2))
    (valArray.[firstSide]
     * (Math.sin valArray.[m6 (firstSide + 5)]
        / Math.sin valArray.[m6 (firstSide + 3)])) in
  put valArray (m6 (firstSide + 4))
    (valArray.[firstSide]
     * (Math.sin valArray.[m6 (firstSide + 7)]
        / Math.sin valArray.[m6 (firstSide + 3)])).

(** The six-tuple solved for an input in one of these cases.  (The
    branches SSA and ASS compute up to two candidates; they are entered
    with exactly three parameters.) *)
Definition solved_array (t : triangleToSolve) (c : triangleCase)
  : list slot :=
  match c with
  | SSS => SSS_array (param_number (in_a t)) (param_number (in_b t))
             (param_number (in_c t)) (validated_array t)
  | ASA => ASA_array (validated_array t) (firstSide t)
  | SAS => SAS_array (validated_array t) (firstAngle t)
  | SAA => SAA_array (validated_array t) (firstSide t)
  | AAS => AAS_array (validated_array t) (firstSide t)
  | SSA | ASS => validated_array t
  end.

(** The test of the SSS branch: [valArray.some(x => !x)]. *)
Definition some_falsy (valArray : list slot) : bool :=
  existsb (fun x => negb (truthy x)) valArray.

(** ** Further vocabulary *)

(** The test [[angleA, angleB, angleC].some(x => !x)] of [solvePoints]. *)
Definition some_falsy_angle (angles : list num) : bool :=
  existsb (fun x => negb (Num.truthy x)) angles.

(** The weight of a vertex in the centroid: [(1 / 3) / barSum]. *)
Definition third : num :=
  (Fin 1 / Fin 3) / (Fin 0 + Fin 1 / Fin 3 + Fin 1 / Fin 3 + Fin 1 / Fin 3).

(** [solve({a: 1.1, b: 2.8, c: 3.9})] *)
Definition sides_11_28_39 : triangleToSolve :=
  {| in_a := Number (Fin 1.1); in_b := Number (Fin 2.8);
     in_c := Number (Fin 3.9);
     in_alpha := Undefined; in_beta := Undefined; in_gamma := Undefined;
     in_mode := None |}.

(** [solve({a: 1, b: 1, c: 2, alpha: 10, mode: "deg"})] *)
Definition degenerate_alpha_10 : triangleToSolve :=
  {| in_a := Number (Fin 1); in_b := Number (Fin 1); in_c := Number (Fin 2);
     in_alpha := Number (Fin 10); in_beta := Undefined; in_gamma := Undefined;
     in_mode := Some "deg"%string |}.

(** The properties of [order] that name an angle. *)
Definition is_angle (property : string) : bool :=
  existsb (String.eqb property) ["alpha"; "beta"; "gamma"]%string.

(** What the range checks of [addSolutionToResult] leave of a candidate,
    read on the solution made of it: no angle is [<= 0] or [>= pi] before
    its conversion to the unit of the mode, and no side is [<= 0]. *)
Definition range_checked (conv : num) (s : triangleSolution) : Prop :=
  exists alpha beta gamma : num,
    sol_alpha s = conv * alpha /\ sol_beta s = conv * beta /\
    sol_gamma s = conv * gamma /\
    angle_out alpha = false /\ angle_out beta = false /\
    angle_out gamma = false /\
    side_out (ToNumber (sol_a s)) = false /\
    side_out (ToNumber (sol_b s)) = false /\
    side_out (ToNumber (sol_c s)) = false.

Definition all_range_checked (conv : num) (r : solveResult) : Prop :=
  modeOutConv r = conv /\ forall s, In s (solutions r) -> range_checked conv s.

(** * Facts about numbers *)

Module NumFacts.

Local Open Scope R_scope.

Lemma Rleb_true x y : x <= y -> Num.Rleb x y = true.
Proof. unfold Num.Rleb; destruct (Rle_dec x y); tauto. Qed.

Lemma Rleb_false x y : ~ x <= y -> Num.Rleb x y = false.
Proof. unfold Num.Rleb; destruct (Rle_dec x y); tauto. Qed.

Lemma Rltb_true x y : x < y -> Num.Rltb x y = true.
Proof. unfold Num.Rltb; destruct (Rlt_dec x y); tauto. Qed.

Lemma Rltb_false x y : ~ x < y -> Num.Rltb x y = false.
Proof. unfold Num.Rltb; destruct (Rlt_dec x y); tauto. Qed.

Lemma Reqb_true x y : x = y -> Num.Reqb x y = true.
Proof. unfold Num.Reqb; destruct (Req_dec_T x y); tauto. Qed.

Lemma Reqb_false x y : x <> y -> Num.Reqb x y = false.
Proof. unfold Num.Reqb; destruct (Req_dec_T x y); tauto. Qed.

Lemma Rleb_spec x y : Num.Rleb x y = true <-> x <= y.
Proof. unfold Num.Rleb; destruct (Rle_dec x y); split; intros; easy. Qed.

Lemma Rltb_spec x y : Num.Rltb x y = true <-> x < y.
Proof. unfold Num.Rltb; destruct (Rlt_dec x y); split; intros; easy. Qed.

Lemma Reqb_spec x y : Num.Reqb x y = true <-> x = y.
Proof. unfold Num.Reqb; destruct (Req_dec_T x y); split; intros; easy. Qed.

Lemma Rleb_nspec x y : Num.Rleb x y = false <-> y < x.
Proof.
  unfold Num.Rleb; destruct (Rle_dec x y); split; intros; try easy; lra.
Qed.

Lemma Rltb_nspec x y : Num.Rltb x y = false <-> y <= x.
Proof.
  unfold Num.Rltb; destruct (Rlt_dec x y); split; intros; try easy; lra.
Qed.

Lemma Reqb_nspec x y : Num.Reqb x y = false <-> x <> y.
Proof. unfold Num.Reqb; destruct (Req_dec_T x y); split; intros; easy. Qed.

Lemma PI_gt_3 : 3 < PI.
Proof. pose proof PI2_3_2. lra. Qed.

(** A legal side is [+Infinity] or a positive real. *)
Lemma legal_side n :
  illegal_side n = false -> n = Inf false \/ exists r, n = Fin r /\ 0 < r.
Proof.
  unfold illegal_side; destruct n as [|[]|r]; cbn; try discriminate; auto.
  rewrite Rleb_nspec. eauto.
Qed.

(** A legal angle is a real strictly between 0 and pi. *)
Lemma legal_angle n :
  illegal_angle n = false -> exists r, n = Fin r /\ 0 < r < PI.
Proof.
  unfold illegal_angle, angleSum, Math.PI.
  destruct n as [|[]|r]; cbn; try discriminate.
  rewrite !orb_false_iff, !Rleb_nspec. intros [H1 H2]. eauto.
Qed.

Lemma legal_side_truthy n : illegal_side n = false -> Num.truthy n = true.
Proof.
  intros [->|(r & -> & Hr)]%legal_side; cbn; auto.
  now rewrite Reqb_false by lra.
Qed.

Lemma legal_angle_truthy n : illegal_angle n = false -> Num.truthy n = true.
Proof.
  intros (r & -> & Hr)%legal_angle; cbn.
  now rewrite Reqb_false by lra.
Qed.

Lemma toRad_eq : toRad = Fin (PI / 180).
Proof. unfold toRad, Math.PI; cbn. now rewrite Reqb_false by lra. Qed.

Lemma toDeg_eq : toDeg = Fin (180 / PI).
Proof.
  pose proof PI_RGT_0.
  unfold toDeg, Math.PI; cbn. now rewrite Reqb_false by lra.
Qed.

End NumFacts.

(** Deciding the comparisons of closed reals met while evaluating. *)
Ltac Rlin :=
  pose proof PI_RGT_0; pose proof PI_4; pose proof NumFacts.PI_gt_3; lra.

Ltac Rsolve :=
  pose proof PI_RGT_0; pose proof PI_4; pose proof NumFacts.PI_gt_3;
  first [lra | nra].

Ltac decide_R :=
  match goal with
  | |- context [Num.Rleb ?a ?b] =>
      first [rewrite (@NumFacts.Rleb_true a b) by Rlin
            | rewrite (@NumFacts.Rleb_false a b) by Rlin
            | rewrite (@NumFacts.Rleb_true a b) by Rsolve
            | rewrite (@NumFacts.Rleb_false a b) by Rsolve]
  | |- context [Num.Rltb ?a ?b] =>
      first [rewrite (@NumFacts.Rltb_true a b) by Rlin
            | rewrite (@NumFacts.Rltb_false a b) by Rlin
            | rewrite (@NumFacts.Rltb_true a b) by Rsolve
            | rewrite (@NumFacts.Rltb_false a b) by Rsolve]
  | |- context [Num.Reqb ?a ?b] =>
      first [rewrite (@NumFacts.Reqb_true a b) by Rlin
            | rewrite (@NumFacts.Reqb_false a b) by Rlin
            | rewrite (@NumFacts.Reqb_true a b) by Rsolve
            | rewrite (@NumFacts.Reqb_false a b) by Rsolve]
  end.

(** Evaluation proceeds from the leaves: an operation unfolds once its
    arguments are values. *)
#[local] Arguments Pos.to_nat !x /.
Arguments Num.add !x !y /.
Arguments Num.sub !x !y /.
Arguments Num.mul !x !y /.
Arguments Num.div !x !y /.
Arguments Num.sq !x /.
Arguments Num.le !x !y /.
Arguments Num.lt !x !y /.
Arguments Num.ge !x !y /.
Arguments Num.gt !x !y /.
Arguments Num.eq !x !y /.
Arguments Num.isNaN !x /.
Arguments Num.truthy !x /.
Arguments Math.sin !x /.
Arguments Math.cos !x /.
Arguments Math.asin !x /.
Arguments Math.acos !x /.
Arguments Math.sqrt !x /.
Arguments Math.abs !x /.
Arguments Math.hypot !x !y /.
Arguments ToNumber !x /.
Arguments truthy !x /.
Arguments m6 !k /.
Arguments get !valArray !i /.
Arguments put !valArray !i x /.
Arguments illegal_side !num /.
Arguments illegal_angle !num /.

Create HintDb js discriminated.
#[global] Hint Unfold solve_SSS solve_ASA solve_SAS solve_SAA solve_AAS
  solve_SSA solve_ASS addSolutionToResult angle_out_of_range
  side_out_of_range angle_out side_out equalFloat incircleRadius tolerance conflicting
  calculatedValue modeOutConv modeInConv mode_of angleSum Math.PI
  initial_result analyse dispatch solve : js.

Ltac js_eval :=
  repeat first [progress cbn | decide_R | progress autounfold with js].

(** * The shape of a run of [solve] *)

Arguments solve_SSS : simpl never.
Arguments solve_ASA : simpl never.
Arguments solve_SAS : simpl never.
Arguments solve_SAA : simpl never.
Arguments solve_AAS : simpl never.
Arguments solve_SSA : simpl never.
Arguments solve_ASS : simpl never.
Arguments initial_result : simpl never.
Arguments set_error : simpl never.

Lemma kept_number p n : kept p = Some n -> param_number p = n.
Proof. destruct p; cbn; congruence. Qed.

Lemma mode_cases (mode : string) :
  negb (String.eqb mode "deg") && negb (String.eqb mode "rad") = false ->
  mode = "deg"%string \/ mode = "rad"%string.
Proof.
  destruct (String.eqb_spec mode "deg"); auto.
  destruct (String.eqb_spec mode "rad"); auto. discriminate.
Qed.

(** Case analysis on a run of [solve]: it ends in an error set on the
    initial result, or in one of the seven branches, entered with a
    validated value array whose slots used by the branch are given. *)
Section SolveCases.

Variable t : triangleToSolve.
Variable P : solveResult -> Prop.

Let mode := mode_of t.
Let r0 := initial_result t mode.

Hypothesis Herror : forall e, P (set_error r0 e).

Hypothesis HSSS : forall v pc a b c,
  mode = "deg"%string \/ mode = "rad"%string ->
  validated v -> get v 0 = Some a -> get v 2 = Some b -> get v 4 = Some c ->
  (3 <= pc)%Z -> P (solve_SSS a b c v r0 pc).

Hypothesis HASA : forall v fs pc s A B,
  mode = "deg"%string \/ mode = "rad"%string ->
  validated v -> In fs [0; 2; 4]%Z -> get v fs = Some s ->
  get v (m6 (fs + 5)) = Some A -> get v (m6 (fs + 1)) = Some B ->
  (3 <= pc)%Z -> P (solve_ASA v r0 fs pc).

Hypothesis HSAS : forall v fa pc angle side1 side2,
  mode = "deg"%string \/ mode = "rad"%string ->
  validated v -> In fa [1; 3; 5]%Z -> get v fa = Some angle ->
  get v (m6 (fa + 5)) = Some side1 -> get v (m6 (fa + 1)) = Some side2 ->
  (3 <= pc)%Z -> P (solve_SAS v r0 fa pc).

Hypothesis HSAA : forall v fs pc s A B,
  mode = "deg"%string \/ mode = "rad"%string ->
  validated v -> In fs [0; 2; 4]%Z -> get v fs = Some s ->
  get v (m6 (fs + 1)) = Some A -> get v (m6 (fs + 3)) = Some B ->
  (3 <= pc)%Z -> P (solve_SAA v r0 fs pc).

Hypothesis HAAS : forall v fs pc s A B,
  mode = "deg"%string \/ mode = "rad"%string ->
  validated v -> In fs [0; 2; 4]%Z -> get v fs = Some s ->
  get v (m6 (fs + 5)) = Some A -> get v (m6 (fs + 3)) = Some B ->
  (3 <= pc)%Z -> P (solve_AAS v r0 fs pc).

Hypothesis HSSA : forall v fa angle s1 s2,
  mode = "deg"%string \/ mode = "rad"%string ->
  validated v -> In fa [1; 3; 5]%Z -> get v fa = Some angle ->
  get v (m6 (fa + 3)) = Some s1 -> get v (m6 (fa + 5)) = Some s2 ->
  P (solve_SSA v r0 fa 3).

Hypothesis HASS : forall v fa angle s1 s2,
  mode = "deg"%string \/ mode = "rad"%string ->
  validated v -> In fa [1; 3; 5]%Z -> get v fa = Some angle ->
  get v (m6 (fa + 3)) = Some s1 -> get v (m6 (fa + 1)) = Some s2 ->
  P (solve_ASS v r0 fa 3).

Ltac slot_facts :=
  repeat match goal with
  | H : illegal_side ?n = false |- _ =>
      lazymatch goal with
      | _ : Num.truthy n = true |- _ => fail
      | _ => pose proof (NumFacts.legal_side_truthy _ H)
      end
  | H : illegal_angle ?n = false |- _ =>
      lazymatch goal with
      | _ : Num.truthy n = true |- _ => fail
      | _ => pose proof (NumFacts.legal_angle_truthy _ H)
      end
  end.

Ltac use_truthy :=
  repeat match goal with
  | H : Num.truthy ?n = true |- context [Num.truthy ?n] => rewrite H
  end.

Ltac close_case :=
  lazymatch goal with
  | |- P (set_error _ _) => apply Herror
  | |- P (solve_SSS _ _ _ _ _ _) =>
      eapply HSSS; [now apply mode_cases | constructor; cbn; auto | reflexivity .. | lia]
  | |- P (solve_ASA _ _ _ _) =>
      eapply HASA; [now apply mode_cases | constructor; cbn; auto | cbn; auto | reflexivity .. | lia]
  | |- P (solve_SAS _ _ _ _) =>
      eapply HSAS; [now apply mode_cases | constructor; cbn; auto | cbn; auto | reflexivity .. | lia]
  | |- P (solve_SAA _ _ _ _) =>
      eapply HSAA; [now apply mode_cases | constructor; cbn; auto | cbn; auto | reflexivity .. | lia]
  | |- P (solve_AAS _ _ _ _) =>
      eapply HAAS; [now apply mode_cases | constructor; cbn; auto | cbn; auto | reflexivity .. | lia]
  | |- P (solve_SSA _ _ _ _) =>
      eapply HSSA; [now apply mode_cases | constructor; cbn; auto | cbn; auto | reflexivity ..]
  | |- P (solve_ASS _ _ _ _) =>
      eapply HASS; [now apply mode_cases | constructor; cbn; auto | cbn; auto | reflexivity ..]
  end.

Lemma sides_loop_spec x0 x1 x2 x3 x4 x5 :
  match sides_loop [0; 2; 4]%Z [x0; x1; x2; x3; x4; x5] (-1) 0 with
  | inl _ => True
  | inr (v, fs, sc) =>
      v = [x0; x1; x2; x3; x4; x5] /\
      side_slot x0 /\ side_slot x2 /\ side_slot x4 /\
      fs = first_given 0 2 4 x0 x2 x4 /\
      sc = (given x0 + given x2 + given x4)%Z
  end.
Proof.
  destruct x0 as [n0|], x2 as [n2|], x4 as [n4|];
    cbv -[illegal_side Num.isNaN Num.le];
    repeat match goal with
    | |- context [illegal_side ?n] => destruct (illegal_side n) eqn:?
    end; auto 10.
Qed.

Lemma angles_loop_spec conv x0 x1 x2 x3 x4 x5 :
  match angles_loop conv [1; 3; 5]%Z [x0; x1; x2; x3; x4; x5] (-1) 0 with
  | inl _ => True
  | inr (v, fa, ac) =>
      v = [x0; scaled conv x1; x2; scaled conv x3; x4; scaled conv x5] /\
      angle_slot (scaled conv x1) /\ angle_slot (scaled conv x3) /\
      angle_slot (scaled conv x5) /\
      fa = first_given 1 3 5 x1 x3 x5 /\
      ac = (given x1 + given x3 + given x5)%Z
  end.
Proof.
  destruct x1 as [n1|], x3 as [n3|], x5 as [n5|];
    cbv -[illegal_angle Num.mul Num.isNaN Num.le Num.ge];
    repeat match goal with
    | |- context [illegal_angle ?n] => destruct (illegal_angle n) eqn:?
    end; auto 10.
Qed.

Theorem solve_cases : P (solve t).
Proof.
  unfold solve. fold mode. fold r0.
  destruct (negb (String.eqb mode "deg") && negb (String.eqb mode "rad"))
    eqn:Hmode; [apply Herror|].
  generalize (modeInConv mode); intros conv.
  assert (Ha := @kept_number (in_a t)).
  assert (Hb := @kept_number (in_b t)).
  assert (Hc := @kept_number (in_c t)).
  generalize (param_number (in_a t)) (param_number (in_b t))
    (param_number (in_c t)) Ha Hb Hc.
  clear Ha Hb Hc. intros a b c Ha Hb Hc.
  change (res_a r0) with (kept (in_a t)) in *.
  change (res_b r0) with (kept (in_b t)) in *.
  change (res_c r0) with (kept (in_c t)) in *.
  change (res_alpha r0) with (kept (in_alpha t)) in *.
  change (res_beta r0) with (kept (in_beta t)) in *.
  change (res_gamma r0) with (kept (in_gamma t)) in *.
  revert Ha Hb Hc.
  generalize (kept (in_a t)) (kept (in_gamma t)) (kept (in_b t))
    (kept (in_alpha t)) (kept (in_c t)) (kept (in_beta t)).
  intros xa xg xb xal xc xbe Ha Hb Hc.
  unfold analyse.
  pose proof (sides_loop_spec xa xg xb xal xc xbe) as Hs.
  destruct (sides_loop _ _ _ _) as [e|[[v fs] sc]]; [apply Herror|].
  destruct Hs as (-> & Sa & Sb & Sc & -> & ->).
  pose proof (angles_loop_spec conv xa xg xb xal xc xbe) as Hs.
  destruct (angles_loop _ _ _ _ _) as [e|[[v fa] ac]]; [apply Herror|].
  destruct Hs as (-> & Sg & Sal & Sbe & -> & ->).
  destruct xa as [na|], xg as [ng|], xb as [nb|], xal as [nal|],
    xc as [nc|], xbe as [nbe|].
  all: cbn [scaled] in *; cbn [side_slot angle_slot] in *.
  all: try (rewrite (Ha _ eq_refl)); try (rewrite (Hb _ eq_refl));
    try (rewrite (Hc _ eq_refl)); clear Ha Hb Hc.
  all: slot_facts.
  all: cbv -[solve_SSS solve_ASA solve_SAS solve_SAA solve_AAS solve_SSA
          solve_ASS Num.truthy Num.mul r0 set_error].
  all: use_truthy; cbv beta iota.
  all: close_case.
Qed.

End SolveCases.

(** * Facts about addSolutionToResult *)

Lemma solutions_set_error r e : solutions (set_error r e) = solutions r.
Proof. reflexivity. Qed.

Lemma error_set_error r e : res_error (set_error r e) = Some e.
Proof. reflexivity. Qed.

(** A call either sets an error and keeps the solutions, or appends the
    solution made of the value array and keeps the error field. *)
Lemma addSolutionToResult_shape v r pc :
  (exists e, addSolutionToResult v r pc = set_error r e) \/
  (addSolutionToResult v r pc = push r (make_solution (modeOutConv r) v) /\
   angle_out_of_range v = false /\ side_out_of_range v = false).
Proof.
  unfold addSolutionToResult.
  destruct (if (3 <? pc)%Z then _ else _); eauto.
  destruct (angle_out_of_range v); eauto.
  destruct (side_out_of_range v); eauto.
Qed.

(** With three parameters there is no conflict check. *)
Lemma addSolutionToResult_3 v r :
  addSolutionToResult v r 3 =
  if angle_out_of_range v || side_out_of_range v
  then set_error r NoSolution
  else push r (make_solution (modeOutConv r) v).
Proof.
  unfold addSolutionToResult.
  change (3 <? 3)%Z with false; cbv beta iota.
  destruct (angle_out_of_range v); reflexivity.
Qed.

Lemma addSolutionToResult_reports v r pc :
  solutions (addSolutionToResult v r pc) <> [] \/
  res_error (addSolutionToResult v r pc) <> None.
Proof.
  destruct (addSolutionToResult_shape v r pc) as [[e ->]|[-> _]].
  - right. discriminate.
  - left. cbn. destruct (solutions r); discriminate.
Qed.

(** * C10: a result is never silent *)

(** C10.  For every input, the result of [solve] has a non-empty
    [solutions] array or an error: after validation the chain of cases
    always commits to one of the seven branches (the final [return result]
    is never reached with both fields empty), and every branch ends by
    setting an error or by calling [addSolutionToResult], which appends or
    sets an error. *)
Theorem solve_reports (t : triangleToSolve) :
  solutions (solve t) <> [] \/ res_error (solve t) <> None.
Proof.
  apply solve_cases; intros.
  - right; discriminate.
  - unfold solve_SSS. destruct (existsb _ _).
    + right; discriminate.
    + apply addSolutionToResult_reports.
  - apply addSolutionToResult_reports.
  - apply addSolutionToResult_reports.
  - apply addSolutionToResult_reports.
  - apply addSolutionToResult_reports.
  - unfold solve_SSA.
    destruct (_ >? _). { right; discriminate. }
    destruct (_ >=? _); apply addSolutionToResult_reports.
  - unfold solve_ASS.
    destruct (_ >? _). { right; discriminate. }
    destruct (_ >=? _); apply addSolutionToResult_reports.
Qed.

(** * C8: exceptions *)

(** C8.  [solvePoints] throws a [TypeError] when its first point is
    [null]: [checkCoordinate] lets [null] pass its [typeof] test and calls
    [Object.hasOwn] on it.  No result object is returned. *)
Theorem solvePoints_null_throws (B C : jsval) (mode : option string) :
  solvePoints JNull B C mode = Throw TypeError.
Proof. reflexivity. Qed.

(** The error path of the first loop throws as well when the point is
    [undefined], and [distance] throws on an object without coordinates. *)
Lemma solvePoints_undefined_throws (B C : jsval) (mode : option string) :
  solvePoints JUndefined B C mode = Throw TypeError.
Proof. reflexivity. Qed.

Lemma distance_empty_object_throws :
  distance (JObject []) (JArray [JNumber (Fin 0); JNumber (Fin 0)])
  = Throw TypeError.
Proof. reflexivity. Qed.

(** * C5 and C6: candidates and solutions holding NaN *)

(** C6.  A candidate whose angle and side slots hold [NaN] passes both
    range checks of [addSolutionToResult] and is appended as a solution:
    every comparison with [NaN] is false. *)
Theorem nan_candidate_appended (r : solveResult) :
  addSolutionToResult nan_candidate r 3
  = push r (make_solution (modeOutConv r) nan_candidate).
Proof.
  rewrite addSolutionToResult_3. unfold nan_candidate.
  unfold angle_out_of_range, side_out_of_range, angle_out, side_out,
    angleSum, Math.PI.
  cbn. repeat decide_R. reflexivity.
Qed.

(** C5.  [solve({a: Infinity, b: Infinity, alpha: 30})] returns one
    solution and no error; its side [c] and its angles [beta] and [gamma]
    are [NaN], so the side is not positive and the angles do not sum to
    180. *)
Theorem infinite_sides_solution :
  exists s,
    solutions (solve infinite_sides_input) = [s] /\
    res_error (solve infinite_sides_input) = None /\
    sol_c s = Some NaN /\
    (sol_alpha s + sol_beta s + sol_gamma s)%num = NaN /\
    (ToNumber (sol_c s) >? Fin 0) = false.
Proof.
  eexists. unfold infinite_sides_input.
  js_eval. repeat split.
Qed.

(** * Accepted inputs *)

Lemma analyse_legal conv x0 x1 x2 x3 x4 x5 :
  side_slot x0 -> side_slot x2 -> side_slot x4 ->
  angle_slot (scaled conv x1) -> angle_slot (scaled conv x3) ->
  angle_slot (scaled conv x5) ->
  analyse conv [x0; x1; x2; x3; x4; x5] =
  inr ([x0; scaled conv x1; x2; scaled conv x3; x4; scaled conv x5],
       first_given 0 2 4 x0 x2 x4, first_given 1 3 5 x1 x3 x5,
       (given x0 + given x2 + given x4)%Z,
       (given x1 + given x3 + given x5)%Z).
Proof.
  destruct x0 as [n0|], x1 as [n1|], x2 as [n2|], x3 as [n3|],
    x4 as [n4|], x5 as [n5|]; cbn [side_slot angle_slot scaled]; intros;
    cbv -[illegal_side illegal_angle Num.mul];
    repeat match goal with
    | H : illegal_side _ = false |- _ => rewrite H; clear H
    | H : illegal_angle _ = false |- _ => rewrite H; clear H
    end; reflexivity.
Qed.

Lemma solve_accepted t :
  accepted t ->
  solve t =
  dispatch (param_number (in_a t)) (param_number (in_b t))
    (param_number (in_c t)) (validated_array t)
    (initial_result t (mode_of t))
    (firstSide t) (firstAngle t) (sideCount t) (angleCount t).
Proof.
  intros (Hm & Ha & Hb & Hc & Hal & Hbe & Hga).
  unfold solve.
  replace (negb (String.eqb (mode_of t) "deg")
           && negb (String.eqb (mode_of t) "rad")) with false
    by (destruct Hm as [-> | ->]; reflexivity).
  cbv zeta.
  change (res_a (initial_result t (mode_of t))) with (kept (in_a t)).
  change (res_b (initial_result t (mode_of t))) with (kept (in_b t)).
  change (res_c (initial_result t (mode_of t))) with (kept (in_c t)).
  change (res_alpha (initial_result t (mode_of t))) with (kept (in_alpha t)).
  change (res_beta (initial_result t (mode_of t))) with (kept (in_beta t)).
  change (res_gamma (initial_result t (mode_of t))) with (kept (in_gamma t)).
  rewrite analyse_legal by assumption. reflexivity.
Qed.

(** * Impossible side lengths *)

Module SSSFacts.

Local Open Scope R_scope.

Lemma acos_falsy r : 1 <= r -> Num.truthy (Math.acos (Fin r)) = false.
Proof.
  intros Hr. unfold Math.acos.
  rewrite (@NumFacts.Rltb_false r (-1)) by lra. cbn [orb].
  destruct (Num.Rltb 1 r) eqn:E; [reflexivity|].
  apply NumFacts.Rltb_nspec in E.
  replace r with 1 by lra. rewrite acos_1. cbn.
  now rewrite NumFacts.Reqb_true.
Qed.

Lemma one_le_div n d : 0 < d -> d <= n -> 1 <= n / d.
Proof.
  intros Hd Hn. apply (Rmult_le_reg_r d); [assumption|].
  unfold Rdiv. rewrite Rmult_assoc, Rinv_l by lra. lra.
Qed.

(** With sides that violate the triangle inequality or are degenerate,
    one of the two ratios handed to [Math.acos] is at least 1. *)
Lemma ratio_ge_1 a b c :
  0 < a -> 0 < b -> 0 < c ->
  a >= b + c \/ b >= a + c \/ c >= a + b ->
  1 <= (b * b + c * c - a * a) / (2 * b * c) \/
  1 <= (a * a + c * c - b * b) / (2 * a * c).
Proof.
  intros Ha Hb Hc H.
  assert (Hbc : 0 < 2 * b * c) by nra.
  assert (Hac : 0 < 2 * a * c) by nra.
  destruct H as [H|[H|H]]; [right|left|left];
    apply one_le_div; try assumption; nra.
Qed.

End SSSFacts.

Lemma given_nonneg x : (0 <= given x)%Z.
Proof. destruct x; cbn; lia. Qed.

Lemma dispatch_SSS a b c v r fs fa ac :
  (0 <= ac)%Z ->
  dispatch a b c v r fs fa 3 ac = solve_SSS a b c v r (ac + 3).
Proof.
  intros Hac. unfold dispatch.
  destruct (Z.ltb_spec (ac + 3) 3); [lia|]. reflexivity.
Qed.

(** The SSS branch stops with its error as soon as one of the two angles
    it computes with [Math.acos] is falsy. *)
Lemma solve_SSS_falsy a b c x0 x1 x2 x3 x4 x5 r pc :
  Num.truthy (Math.acos ((Num.sq b + Num.sq c - Num.sq a) / (Fin 2 * b * c)))
    = false \/
  Num.truthy (Math.acos ((Num.sq a + Num.sq c - Num.sq b) / (Fin 2 * a * c)))
    = false ->
  solve_SSS a b c [x0; x1; x2; x3; x4; x5] r pc
  = set_error r (ImpossibleSides a b c).
Proof.
  intros H. unfold solve_SSS.
  cbn [put replace_nth Z.to_nat Pos.to_nat Pos.iter_op Nat.add existsb].
  cbn [truthy].
  destruct H as [-> | ->]; cbn [negb]; now rewrite ?orb_true_r.
Qed.

(** With exact arithmetic: when all three sides are given (so [solve]
    takes the SSS branch) and the lengths violate the triangle inequality
    or are degenerate, the result has no solution and the error
    "Impossible combination of side lengths" listing the three given
    lengths.  (The ratios of the law of cosines are then at least 1; a
    ratio that is rounded may fall short of 1.) *)
Lemma impossible_sides_rejected (t : triangleToSolve) (a b c : R) :
  accepted t ->
  in_a t = Number (Fin a) -> in_b t = Number (Fin b) ->
  in_c t = Number (Fin c) ->
  (a >= b + c \/ b >= a + c \/ c >= a + b)%R ->
  solutions (solve t) = [] /\
  res_error (solve t) = Some (ImpossibleSides (Fin a) (Fin b) (Fin c)).
Proof.
  intros Hacc Ea Eb Ec Hviol.
  rewrite (solve_accepted Hacc).
  destruct Hacc as (_ & Ha & Hb & Hc & _).
  unfold validated_array, firstSide, firstAngle, sideCount, angleCount.
  rewrite Ea, Eb, Ec in *. cbn [kept side_slot] in *.
  apply NumFacts.legal_side in Ha, Hb, Hc.
  destruct Ha as [Ha|(? & [= <-] & Ha)]; [discriminate|].
  destruct Hb as [Hb|(? & [= <-] & Hb)]; [discriminate|].
  destruct Hc as [Hc|(? & [= <-] & Hc)]; [discriminate|].
  cbn [given Z.add Pos.add Pos.succ param_number].
  rewrite dispatch_SSS
    by (pose proof (given_nonneg (kept (in_gamma t)));
        pose proof (given_nonneg (kept (in_alpha t)));
        pose proof (given_nonneg (kept (in_beta t))); lia).
  rewrite solve_SSS_falsy; [split; reflexivity|].
  cbn [Num.sq Num.mul Num.add Num.sub].
  unfold Num.div.
  rewrite (@NumFacts.Reqb_false (2 * b * c)%R 0%R) by nra.
  rewrite (@NumFacts.Reqb_false (2 * a * c)%R 0%R) by nra.
  destruct (SSSFacts.ratio_ge_1 Ha Hb Hc Hviol) as [Hr|Hr];
    apply SSSFacts.acos_falsy in Hr; auto.
Qed.

(** [solve({a: 1, b: 2, c: 10})] *)
Lemma sides_1_2_10_rejected :
  solutions (solve sides_1_2_10) = [] /\
  res_error (solve sides_1_2_10)
  = Some (ImpossibleSides (Fin 1) (Fin 2) (Fin 10)).
Proof.
  apply (@impossible_sides_rejected sides_1_2_10 1 2 10);
    try reflexivity.
  - unfold accepted; cbn. repeat decide_R. auto 10.
  - right. right. lra.
Qed.

(** Evaluation restricted to numbers, slots and indices. *)
Ltac m6_eval :=
  repeat match goal with
  | |- context [m6 ?k] =>
      let v := eval vm_compute in (m6 k) in change (m6 k) with v
  end.

Ltac num_cbn :=
  cbn [Num.add Num.sub Num.mul Num.div Num.sq Num.le Num.lt Num.ge Num.gt
       Num.eq Num.isNaN Num.truthy Math.sin Math.cos Math.asin Math.acos
       Math.sqrt Math.abs Math.hypot ToNumber truthy get put replace_nth nth
       Z.to_nat Pos.to_nat Pos.iter_op Nat.add Z.ltb Z.compare negb orb andb
       existsb Z.of_nat Pos.of_succ_nat Pos.succ Nat.odd Nat.even].

Ltac num_eval :=
  unfold angleSum, Math.PI; m6_eval;
  repeat first [progress num_cbn | decide_R].

(** * The conflict loop *)

Lemma conflict_loop_first conv v r i :
  forall idxs pre,
  idxs = pre ++ i :: nil \/ (exists post, idxs = pre ++ i :: post) ->
  (forall j, In j pre -> conflicting conv v r j = false) ->
  conflicting conv v r i = true ->
  conflict_loop idxs conv v r =
  Some (InputConflict (nth i order ""%string)
          (ToNumber (prop r (nth i order ""%string)))
          (calculatedValue conv v i)).
Proof.
  intros idxs pre Hidx. assert (exists post, idxs = pre ++ i :: post) as
    [post ->] by (destruct Hidx as [->|]; eauto). clear Hidx.
  induction pre as [|j pre IH]; intros Hpre Hi; cbn [app conflict_loop].
  - now rewrite Hi.
  - rewrite (Hpre j) by now left. apply IH; auto. intros; apply Hpre; now right.
Qed.

(** On finite numbers [equalFloat] is the comparison of the absolute
    difference with the tolerance. *)
Lemma equalFloat_finite x y :
  equalFloat (Fin x) (Fin y) tolerance = true <-> (Rabs (x - y) <= 1 / 1000)%R.
Proof. unfold equalFloat, tolerance; cbn. apply NumFacts.Rleb_spec. Qed.

Lemma acos_half : acos (1 / 2) = (PI / 3)%R.
Proof.
  rewrite <- cos_PI3. apply acos_cos. Rlin.
Qed.

(** * The ambiguous case: real analysis *)

Module AmbiguousFacts.

Local Open Scope R_scope.

Lemma asin_lt x y : -1 <= x -> x < y -> y <= 1 -> asin x < asin y.
Proof.
  intros Hx Hxy Hy.
  destruct (Rlt_le_dec (asin x) (asin y)) as [H|H]; [assumption|exfalso].
  pose proof (asin_bound x). pose proof (asin_bound y).
  assert (sin (asin y) <= sin (asin x)) by (apply sin_incr_1; lra).
  rewrite !sin_asin in * by lra. lra.
Qed.

Lemma asin_pos d : 0 < d -> d <= 1 -> 0 < asin d <= PI / 2.
Proof.
  intros H0 H1. pose proof (asin_bound d).
  rewrite <- asin_0 at 1. split; [apply asin_lt; lra | lra].
Qed.

(** With [r1 < r2] and [D <= 1] the known angle is not a right angle, and
    [asin D] exceeds the acute one of [angle] and [pi - angle]. *)
Lemma mystery_angle t r1 r2 :
  0 < t < PI -> 0 < r1 -> r1 < r2 -> r2 / r1 * sin t <= 1 ->
  (t < PI / 2 /\ t < asin (r2 / r1 * sin t) <= PI / 2) \/
  (PI / 2 < t /\ PI - t < asin (r2 / r1 * sin t) <= PI / 2).
Proof.
  intros Ht Hr1 Hr2 Hd.
  assert (Hs : 0 < sin t) by (apply sin_gt_0; lra).
  assert (Hq : 1 < r2 / r1).
  { apply (Rmult_lt_reg_r r1); [assumption|].
    unfold Rdiv. rewrite Rmult_assoc, Rinv_l by lra. lra. }
  assert (Hlt : sin t < r2 / r1 * sin t).
  { rewrite <- (Rmult_1_l (sin t)) at 1.
    apply Rmult_lt_compat_r; assumption. }
  pose proof (asin_bound (r2 / r1 * sin t)) as Hb.
  assert (Hm : asin (sin t) < asin (r2 / r1 * sin t)) by (apply asin_lt; lra).
  destruct (Rle_lt_dec t (PI / 2)) as [Hle|Hgt].
  - left. rewrite asin_sin in Hm by lra.
    assert (t <> PI / 2) by (intros ->; rewrite sin_PI2 in *; lra).
    lra.
  - right.
    assert (E : asin (sin t) = PI - t)
      by (rewrite <- sin_PI_x; apply asin_sin; lra).
    rewrite E in Hm. lra.
Qed.

Lemma side_pos r s st : 0 < r -> 0 < st -> 0 < s -> 0 < r * (s / st).
Proof.
  intros. apply Rmult_lt_0_compat; [|apply Rdiv_lt_0_compat]; assumption.
Qed.

Lemma side_neg r s st : 0 < r -> 0 < st -> s < 0 -> r * (s / st) < 0.
Proof.
  intros Hr Hst Hs. pose proof (@side_pos r (- s) st Hr Hst ltac:(lra)) as H.
  unfold Rdiv in *. lra.
Qed.

(** With [r2 <= r1] and [D < 1], [asin D] stays below the acute one of
    [angle] and [pi - angle], strictly when [r2 < r1]. *)
Lemma single_angle t r1 r2 :
  0 < t < PI -> 0 < r2 -> r2 <= r1 ->
  0 < asin (r2 / r1 * sin t) /\
  (t <= PI / 2 -> asin (r2 / r1 * sin t) <= t) /\
  (PI / 2 <= t -> asin (r2 / r1 * sin t) <= PI - t) /\
  (r2 < r1 -> t <= PI / 2 -> asin (r2 / r1 * sin t) < t) /\
  (r2 < r1 -> PI / 2 <= t -> asin (r2 / r1 * sin t) < PI - t) /\
  (r2 = r1 -> t <= PI / 2 -> asin (r2 / r1 * sin t) = t) /\
  (r2 = r1 -> PI / 2 <= t -> asin (r2 / r1 * sin t) = PI - t).
Proof.
  intros Ht Hr2 Hr.
  assert (Hs : 0 < sin t) by (apply sin_gt_0; lra).
  pose proof (SIN_bound t) as [_ Hs1].
  assert (Hq : 0 < r2 / r1 <= 1).
  { split; [apply Rdiv_lt_0_compat; lra|].
    apply (Rmult_le_reg_r r1); [lra|].
    unfold Rdiv. rewrite Rmult_assoc, Rinv_l by lra. lra. }
  assert (Hd0 : 0 < r2 / r1 * sin t) by (apply Rmult_lt_0_compat; lra).
  assert (Hle : r2 / r1 * sin t <= sin t).
  { rewrite <- (Rmult_1_l (sin t)) at 2.
    apply Rmult_le_compat_r; lra. }
  assert (Hlt : r2 < r1 -> r2 / r1 * sin t < sin t).
  { intros H. rewrite <- (Rmult_1_l (sin t)) at 2.
    apply Rmult_lt_compat_r; [lra|].
    apply (Rmult_lt_reg_r r1); [lra|].
    unfold Rdiv. rewrite Rmult_assoc, Rinv_l by lra. lra. }
  assert (Heq : r2 = r1 -> r2 / r1 * sin t = sin t).
  { intros ->. unfold Rdiv. rewrite Rinv_r by lra. lra. }
  assert (Ea : t <= PI / 2 -> asin (sin t) = t) by (intros; apply asin_sin; lra).
  assert (Eo : PI / 2 <= t -> asin (sin t) = PI - t)
    by (intros; rewrite <- sin_PI_x; apply asin_sin; lra).
  assert (Hmono : asin (r2 / r1 * sin t) <= asin (sin t)).
  { destruct (Rle_lt_or_eq_dec _ _ Hle) as [H|H].
    - left. apply asin_lt; lra.
    - right. now rewrite H. }
  repeat split.
  - apply asin_pos; lra.
  - intros H. rewrite <- (Ea H) at 2. assumption.
  - intros H. rewrite <- (Eo H). assumption.
  - intros H1 H2. rewrite <- (Ea H2) at 2. apply asin_lt; auto; lra.
  - intros H1 H2. rewrite <- (Eo H2). apply asin_lt; auto; lra.
  - intros H1 H2. now rewrite (Heq H1), (Ea H2).
  - intros H1 H2. now rewrite (Heq H1), (Eo H2).
Qed.

End AmbiguousFacts.

Lemma angle_out_Fin z :
  angle_out (Fin z) = Num.Rleb z 0 || Num.Rleb PI z.
Proof. reflexivity. Qed.

Lemma side_out_Fin z : side_out (Fin z) = Num.Rleb z 0.
Proof. reflexivity. Qed.

(** In the two-candidate branch the two candidates stand or fall
    together: the mystery angle and its supplement are in range, and the
    remaining angle and the missing side of the one are in range exactly
    when those of the other are. *)
Lemma two_candidates angle s1 s2 :
  illegal_angle angle = false -> illegal_side s1 = false ->
  illegal_side s2 = false ->
  ((s2 / s1) * Math.sin angle >? Fin 1) = false ->
  (s1 >=? s2) = false ->
  angle_out (Math.asin ((s2 / s1) * Math.sin angle)) = false /\
  angle_out (angleSum - Math.asin ((s2 / s1) * Math.sin angle)) = false /\
  angle_out (angleSum - angle
             - (angleSum - Math.asin ((s2 / s1) * Math.sin angle)))
  = angle_out (angleSum - angle - Math.asin ((s2 / s1) * Math.sin angle)) /\
  side_out (s1 * (Math.sin (angleSum - angle
                            - (angleSum
                               - Math.asin ((s2 / s1) * Math.sin angle)))
                  / Math.sin angle))
  = side_out (s1 * (Math.sin (angleSum - angle
                              - Math.asin ((s2 / s1) * Math.sin angle))
                    / Math.sin angle)) /\
  angle_out (angleSum - angle - Math.asin ((s2 / s1) * Math.sin angle))
  = negb (angle <? Math.PI / Fin 2) /\
  side_out (s1 * (Math.sin (angleSum - angle
                            - Math.asin ((s2 / s1) * Math.sin angle))
                  / Math.sin angle))
  = negb (angle <? Math.PI / Fin 2).
Proof.
  intros (t & -> & Ht)%NumFacts.legal_angle Hs1 Hs2.
  assert (Hsin : (0 < sin t)%R) by (apply sin_gt_0; lra).
  apply NumFacts.legal_side in Hs1, Hs2.
  destruct Hs1 as [-> | (r1 & -> & Hr1)], Hs2 as [-> | (r2 & -> & Hr2)].
  - intros _. cbn. discriminate.
  - intros _. cbn. discriminate.
  - cbn. rewrite (@NumFacts.Reqb_false (sin t) 0%R) by lra.
    rewrite (@NumFacts.Rltb_false r1 0%R) by lra.
    rewrite (@NumFacts.Rltb_false (sin t) 0%R) by lra. cbn. discriminate.
  - unfold angleSum, Math.PI. cbn [Num.div Math.sin].
    rewrite (@NumFacts.Reqb_false r1 0%R) by lra.
    cbn [Num.mul Num.gt Num.lt Num.ge Num.le].
    rewrite NumFacts.Rltb_nspec, NumFacts.Rleb_nspec. intros Hd Hlt.
    assert (Hd0 : (0 < r2 / r1 * sin t)%R)
      by (apply Rmult_lt_0_compat; [apply Rdiv_lt_0_compat|]; lra).
    destruct (AmbiguousFacts.mystery_angle Ht Hr1 Hlt Hd) as [[H1 H2]|[H1 H2]].
    all: unfold Math.asin.
    all: rewrite (@NumFacts.Rltb_false _ (-1)%R) by lra.
    all: rewrite (@NumFacts.Rltb_false 1%R) by lra.
    all: cbn [orb Num.sub Math.sin Num.div].
    all: rewrite (@NumFacts.Reqb_false (sin t) 0%R) by lra.
    all: rewrite (@NumFacts.Reqb_false 2%R 0%R) by lra.
    all: cbn [Num.mul Num.lt]; rewrite !angle_out_Fin, !side_out_Fin.
    all: set (m := asin (r2 / r1 * sin t)) in *.
    + assert (0 < sin (PI - t - (PI - m)))%R by (apply sin_gt_0; lra).
      assert (0 < sin (PI - t - m))%R by (apply sin_gt_0; lra).
      pose proof (@AmbiguousFacts.side_pos r1 _ (sin t) Hr1 Hsin H).
      pose proof (@AmbiguousFacts.side_pos r1 _ (sin t) Hr1 Hsin H0).
      repeat decide_R. auto 10.
    + assert (sin (PI - t - (PI - m)) < 0)%R by (apply sin_lt_0_var; lra).
      assert (sin (PI - t - m) < 0)%R by (apply sin_lt_0_var; lra).
      pose proof (@AmbiguousFacts.side_neg r1 _ (sin t) Hr1 Hsin H).
      pose proof (@AmbiguousFacts.side_neg r1 _ (sin t) Hr1 Hsin H0).
      repeat decide_R. auto 10.
Qed.

Lemma PI_half : Math.PI / Fin 2 = Fin (PI / 2).
Proof. unfold Math.PI; cbn. now rewrite NumFacts.Reqb_false by lra. Qed.

(** In the single-candidate branch with finite sides the candidate is in
    range exactly when [s2 < s1] or the known angle is acute. *)
Lemma single_candidate angle r1 r2 :
  illegal_angle angle = false -> (0 < r1)%R -> (0 < r2)%R ->
  ((Fin r2 / Fin r1) * Math.sin angle >? Fin 1) = false ->
  (Fin r1 >=? Fin r2) = true ->
  forall u,
  u = (if (Fin r2 / Fin r1) * Math.sin angle ==? Fin 1
       then Math.PI / Fin 2
       else Math.asin ((Fin r2 / Fin r1) * Math.sin angle)) ->
  angle_out u = false /\
  angle_out (angleSum - angle - u)
  = negb ((Fin r2 <? Fin r1) || (angle <? Math.PI / Fin 2)) /\
  side_out (Fin r1 * (Math.sin (angleSum - angle - u) / Math.sin angle))
  = negb ((Fin r2 <? Fin r1) || (angle <? Math.PI / Fin 2)).
Proof.
  intros (t & -> & Ht)%NumFacts.legal_angle Hr1 Hr2.
  assert (Hsin : (0 < sin t)%R) by (apply sin_gt_0; lra).
  rewrite PI_half. unfold angleSum, Math.PI. cbn [Num.div Math.sin].
  rewrite (@NumFacts.Reqb_false r1 0%R) by lra.
  cbn [Num.mul Num.gt Num.lt Num.ge Num.le Num.eq].
  rewrite NumFacts.Rltb_nspec, NumFacts.Rleb_spec. intros Hd Hle u ->.
  destruct (@AmbiguousFacts.single_angle t r1 r2 Ht Hr2 Hle)
    as (Hu0 & Hua & Huo & Hsa & Hso & Hea & Heo).
  pose proof (asin_bound (r2 / r1 * sin t)) as Hub.
  destruct (Num.Reqb (r2 / r1 * sin t) 1) eqn:E.
  - apply NumFacts.Reqb_spec in E. rewrite E, asin_1 in *.
    assert (r2 = r1).
    { destruct (Rle_lt_or_eq_dec _ _ Hle) as [H|H]; [exfalso|assumption].
      destruct (Rle_lt_dec t (PI / 2)); [specialize (Hsa H)|specialize (Hso H)];
        lra. }
    assert (t = (PI / 2)%R).
    { destruct (Rle_lt_dec t (PI / 2));
        [specialize (Hea H)|specialize (Heo H)]; lra. }
    subst t r2.
    cbn [Num.sub Math.sin Num.div].
    rewrite (@NumFacts.Reqb_false (sin (PI / 2)) 0%R) by lra.
    cbn [Num.mul]. rewrite !angle_out_Fin, !side_out_Fin.
    replace (PI - PI / 2 - PI / 2)%R with 0%R by lra. rewrite sin_0.
    replace (r1 * (0 / sin (PI / 2)))%R with 0%R by (unfold Rdiv; ring).
    repeat decide_R. auto.
  - apply NumFacts.Reqb_nspec in E.
    unfold Math.asin.
    assert (Hd0 : (0 < r2 / r1 * sin t)%R)
      by (apply Rmult_lt_0_compat; [apply Rdiv_lt_0_compat|]; lra).
    rewrite (@NumFacts.Rltb_false _ (-1)%R) by lra.
    rewrite (@NumFacts.Rltb_false 1%R) by lra.
    cbn [orb Num.sub Math.sin Num.div].
    rewrite (@NumFacts.Reqb_false (sin t) 0%R) by lra.
    cbn [Num.mul]. rewrite !angle_out_Fin, !side_out_Fin.
    set (m := asin (r2 / r1 * sin t)) in *.
    destruct (Rle_lt_or_eq_dec _ _ Hle) as [Hlt|Heq].
    + assert (0 < PI - t - m < PI)%R.
      { destruct (Rle_lt_dec t (PI / 2)) as [H|H];
          [specialize (Hsa Hlt H)|specialize (Hso Hlt ltac:(lra))]; lra. }
      assert (0 < sin (PI - t - m))%R by (apply sin_gt_0; lra).
      pose proof (@AmbiguousFacts.side_pos r1 _ (sin t) Hr1 Hsin H0).
      repeat decide_R. auto.
    + destruct (Rlt_le_dec t (PI / 2)) as [H|H].
      * specialize (Hea Heq ltac:(lra)).
        assert (0 < sin (PI - t - m))%R by (apply sin_gt_0; lra).
        pose proof (@AmbiguousFacts.side_pos r1 _ (sin t) Hr1 Hsin H0).
        repeat decide_R. auto.
      * specialize (Heo Heq H).
        replace (PI - t - m)%R with 0%R by lra. rewrite sin_0.
        replace (r1 * (0 / sin t))%R with 0%R by (unfold Rdiv; ring).
        repeat decide_R. auto.
Qed.



(** * C2: errors and solutions *)

Lemma clean_single v r pc :
  solutions r = [] -> res_error r = None ->
  clean (addSolutionToResult v r pc).
Proof.
  intros Hs He. unfold clean.
  destruct (addSolutionToResult_shape v r pc) as [[e ->]|[-> _]];
    unfold set_error, push; cbn.
  - auto.
  - intros H. now rewrite He in H.
Qed.

(** Setting up a branch: the value array becomes six explicit slots and
    the index a number. *)
Ltac explicit_slots Hv Hfa :=
  destruct Hv as [xa xga xb xal xc xbe Sa Sga Sb Sal Sc Sbe];
  cbn [In] in Hfa;
  repeat match type of Hfa with
  | _ \/ _ => destruct Hfa as [<- | Hfa]
  | False => destruct Hfa
  end;
  repeat match goal with
  | H : get _ (m6 ?k) = Some _ |- _ =>
      let v := eval vm_compute in (m6 k) in change (m6 k) with v in H
  end;
  repeat match goal with
  | H : get _ _ = Some _ |- _ =>
      cbn [get nth Z.to_nat Pos.to_nat Pos.iter_op Nat.add Z.ltb Z.compare]
        in H; subst
  end;
  cbn [side_slot angle_slot] in *.

Lemma clean_two_candidates v1 v2 r :
  solutions r = [] -> res_error r = None ->
  angle_out_of_range v2 || side_out_of_range v2
  = angle_out_of_range v1 || side_out_of_range v1 ->
  clean (addSolutionToResult v2 (addSolutionToResult v1 r 3) 3).
Proof.
  intros Hs He Hb. rewrite !addSolutionToResult_3, Hb. unfold clean.
  destruct (angle_out_of_range v1 || side_out_of_range v1);
    unfold set_error, push; cbn [res_error solutions]; auto.
  intros H. now rewrite He in H.
Qed.

Lemma clean_SSA v r fa angle s1 s2 :
  validated v -> In fa [1; 3; 5]%Z -> get v fa = Some angle ->
  get v (m6 (fa + 3)) = Some s1 -> get v (m6 (fa + 5)) = Some s2 ->
  solutions r = [] -> res_error r = None ->
  clean (solve_SSA v r fa 3).
Proof.
  intros Hv Hfa Hg1 Hg2 Hg3 Hs He.
  explicit_slots Hv Hfa.
  all: unfold solve_SSA; m6_eval.
  all: cbn [get put replace_nth nth Z.to_nat Pos.to_nat Pos.iter_op Nat.add
            Z.ltb Z.compare ToNumber].
  all: destruct (_ >? Fin 1) eqn:HD; [unfold clean; auto|].
  all: destruct (s1 >=? s2) eqn:Hge; [now apply clean_single|].
  all: apply clean_two_candidates; auto.
  all: unfold angle_out_of_range, side_out_of_range.
  all: cbn [get nth Z.to_nat Pos.to_nat Pos.iter_op Nat.add Z.ltb Z.compare
            ToNumber existsb].
  all: match goal with
       | Ha : illegal_angle _ = false, H1 : illegal_side _ = false,
         H2 : illegal_side _ = false |- _ =>
           destruct (@two_candidates _ _ _ Ha H1 H2 HD Hge)
             as (E1 & E2 & E3 & E4 & _ & _)
       end.
  all: rewrite ?E1, ?E2, ?E3, ?E4; reflexivity.
Qed.

Lemma clean_ASS v r fa angle s1 s2 :
  validated v -> In fa [1; 3; 5]%Z -> get v fa = Some angle ->
  get v (m6 (fa + 3)) = Some s1 -> get v (m6 (fa + 1)) = Some s2 ->
  solutions r = [] -> res_error r = None ->
  clean (solve_ASS v r fa 3).
Proof.
  intros Hv Hfa Hg1 Hg2 Hg3 Hs He.
  explicit_slots Hv Hfa.
  all: unfold solve_ASS; m6_eval.
  all: cbn [get put replace_nth nth Z.to_nat Pos.to_nat Pos.iter_op Nat.add
            Z.ltb Z.compare ToNumber].
  all: destruct (_ >? Fin 1) eqn:HD; [unfold clean; auto|].
  all: destruct (s1 >=? s2) eqn:Hge; [now apply clean_single|].
  all: apply clean_two_candidates; auto.
  all: unfold angle_out_of_range, side_out_of_range.
  all: cbn [get nth Z.to_nat Pos.to_nat Pos.iter_op Nat.add Z.ltb Z.compare
            ToNumber existsb].
  all: match goal with
       | Ha : illegal_angle _ = false, H1 : illegal_side _ = false,
         H2 : illegal_side _ = false |- _ =>
           destruct (@two_candidates _ _ _ Ha H1 H2 HD Hge)
             as (E1 & E2 & E3 & E4 & _ & _)
       end.
  all: rewrite ?E1, ?E2, ?E3, ?E4; reflexivity.
Qed.

(** With exact arithmetic an error leaves no solution: a conflict with a
    redundant input can only be found in a branch that computes a single
    candidate (the SSA and ASS branches are entered with exactly three
    parameters), and in the two-candidate branch the range checks accept
    both candidates or reject both.  Only rounding can separate the two
    candidates. *)
Lemma error_means_no_solution (t : triangleToSolve) :
  res_error (solve t) <> None -> solutions (solve t) = [].
Proof.
  change (clean (solve t)).
  apply solve_cases; intros.
  - unfold clean; auto.
  - unfold solve_SSS. destruct (existsb _ _);
      [unfold clean; auto | now apply clean_single].
  - now apply clean_single.
  - now apply clean_single.
  - now apply clean_single.
  - now apply clean_single.
  - eapply clean_SSA; eauto.
  - eapply clean_ASS; eauto.
Qed.

(** C2.  [addSolutionToResult] never removes a solution: when it rejects
    a candidate it sets the error and leaves the solutions found so far in
    place.  Called in turn on the two candidates that the SSA branch
    computes in double precision for
    [solve({a: 1, b: 1.0000000000000002, alpha: 45})], it appends the
    first and rejects the second, so that the result holds one solution
    and the error "No solution". *)
Theorem second_candidate_rejected (r : solveResult) :
  let r1 := addSolutionToResult rounded_candidate_1 r 3 in
  let r2 := addSolutionToResult rounded_candidate_2 r1 3 in
  r1 = push r (make_solution (modeOutConv r) rounded_candidate_1) /\
  r2 = set_error r1 NoSolution /\
  solutions r2
  = solutions r ++ [make_solution (modeOutConv r) rounded_candidate_1] /\
  res_error r2 = Some NoSolution.
Proof.
  cbv zeta.
  assert (E1 : addSolutionToResult rounded_candidate_1 r 3
               = push r (make_solution (modeOutConv r) rounded_candidate_1)).
  { rewrite addSolutionToResult_3.
    unfold angle_out_of_range, side_out_of_range, rounded_candidate_1.
    cbn [get nth Z.to_nat Pos.to_nat Pos.iter_op Nat.add Z.ltb Z.compare
         ToNumber existsb].
    rewrite !angle_out_Fin, !side_out_Fin.
    repeat decide_R. reflexivity. }
  assert (E2 : forall r', addSolutionToResult rounded_candidate_2 r' 3
                          = set_error r' NoSolution).
  { intros r'. rewrite addSolutionToResult_3.
    unfold angle_out_of_range, side_out_of_range, rounded_candidate_2.
    cbn [get nth Z.to_nat Pos.to_nat Pos.iter_op Nat.add Z.ltb Z.compare
         ToNumber existsb].
    rewrite !angle_out_Fin, !side_out_Fin.
    repeat decide_R. reflexivity. }
  rewrite E1, E2. repeat split.
Qed.

(** * A two-candidate input with an obtuse angle *)




(** * C1: the ambiguous case *)

Lemma dispatch_classify a b c v r fs fa sc ac :
  dispatch a b c v r fs fa sc ac =
  if (ac + sc <? 3)%Z then set_error r TooFewParameters
  else if (sc =? 0)%Z then set_error r NoSideLength
  else match classify v fs fa sc with
       | Some SSS => solve_SSS a b c v r (ac + sc)
       | Some ASA => solve_ASA v r fs (ac + sc)
       | Some SAS => solve_SAS v r fa (ac + sc)
       | Some SAA => solve_SAA v r fs (ac + sc)
       | Some AAS => solve_AAS v r fs (ac + sc)
       | Some SSA => solve_SSA v r fa (ac + sc)
       | Some ASS => solve_ASS v r fa (ac + sc)
       | None => r
       end.
Proof.
  unfold dispatch, classify.
  repeat match goal with
  | |- context [if ?b then _ else _] => destruct b; try reflexivity
  end.
Qed.

(** An accepted input in the SSA or ASS case has exactly three
    parameters: one angle and two sides. *)
Lemma ambiguous_three t c :
  accepted t -> classification t = Some c -> c = SSA \/ c = ASS ->
  (angleCount t + sideCount t = 3)%Z /\
  In (firstAngle t) [1; 3; 5]%Z /\
  illegal_angle (known_angle t) = false /\
  illegal_side (known_s1 t) = false /\
  illegal_side (known_s2 t c) = false.
Proof.
  intros (_ & Ha & Hb & Hc & Hal & Hbe & Hga) Hcl Hcase.
  unfold classification, known_angle, known_s1, known_s2, validated_array,
    firstSide, firstAngle, sideCount, angleCount in *.
  destruct (kept (in_a t)) as [na|], (kept (in_gamma t)) as [nga|],
    (kept (in_b t)) as [nb|], (kept (in_alpha t)) as [nal|],
    (kept (in_c t)) as [nc|], (kept (in_beta t)) as [nbe|];
    cbn [scaled side_slot angle_slot] in *.
  all: repeat match goal with
       | H : illegal_side ?n = false |- _ =>
           lazymatch goal with
           | _ : Num.truthy n = true |- _ => fail
           | _ => pose proof (NumFacts.legal_side_truthy _ H)
           end
       | H : illegal_angle ?n = false |- _ =>
           lazymatch goal with
           | _ : Num.truthy n = true |- _ => fail
           | _ => pose proof (NumFacts.legal_angle_truthy _ H)
           end
       end.
  all: cbv -[Num.truthy Num.mul modeInConv mode_of] in Hcl.
  all: repeat match goal with
       | H : Num.truthy ?n = true, H' : context [Num.truthy ?n] |- _ =>
           rewrite H in H'
       end; cbv beta iota in Hcl.
  all: try discriminate Hcl.
  all: destruct Hcase as [-> | ->]; try discriminate Hcl.
  all: cbv -[Num.mul modeInConv mode_of illegal_side illegal_angle].
  all: auto 10.
Qed.

Lemma classification_dispatch t c :
  accepted t -> classification t = Some c ->
  solve t =
  match c with
  | SSS => solve_SSS (param_number (in_a t)) (param_number (in_b t))
             (param_number (in_c t)) (validated_array t)
             (initial_result t (mode_of t)) (angleCount t + sideCount t)
  | ASA => solve_ASA (validated_array t) (initial_result t (mode_of t))
             (firstSide t) (angleCount t + sideCount t)
  | SAS => solve_SAS (validated_array t) (initial_result t (mode_of t))
             (firstAngle t) (angleCount t + sideCount t)
  | SAA => solve_SAA (validated_array t) (initial_result t (mode_of t))
             (firstSide t) (angleCount t + sideCount t)
  | AAS => solve_AAS (validated_array t) (initial_result t (mode_of t))
             (firstSide t) (angleCount t + sideCount t)
  | SSA => solve_SSA (validated_array t) (initial_result t (mode_of t))
             (firstAngle t) (angleCount t + sideCount t)
  | ASS => solve_ASS (validated_array t) (initial_result t (mode_of t))
             (firstAngle t) (angleCount t + sideCount t)
  end.
Proof.
  intros Hacc Hcl. rewrite (solve_accepted Hacc), dispatch_classify.
  unfold classification in Hcl.
  destruct (_ <? 3)%Z; [discriminate|].
  destruct (_ =? 0)%Z; [discriminate|].
  now rewrite Hcl.
Qed.










(** * Triangles *)

Module TriangleFacts.

Local Open Scope R_scope.

Lemma triangle_rot a b c alpha beta gamma :
  triangle a b c alpha beta gamma -> triangle b c a beta gamma alpha.
Proof. unfold triangle. intuition lra. Qed.

Lemma sin2 x : sin x * sin x = 1 - cos x * cos x.
Proof. pose proof (sin2_cos2 x) as H. unfold Rsqr in H. lra. Qed.

Lemma square_inj x y : 0 <= x -> 0 <= y -> x * x = y * y -> x = y.
Proof. intros Hx Hy H. apply Rsqr_inj; auto. Qed.

(** The law of cosines follows from the law of sines and the angle sum. *)
Lemma law_of_cosines a b c alpha beta gamma :
  triangle a b c alpha beta gamma ->
  cos alpha = (b * b + c * c - a * a) / (2 * b * c).
Proof.
  intros (Ha & Hb & Hc & Hal & Hbe & Hga & Hsum & L1 & L2 & L3).
  assert (Hsa : 0 < sin alpha) by (apply sin_gt_0; lra).
  assert (Hsb : 0 < sin beta) by (apply sin_gt_0; lra).
  assert (Hsc : 0 < sin gamma) by (apply sin_gt_0; lra).
  assert (Eal : alpha = PI - (beta + gamma)) by lra.
  assert (Ec : cos alpha = sin beta * sin gamma - cos beta * cos gamma).
  { rewrite Eal, Rtrigo_facts.cos_pi_minus, cos_plus. lra. }
  assert (Es : sin alpha = sin beta * cos gamma + cos beta * sin gamma).
  { rewrite Eal, sin_PI_x, sin_plus. lra. }
  (* b = a sin beta / sin alpha, c = a sin gamma / sin alpha *)
  set (k := a / sin alpha).
  assert (Ka : a = k * sin alpha) by (unfold k; field; lra).
  assert (Kb : b = k * sin beta).
  { unfold k. apply (Rmult_eq_reg_r (sin alpha)); [|lra].
    field_simplify; lra. }
  assert (Kc : c = k * sin gamma).
  { unfold k. apply (Rmult_eq_reg_r (sin alpha)); [|lra].
    field_simplify; lra. }
  clearbody k.
  pose proof (sin2 beta) as Sb. pose proof (sin2 gamma) as Sg.
  assert (Id : b * b + c * c - a * a
               - (sin beta * sin gamma - cos beta * cos gamma) * (2 * b * c)
               = k * k * (sin beta * sin beta
                          * (1 - cos gamma * cos gamma - sin gamma * sin gamma)
                          + sin gamma * sin gamma
                            * (1 - cos beta * cos beta - sin beta * sin beta))).
  { rewrite Ka, Kb, Kc, Es. ring. }
  replace (1 - cos gamma * cos gamma - sin gamma * sin gamma) with 0 in Id
    by lra.
  replace (1 - cos beta * cos beta - sin beta * sin beta) with 0 in Id by lra.
  rewrite Ec. field_simplify_eq; [lra | nra].
Qed.

Lemma div_lt_1 n d : 0 < d -> (n / d < 1 <-> n < d).
Proof.
  intros Hd. split; intros H.
  - apply (Rmult_lt_compat_r d) in H; [|assumption].
    unfold Rdiv in H. rewrite Rmult_assoc, Rinv_l in H by lra. lra.
  - apply (Rmult_lt_reg_r d); [assumption|].
    unfold Rdiv. rewrite Rmult_assoc, Rinv_l by lra. lra.
Qed.

Lemma div_gt_m1 n d : 0 < d -> (-1 < n / d <-> - d < n).
Proof.
  intros Hd. split; intros H.
  - apply (Rmult_lt_compat_r d) in H; [|assumption].
    unfold Rdiv in H. rewrite Rmult_assoc, Rinv_l in H by lra. lra.
  - apply (Rmult_lt_reg_r d); [assumption|].
    unfold Rdiv. rewrite Rmult_assoc, Rinv_l by lra. lra.
Qed.

(** Strict triangle inequalities, read off the first ratio of the SSS
    branch. *)
Lemma ratio_triangle_inequality a b c :
  0 < a -> 0 < b -> 0 < c ->
  -1 < (b * b + c * c - a * a) / (2 * b * c) < 1 ->
  a < b + c /\ b < a + c /\ c < a + b.
Proof.
  intros Ha Hb Hc [H1 H2].
  assert (Hd : 0 < 2 * b * c) by (apply Rmult_lt_0_compat; lra).
  apply (proj1 (div_gt_m1 _ Hd)) in H1. apply (proj1 (div_lt_1 _ Hd)) in H2.
  assert (a * a < (b + c) * (b + c)) by lra.
  assert ((b - c) * (b - c) < a * a) by lra.
  repeat split; nra.
Qed.

Lemma inequality_ratio a b c :
  0 < a -> 0 < b -> 0 < c -> a < b + c -> b < a + c -> c < a + b ->
  -1 < (b * b + c * c - a * a) / (2 * b * c) < 1.
Proof.
  intros Ha Hb Hc T1 T2 T3.
  assert (Hd : 0 < 2 * b * c) by (apply Rmult_lt_0_compat; lra).
  split; [apply (div_gt_m1 _ Hd) | apply (div_lt_1 _ Hd)]; nra.
Qed.

(** The SSS construction: two angles by the law of cosines, the third by
    the angle sum. *)
Lemma SSS_triangle a b c :
  0 < a -> 0 < b -> 0 < c ->
  -1 < (b * b + c * c - a * a) / (2 * b * c) < 1 ->
  triangle a b c
    (acos ((b * b + c * c - a * a) / (2 * b * c)))
    (acos ((a * a + c * c - b * b) / (2 * a * c)))
    (PI - acos ((b * b + c * c - a * a) / (2 * b * c))
        - acos ((a * a + c * c - b * b) / (2 * a * c))).
Proof.
  intros Ha Hb Hc HrA.
  destruct (ratio_triangle_inequality Ha Hb Hc HrA) as (T1 & T2 & T3).
  assert (Hd : 0 < 2 * a * c) by (apply Rmult_lt_0_compat; lra).
  assert (HrB : -1 < (a * a + c * c - b * b) / (2 * a * c) < 1).
  { split; [apply (div_gt_m1 _ Hd) | apply (div_lt_1 _ Hd)]; nra. }
  set (rA := (b * b + c * c - a * a) / (2 * b * c)) in *.
  set (rB := (a * a + c * c - b * b) / (2 * a * c)) in *.
  pose proof (acos_bound_lt rA HrA) as HA.
  pose proof (acos_bound_lt rB HrB) as HB.
  pose proof (cos_acos rA ltac:(lra)) as CA.
  pose proof (cos_acos rB ltac:(lra)) as CB.
  set (A := acos rA) in *. set (B := acos rB) in *.
  assert (SA : 0 < sin A) by (apply sin_gt_0; lra).
  assert (SB : 0 < sin B) by (apply sin_gt_0; lra).
  pose proof (sin2 A) as SA2. pose proof (sin2 B) as SB2.
  (* a sin B = b sin A, by comparing squares *)
  assert (EA : rA * (2 * b * c) = b * b + c * c - a * a)
    by (unfold rA; field; lra).
  assert (EB : rB * (2 * a * c) = a * a + c * c - b * b)
    by (unfold rB; field; lra).
  clearbody rA rB. clearbody A B.
  assert (L1 : a * sin B = b * sin A).
  { apply square_inj; [nra | nra |].
    apply (Rmult_eq_reg_r (4 * c * c)); [|nra].
    replace (a * sin B * (a * sin B) * (4 * c * c))
      with (4 * a * a * c * c * (sin B * sin B)) by ring.
    replace (b * sin A * (b * sin A) * (4 * c * c))
      with (4 * b * b * c * c * (sin A * sin A)) by ring.
    rewrite SA2, SB2, CA, CB.
    replace (4 * a * a * c * c * (1 - rB * rB))
      with (4 * a * a * c * c - (rB * (2 * a * c)) * (rB * (2 * a * c)))
      by ring.
    replace (4 * b * b * c * c * (1 - rA * rA))
      with (4 * b * b * c * c - (rA * (2 * b * c)) * (rA * (2 * b * c)))
      by ring.
    rewrite EA, EB. ring. }
  (* a sin C = c sin A *)
  assert (SC : sin (PI - A - B) = sin A * cos B + cos A * sin B).
  { replace (PI - A - B) with (PI - (A + B)) by lra.
    rewrite sin_PI_x, sin_plus. reflexivity. }
  assert (L3 : c * sin A = a * sin (PI - A - B)).
  { rewrite SC, CA, CB.
    replace (a * (sin A * rB + rA * sin B))
      with (sin A * (a * rB) + rA * (a * sin B)) by ring.
    rewrite L1.
    apply (Rmult_eq_reg_r (2 * c)); [|lra].
    replace ((sin A * (a * rB) + rA * (b * sin A)) * (2 * c))
      with (sin A * (rB * (2 * a * c) + rA * (2 * b * c))) by ring.
    rewrite EA, EB. ring. }
  assert (SCpos : 0 < sin (PI - A - B)) by nra.
  assert (HC : 0 < PI - A - B < PI).
  { split; [|lra].
    destruct (Rlt_le_dec 0 (PI - A - B)) as [H|H]; [assumption|exfalso].
    destruct (Req_dec (PI - A - B) 0) as [E|E].
    - rewrite E, sin_0 in SCpos. lra.
    - assert (sin (PI - A - B) < 0) by (apply sin_lt_0_var; lra). lra. }
  unfold triangle. repeat split; try lra.
  (* b sin C = c sin B *)
  apply (Rmult_eq_reg_r a); [|lra].
  replace (b * sin (PI - A - B) * a) with (b * (a * sin (PI - A - B))) by ring.
  rewrite <- L3.
  replace (c * sin B * a) with (c * (a * sin B)) by ring.
  rewrite L1. ring.
Qed.

Lemma triangle_swap a b c alpha beta gamma :
  triangle a b c alpha beta gamma -> triangle c b a gamma beta alpha.
Proof. unfold triangle. intuition lra. Qed.

Lemma cos_strict t : 0 < t < PI -> -1 < cos t < 1.
Proof.
  intros Ht. assert (0 < sin t) by (apply sin_gt_0; lra).
  pose proof (sin2 t). split; nra.
Qed.

(** The construction by the law of sines (ASA, SAA, AAS): a side [s]
    opposite the angle [T], the two other sides from the angles [A] and
    [B]. *)
Lemma sines_triangle s A B T :
  0 < s -> 0 < A < PI -> 0 < B < PI -> 0 < T < PI -> A + B + T = PI ->
  triangle s (s * (sin A / sin T)) (s * (sin B / sin T)) T A B.
Proof.
  intros Hs HA HB HT Hsum.
  assert (SA : 0 < sin A) by (apply sin_gt_0; lra).
  assert (SB : 0 < sin B) by (apply sin_gt_0; lra).
  assert (ST : 0 < sin T) by (apply sin_gt_0; lra).
  unfold triangle. repeat split; try lra.
  all: first [ apply Rmult_lt_0_compat; [|apply Rdiv_lt_0_compat]; lra
             | field; lra ].
Qed.

(** The SAS construction: the third side by the law of cosines, one angle
    by the law of cosines again, the last by the angle sum. *)
Lemma SAS_triangle s1 s2 t :
  0 < s1 -> 0 < s2 -> 0 < t < PI ->
  let s3 := sqrt (s1 * s1 + s2 * s2 - 2 * s1 * s2 * cos t) in
  let phi := acos ((s3 * s3 + s2 * s2 - s1 * s1) / (2 * s3 * s2)) in
  0 < s3 /\
  -1 < (s3 * s3 + s2 * s2 - s1 * s1) / (2 * s3 * s2) < 1 /\
  triangle s2 s3 s1 (PI - phi - t) t phi.
Proof.
  intros H1 H2 Ht s3 phi.
  destruct (cos_strict Ht) as [Cl Cu].
  assert (P12 : 0 < s1 * s2) by (apply Rmult_lt_0_compat; lra).
  assert (Pm : 0 < s1 * s2 * (1 - cos t)) by (apply Rmult_lt_0_compat; lra).
  assert (Pp : 0 < s1 * s2 * (1 + cos t)) by (apply Rmult_lt_0_compat; lra).
  pose proof (Rle_0_sqr (s1 - s2)) as Q. unfold Rsqr in Q.
  assert (Hpos : 0 < s1 * s1 + s2 * s2 - 2 * s1 * s2 * cos t) by lra.
  assert (H3 : 0 < s3) by (apply sqrt_lt_R0; assumption).
  assert (E3 : s3 * s3 = s1 * s1 + s2 * s2 - 2 * s1 * s2 * cos t)
    by (apply sqrt_sqrt; lra).
  assert (Hd : 0 < 2 * s3 * s2) by (apply Rmult_lt_0_compat; lra).
  assert (Hr : -1 < (s3 * s3 + s2 * s2 - s1 * s1) / (2 * s3 * s2) < 1).
  { split; [apply (div_gt_m1 _ Hd) | apply (div_lt_1 _ Hd)].
    - assert ((s1 - s2) * (s1 - s2) < s3 * s3) by nra.
      assert (s1 * s1 < (s3 + s2) * (s3 + s2)) by nra. lra.
    - assert (s3 * s3 < (s1 + s2) * (s1 + s2)) by nra.
      assert ((s3 - s2) * (s3 - s2) < s1 * s1).
      { destruct (Rle_lt_dec s2 s3); nra. }
      lra. }
  split; [assumption|]. split; [assumption|].
  pose proof (SSS_triangle H1 H3 H2 Hr) as T.
  replace (acos ((s1 * s1 + s2 * s2 - s3 * s3) / (2 * s1 * s2))) with t in T.
  - apply triangle_swap. exact T.
  - replace ((s1 * s1 + s2 * s2 - s3 * s3) / (2 * s1 * s2)) with (cos t).
    + symmetry. apply acos_cos. lra.
    + rewrite E3. field. lra.
Qed.

(** The construction of the SSA and ASS branches: the sines of the
    unknown angle [u] and of the known angle are in the ratio of the known
    sides. *)
Lemma ambiguous_triangle r1 r2 t u :
  0 < r1 -> 0 < r2 -> 0 < t < PI -> 0 < u < PI ->
  r1 * sin u = r2 * sin t -> 0 < PI - t - u < PI ->
  triangle (r1 * (sin (PI - t - u) / sin t)) r1 r2 (PI - t - u) t u.
Proof.
  intros H1 H2 Ht Hu Hs Hr.
  assert (St : 0 < sin t) by (apply sin_gt_0; lra).
  assert (Su : 0 < sin u) by (apply sin_gt_0; lra).
  assert (Sr : 0 < sin (PI - t - u)) by (apply sin_gt_0; lra).
  unfold triangle. repeat split; try lra.
  - apply Rmult_lt_0_compat; [|apply Rdiv_lt_0_compat]; lra.
  - field. lra.
  - apply (Rmult_eq_reg_r (sin t)); [|lra].
    replace (r1 * (sin (PI - t - u) / sin t) * sin u * sin t)
      with (sin (PI - t - u) * (r1 * sin u)) by (field; lra).
    rewrite Hs. ring.
Qed.

End TriangleFacts.

(** * Soundness of [solve] *)

Lemma mul_finite conv x y :
  conv = toDeg \/ conv = Fin 1 -> conv * x = Fin y -> exists z, x = Fin z.
Proof.
  intros Hc. assert (exists k, conv = Fin k) as [k ->].
  { destruct Hc as [-> | ->]; [rewrite NumFacts.toDeg_eq|]; eauto. }
  destruct x as [|s|z]; cbn; [discriminate| |eauto].
  destruct (Num.Reqb k 0); discriminate.
Qed.

Lemma modeOutConv_cases r : modeOutConv r = toDeg \/ modeOutConv r = Fin 1.
Proof. unfold modeOutConv. destruct (mode_is _ _); auto. Qed.

Lemma sound_add v r pc :
  sound r ->
  (angle_out_of_range v = false -> side_out_of_range v = false ->
   finite_array v -> triangle_array v) ->
  sound (addSolutionToResult v r pc).
Proof.
  intros Hr Hv.
  destruct (addSolutionToResult_shape v r pc) as [[e ->]|(-> & Ha & Hs)].
  - exact Hr.
  - intros s Hin Hfin. cbn [solutions push] in Hin.
    apply in_app_or in Hin. destruct Hin as [Hin | [<- | []]].
    + exact (Hr s Hin Hfin).
    + exists v. split; [|reflexivity]. apply Hv; auto.
      destruct Hfin as (a & b & c & al & be & ga & E).
      cbn [make_solution sol_a sol_b sol_c sol_alpha sol_beta sol_gamma] in E.
      destruct E as (E1 & E2 & E3 & E4 & E5 & E6).
      pose proof (modeOutConv_cases r) as Hc.
      unfold finite_array. repeat split; eauto using mul_finite.
Qed.

Lemma sound_set_error r e : sound r -> sound (set_error r e).
Proof. exact (fun H => H). Qed.

Lemma sound_initial t m : sound (initial_result t m).
Proof. intros s []. Qed.

(** ** Soundness of the branches *)

Lemma angle_in_range z : angle_out (Fin z) = false -> (0 < z < PI)%R.
Proof.
  rewrite angle_out_Fin. intros [H1 H2]%orb_false_elim.
  apply NumFacts.Rleb_nspec in H1, H2. lra.
Qed.

Lemma legal_finite_side x : illegal_side (Fin x) = false -> (0 < x)%R.
Proof.
  intros [H | (r & [= <-] & Hr)]%NumFacts.legal_side;
    [discriminate | assumption].
Qed.

(** The triangle of a goal may be stated from any of its vertices and in
    either orientation. *)
Ltac permute_triangle tac :=
  first [ tac
        | apply TriangleFacts.triangle_rot; tac
        | do 2 apply TriangleFacts.triangle_rot; tac
        | apply TriangleFacts.triangle_swap; tac
        | apply TriangleFacts.triangle_swap, TriangleFacts.triangle_rot; tac
        | apply TriangleFacts.triangle_swap;
          do 2 apply TriangleFacts.triangle_rot; tac ].

Ltac list_slots :=
  cbn [get put replace_nth nth Z.to_nat Pos.to_nat Pos.iter_op Nat.add
       Z.ltb Z.compare ToNumber].

Ltac list_slots_in H :=
  cbn [get put replace_nth nth Z.to_nat Pos.to_nat Pos.iter_op Nat.add
       Z.ltb Z.compare ToNumber] in H.

(** From the candidate's finiteness and the validation of the inputs to
    real numbers with their bounds. *)
Ltac real_inputs Hfin :=
  destruct Hfin as ((f0 & Hf0) & (f1 & Hf1) & (f2 & Hf2) & (f3 & Hf3)
                    & (f4 & Hf4) & (f5 & Hf5));
  list_slots_in Hf0; list_slots_in Hf1; list_slots_in Hf2;
  list_slots_in Hf3; list_slots_in Hf4; list_slots_in Hf5;
  repeat match goal with
  | H : Some ?s = Some (Fin _) |- _ =>
      is_var s; injection H as H; subst s
  | H : illegal_angle ?n = false |- _ =>
      is_var n;
      let t := fresh "t" in let Ht := fresh "Ht" in
      apply NumFacts.legal_angle in H; destruct H as (t & -> & Ht)
  | H : illegal_side (Fin _) = false |- _ => apply legal_finite_side in H
  end.

Ltac range_facts Hang :=
  unfold angle_out_of_range in Hang; list_slots_in Hang;
  cbn [existsb] in Hang;
  repeat match type of Hang with
  | (_ || _)%bool = false =>
      let H := fresh "Hr" in
      apply orb_false_elim in Hang; destruct Hang as [H Hang]
  end; clear Hang.

Ltac range_reals :=
  repeat match goal with
  | H : angle_out (Fin _) = false |- _ => apply angle_in_range in H
  end;
  repeat match goal with
  | H : (0 < ?z < PI)%R |- _ =>
      lazymatch goal with
      | _ : (0 < sin z)%R |- _ => fail
      | _ => assert (0 < sin z)%R by (apply sin_gt_0; lra)
      end
  end.

Ltac exhibit_triangle :=
  unfold triangle_array; do 6 eexists; split; [reflexivity|].

Ltac by_sines :=
  permute_triangle ltac:(apply TriangleFacts.sines_triangle; lra).

Lemma sound_ASA v r fs pc s A B :
  validated v -> In fs [0; 2; 4]%Z -> get v fs = Some s ->
  get v (m6 (fs + 5)) = Some A -> get v (m6 (fs + 1)) = Some B ->
  sound r -> sound (solve_ASA v r fs pc).
Proof.
  intros Hv Hfs Hg1 Hg2 Hg3 Hr.
  explicit_slots Hv Hfs.
  all: unfold solve_ASA; m6_eval; list_slots.
  all: apply sound_add; [assumption|]; intros Hang _ Hfin.
  all: real_inputs Hfin.
  all: unfold angleSum, Math.PI in *; cbn [Num.sub Math.sin] in *.
  all: range_facts Hang; range_reals.
  all: cbn [Num.div]; repeat decide_R; cbn [Num.mul].
  all: exhibit_triangle; by_sines.
Qed.

Lemma sound_SAA v r fs pc s A B :
  validated v -> In fs [0; 2; 4]%Z -> get v fs = Some s ->
  get v (m6 (fs + 1)) = Some A -> get v (m6 (fs + 3)) = Some B ->
  sound r -> sound (solve_SAA v r fs pc).
Proof.
  intros Hv Hfs Hg1 Hg2 Hg3 Hr.
  explicit_slots Hv Hfs.
  all: unfold solve_SAA; m6_eval; list_slots.
  all: apply sound_add; [assumption|]; intros Hang _ Hfin.
  all: real_inputs Hfin.
  all: unfold angleSum, Math.PI in *; cbn [Num.sub Math.sin] in *.
  all: range_facts Hang; range_reals.
  all: cbn [Num.div]; repeat decide_R; cbn [Num.mul].
  all: exhibit_triangle; by_sines.
Qed.

Lemma sound_AAS v r fs pc s A B :
  validated v -> In fs [0; 2; 4]%Z -> get v fs = Some s ->
  get v (m6 (fs + 5)) = Some A -> get v (m6 (fs + 3)) = Some B ->
  sound r -> sound (solve_AAS v r fs pc).
Proof.
  intros Hv Hfs Hg1 Hg2 Hg3 Hr.
  explicit_slots Hv Hfs.
  all: unfold solve_AAS; m6_eval; list_slots.
  all: apply sound_add; [assumption|]; intros Hang _ Hfin.
  all: real_inputs Hfin.
  all: unfold angleSum, Math.PI in *; cbn [Num.sub Math.sin] in *.
  all: range_facts Hang; range_reals.
  all: cbn [Num.div]; repeat decide_R; cbn [Num.mul].
  all: exhibit_triangle; by_sines.
Qed.

Lemma SAS_radicand s1 s2 t :
  (0 < s1 -> 0 < s2 -> 0 < t < PI ->
   0 < s1 * s1 + s2 * s2 - 2 * s1 * s2 * cos t)%R.
Proof.
  intros H1 H2 Ht.
  destruct (TriangleFacts.cos_strict Ht) as [Cl Cu].
  assert (P12 : (0 < s1 * s2)%R) by (apply Rmult_lt_0_compat; lra).
  assert (Pm : (0 < s1 * s2 * (1 - cos t))%R)
    by (apply Rmult_lt_0_compat; lra).
  pose proof (Rle_0_sqr (s1 - s2)) as Q. unfold Rsqr in Q. lra.
Qed.

Lemma sound_SAS v r fa pc angle side1 side2 :
  validated v -> In fa [1; 3; 5]%Z -> get v fa = Some angle ->
  get v (m6 (fa + 5)) = Some side1 -> get v (m6 (fa + 1)) = Some side2 ->
  sound r -> sound (solve_SAS v r fa pc).
Proof.
  intros Hv Hfa Hg1 Hg2 Hg3 Hr.
  explicit_slots Hv Hfa.
  all: unfold solve_SAS; m6_eval; list_slots.
  all: apply sound_add; [assumption|]; intros Hang _ Hfin.
  all: real_inputs Hfin.
  all: unfold angleSum, Math.PI in *.
  all: cbn [Num.sq Num.mul Num.add Num.sub Math.cos] in *.
  all: match goal with
       | |- context [Math.sqrt (Fin (?s1 * ?s1 + ?s2 * ?s2
                                      - 2 * ?s1 * ?s2 * cos ?t))] =>
           pose proof (@SAS_radicand s1 s2 t ltac:(assumption)
                         ltac:(assumption) ltac:(assumption)) as Hrad;
           destruct (@TriangleFacts.SAS_triangle s1 s2 t ltac:(assumption)
                       ltac:(assumption) ltac:(assumption))
             as (H3 & Hratio & T)
       end.
  all: clear Hang; repeat match goal with
       | H : _ = Fin _ |- _ => clear H
       | H : _ = Some (Fin _) |- _ => clear H
       end.
  all: unfold Math.sqrt.
  all: match type of Hrad with
       | (0 < ?e)%R => rewrite (@NumFacts.Rltb_false e 0%R) by lra
       end.
  all: cbn [Num.sq Num.mul Num.add Num.sub Num.div].
  all: match goal with
       | |- context [Num.Reqb (2 * ?s * ?s2) 0] =>
           assert (0 < 2 * s * s2)%R by (apply Rmult_lt_0_compat; lra)
       end.
  all: repeat first [progress num_cbn | decide_R].
  all: exhibit_triangle; permute_triangle ltac:(exact T).
Qed.

Ltac by_ambiguous Hsin :=
  permute_triangle
    ltac:(apply TriangleFacts.ambiguous_triangle;
          solve [ lra
                | rewrite sin_PI2; lra
                | rewrite sin_asin by lra; exact Hsin
                | rewrite sin_PI_x, sin_asin by lra; exact Hsin ]).

Lemma sound_SSA v r fa pc angle s1 s2 :
  validated v -> In fa [1; 3; 5]%Z -> get v fa = Some angle ->
  get v (m6 (fa + 3)) = Some s1 -> get v (m6 (fa + 5)) = Some s2 ->
  sound r -> sound (solve_SSA v r fa pc).
Proof.
  intros Hv Hfa Hg1 Hg2 Hg3 Hr.
  explicit_slots Hv Hfa.
  all: unfold solve_SSA; m6_eval; list_slots.
  all: destruct (_ >? Fin 1) eqn:HD; [now apply sound_set_error|].
  all: destruct (s1 >=? s2) eqn:Hge.
  all: [> destruct (_ ==? Fin 1) eqn:E | | destruct (_ ==? Fin 1) eqn:E |
        | destruct (_ ==? Fin 1) eqn:E | ].
  all: repeat (apply sound_add; [try assumption|]); intros Hang _ Hfin.
  all: real_inputs Hfin.
  all: unfold angleSum, Math.PI in *; cbn [Math.sin Num.div] in *.
  all: repeat match goal with
       | H : _ = Fin _ |- _ => clear H
       | H : _ = Some (Fin _) |- _ => clear H
       end.
  all: rewrite ?(@NumFacts.Reqb_false 2%R 0%R) in * by lra.
  all: match type of HD with
       | context [Num.Reqb ?r1 0] =>
           rewrite (@NumFacts.Reqb_false r1 0%R) in * by lra
       end.
  all: cbn [Num.mul Num.gt Num.lt Num.eq Num.sub Math.sin] in *.
  all: apply NumFacts.Rltb_nspec in HD.
  all: match type of HD with
       | (?r2 / ?r1 * sin ?t <= 1)%R =>
           assert (Hd0 : (0 < r2 / r1 * sin t)%R)
             by (apply Rmult_lt_0_compat;
                 [apply Rdiv_lt_0_compat; lra | apply sin_gt_0; lra]);
           assert (Hsin : (r1 * (r2 / r1 * sin t) = r2 * sin t)%R)
             by (field; lra)
       end.
  all: unfold Math.asin in *.
  all: rewrite ?(@NumFacts.Rltb_false _ (-1)%R) in * by lra.
  all: rewrite ?(@NumFacts.Rltb_false 1%R) in * by lra.
  all: cbn [orb Num.sub Math.sin] in *.
  all: range_facts Hang; range_reals.
  all: cbn [Num.div]; repeat decide_R; cbn [Num.mul].
  all: try (apply NumFacts.Reqb_spec in E; rewrite E in Hsin).
  all: exhibit_triangle; by_ambiguous Hsin.
Qed.

Lemma sound_ASS v r fa pc angle s1 s2 :
  validated v -> In fa [1; 3; 5]%Z -> get v fa = Some angle ->
  get v (m6 (fa + 3)) = Some s1 -> get v (m6 (fa + 1)) = Some s2 ->
  sound r -> sound (solve_ASS v r fa pc).
Proof.
  intros Hv Hfa Hg1 Hg2 Hg3 Hr.
  explicit_slots Hv Hfa.
  all: unfold solve_ASS; m6_eval; list_slots.
  all: destruct (_ >? Fin 1) eqn:HD; [now apply sound_set_error|].
  all: destruct (s1 >=? s2) eqn:Hge.
  all: [> destruct (_ ==? Fin 1) eqn:E | | destruct (_ ==? Fin 1) eqn:E |
        | destruct (_ ==? Fin 1) eqn:E | ].
  all: repeat (apply sound_add; [try assumption|]); intros Hang _ Hfin.
  all: real_inputs Hfin.
  all: unfold angleSum, Math.PI in *; cbn [Math.sin Num.div] in *.
  all: repeat match goal with
       | H : _ = Fin _ |- _ => clear H
       | H : _ = Some (Fin _) |- _ => clear H
       end.
  all: rewrite ?(@NumFacts.Reqb_false 2%R 0%R) in * by lra.
  all: match type of HD with
       | context [Num.Reqb ?r1 0] =>
           rewrite (@NumFacts.Reqb_false r1 0%R) in * by lra
       end.
  all: cbn [Num.mul Num.gt Num.lt Num.eq Num.sub Math.sin] in *.
  all: apply NumFacts.Rltb_nspec in HD.
  all: match type of HD with
       | (?r2 / ?r1 * sin ?t <= 1)%R =>
           assert (Hd0 : (0 < r2 / r1 * sin t)%R)
             by (apply Rmult_lt_0_compat;
                 [apply Rdiv_lt_0_compat; lra | apply sin_gt_0; lra]);
           assert (Hsin : (r1 * (r2 / r1 * sin t) = r2 * sin t)%R)
             by (field; lra)
       end.
  all: unfold Math.asin in *.
  all: rewrite ?(@NumFacts.Rltb_false _ (-1)%R) in * by lra.
  all: rewrite ?(@NumFacts.Rltb_false 1%R) in * by lra.
  all: cbn [orb Num.sub Math.sin] in *.
  all: range_facts Hang; range_reals.
  all: cbn [Num.div]; repeat decide_R; cbn [Num.mul].
  all: try (apply NumFacts.Reqb_spec in E; rewrite E in Hsin).
  all: exhibit_triangle; by_ambiguous Hsin.
Qed.

Lemma acos_interior x :
  (-1 <= x <= 1 -> 0 < acos x < PI -> -1 < x < 1)%R.
Proof.
  intros Hx Ha.
  destruct (Req_dec x 1) as [-> | H1]; [rewrite acos_1 in Ha; lra|].
  destruct (Req_dec x (-1)) as [-> | H2]; [|lra].
  replace (-1)%R with (- (1))%R in Ha by lra.
  rewrite acos_opp, acos_1 in Ha. lra.
Qed.

Lemma sound_SSS v r pc a b c :
  validated v -> get v 0 = Some a -> get v 2 = Some b -> get v 4 = Some c ->
  sound r -> sound (solve_SSS a b c v r pc).
Proof.
  intros Hv Hg1 Hg2 Hg3 Hr.
  destruct Hv as [xa xga xb xal xc xbe Sa Sga Sb Sal Sc Sbe].
  list_slots_in Hg1; list_slots_in Hg2; list_slots_in Hg3. subst.
  cbn [side_slot] in *.
  unfold solve_SSS. list_slots.
  destruct (existsb _ _); [now apply sound_set_error|].
  apply sound_add; [assumption|]; intros Hang _ Hfin.
  real_inputs Hfin.
  unfold angleSum, Math.PI in *.
  cbn [Num.sq Num.mul Num.add Num.sub Num.div] in *.
  assert (Hbc : (0 < 2 * f2 * f4)%R) by (apply Rmult_lt_0_compat; lra).
  assert (Hac : (0 < 2 * f0 * f4)%R) by (apply Rmult_lt_0_compat; lra).
  rewrite (@NumFacts.Reqb_false (2 * f2 * f4)%R 0%R) in * by lra.
  rewrite (@NumFacts.Reqb_false (2 * f0 * f4)%R 0%R) in * by lra.
  unfold Math.acos in *.
  destruct (Num.Rltb _ (-1) || Num.Rltb 1 _) eqn:E3; [discriminate|].
  apply orb_false_elim in E3. destruct E3 as [L3 U3].
  apply NumFacts.Rltb_nspec in L3, U3.
  destruct (Num.Rltb _ (-1) || Num.Rltb 1 _) eqn:E5; [discriminate|].
  cbn [Num.sub] in *.
  range_facts Hang; range_reals.
  exhibit_triangle.
  apply TriangleFacts.SSS_triangle; try assumption.
  apply acos_interior; [lra | assumption].
Qed.

(** ** Soundness of [solve] *)

Lemma sound_run_error t e :
  sound_run t (set_error (initial_result t (mode_of t)) e).
Proof.
  repeat split.
  - intros H. now contradiction H.
  - apply sound_set_error, sound_initial.
Qed.

Lemma sound_run_branch t r :
  (mode_of t = "deg"%string \/ mode_of t = "rad"%string) ->
  res_mode r = res_mode (initial_result t (mode_of t)) ->
  sound r -> sound_run t r.
Proof. intros; repeat split; auto. Qed.

Lemma res_mode_add v r pc :
  res_mode (addSolutionToResult v r pc) = res_mode r.
Proof.
  now destruct (addSolutionToResult_shape v r pc) as [[e ->]|(-> & _)].
Qed.

Lemma solve_sound t : sound_run t (solve t).
Proof.
  apply solve_cases; intros.
  - apply sound_run_error.
  - apply sound_run_branch; auto.
    + unfold solve_SSS. destruct (existsb _ _); [reflexivity|].
      apply res_mode_add.
    + eapply sound_SSS; eauto. apply sound_initial.
  - apply sound_run_branch; auto; [apply res_mode_add|].
    eapply sound_ASA; eauto. apply sound_initial.
  - apply sound_run_branch; auto; [apply res_mode_add|].
    eapply sound_SAS; eauto. apply sound_initial.
  - apply sound_run_branch; auto; [apply res_mode_add|].
    eapply sound_SAA; eauto. apply sound_initial.
  - apply sound_run_branch; auto; [apply res_mode_add|].
    eapply sound_AAS; eauto. apply sound_initial.
  - apply sound_run_branch; auto.
    + unfold solve_SSA. destruct (_ >? _); [reflexivity|].
      destruct (_ >=? _); now rewrite ?res_mode_add.
    + eapply sound_SSA; eauto. apply sound_initial.
  - apply sound_run_branch; auto.
    + unfold solve_ASS. destruct (_ >? _); [reflexivity|].
      destruct (_ >=? _); now rewrite ?res_mode_add.
    + eapply sound_ASS; eauto. apply sound_initial.
Qed.

(** * Feeding a solution back *)

Lemma conflict_loop_none conv v r idxs :
  (forall i, In i idxs -> conflicting conv v r i = false) ->
  conflict_loop idxs conv v r = None.
Proof.
  induction idxs as [|i idxs IH]; intros H; cbn [conflict_loop];
    [reflexivity|].
  rewrite (H i) by now left. apply IH. intros j Hj. apply H. now right.
Qed.

(** A candidate that agrees with every given parameter and is in range
    is appended. *)
Lemma addSolutionToResult_agrees v r pc :
  (forall i, (i < 6)%nat -> conflicting (modeOutConv r) v r i = false) ->
  angle_out_of_range v = false -> side_out_of_range v = false ->
  addSolutionToResult v r pc = push r (make_solution (modeOutConv r) v).
Proof.
  intros Hc Ha Hs. unfold addSolutionToResult.
  rewrite conflict_loop_none, Ha, Hs.
  - now destruct (3 <? pc)%Z.
  - intros i Hi. apply in_seq in Hi. apply Hc.
    change (List.length order) with 6%nat in Hi. lia.
Qed.

Lemma round_trip_array (m : string) (a b c alpha beta gamma : R) :
  m = "deg"%string \/ m = "rad"%string ->
  triangle a b c alpha beta gamma ->
  forall s,
  s = make_solution (outConv m)
        [Some (Fin a); Some (Fin gamma); Some (Fin b);
         Some (Fin alpha); Some (Fin c); Some (Fin beta)] ->
  solve (feed_back s (Some m))
  = push (initial_result (feed_back s (Some m)) m) s.
Proof.
  intros Hm T s Hs.
  pose proof (TriangleFacts.law_of_cosines T) as Ca.
  pose proof (TriangleFacts.law_of_cosines (TriangleFacts.triangle_rot T)) as Cb.
  destruct T as (Ha & Hb & Hc & Hal & Hbe & Hga & Hsum & _).
  assert (exists k, outConv m = Fin k /\ modeInConv m = Fin (1 / k)
                    /\ (0 < k)%R) as (k & Ek & Ek' & Hk).
  { pose proof PI_RGT_0.
    destruct Hm as [-> | ->]; unfold outConv, modeInConv; cbn [String.eqb Ascii.eqb Bool.eqb].
    - rewrite NumFacts.toDeg_eq, NumFacts.toRad_eq. exists (180 / PI)%R.
      repeat split. + f_equal. field. lra. + apply Rdiv_lt_0_compat; lra.
    - exists 1%R. repeat split. + f_equal. lra. + lra. }
  assert (Ea : sol_a s = Some (Fin a)) by now subst s.
  assert (Eb : sol_b s = Some (Fin b)) by now subst s.
  assert (Ec : sol_c s = Some (Fin c)) by now subst s.
  assert (Eal : sol_alpha s = Fin (k * alpha))
    by (subst s; cbn [make_solution sol_alpha]; now rewrite Ek).
  assert (Ebe : sol_beta s = Fin (k * beta))
    by (subst s; cbn [make_solution sol_beta]; now rewrite Ek).
  assert (Ega : sol_gamma s = Fin (k * gamma))
    by (subst s; cbn [make_solution sol_gamma]; now rewrite Ek).
  assert (Kal : (k * alpha * (1 / k))%R = alpha) by (field; lra).
  assert (Kbe : (k * beta * (1 / k))%R = beta) by (field; lra).
  assert (Kga : (k * gamma * (1 / k))%R = gamma) by (field; lra).
  assert (Hmode : mode_of (feed_back s (Some m)) = m) by reflexivity.
  rewrite solve_accepted.
  2:{ unfold accepted. rewrite Hmode.
      cbn [feed_back in_a in_b in_c in_alpha in_beta in_gamma].
      rewrite Ea, Eb, Ec, Eal, Ebe, Ega, Ek'.
      cbn [as_param kept scaled side_slot angle_slot Num.mul].
      rewrite Kal, Kbe, Kga.
      unfold illegal_side, illegal_angle, angleSum, Math.PI.
      cbn [Num.isNaN Num.le Num.ge orb].
      repeat decide_R. auto 10. }
  unfold validated_array, firstSide, firstAngle, sideCount, angleCount.
  rewrite Hmode.
  cbn [feed_back in_a in_b in_c in_alpha in_beta in_gamma].
  rewrite Ea, Eb, Ec, Eal, Ebe, Ega, Ek'.
  cbn [as_param kept scaled given first_given Z.add Pos.add Pos.succ
       param_number Num.mul].
  rewrite Kal, Kbe, Kga.
  rewrite dispatch_SSS by lia.
  unfold solve_SSS. list_slots.
  cbn [Num.sq Num.mul Num.add Num.sub Num.div].
  assert (Hbc : (0 < 2 * b * c)%R) by (apply Rmult_lt_0_compat; lra).
  assert (Hac : (0 < 2 * a * c)%R) by (apply Rmult_lt_0_compat; lra).
  rewrite (@NumFacts.Reqb_false (2 * b * c)%R 0%R) by lra.
  rewrite (@NumFacts.Reqb_false (2 * a * c)%R 0%R) by lra.
  rewrite <- Ca.
  replace ((a * a + c * c - b * b) / (2 * a * c))%R with (cos beta)
    by (rewrite Cb; field; lra).
  pose proof (COS_bound alpha). pose proof (COS_bound beta).
  unfold Math.acos, angleSum, Math.PI.
  repeat decide_R. cbn [orb Num.sub].
  rewrite !acos_cos by lra.
  replace (PI - alpha - beta)%R with gamma by lra.
  cbn [existsb truthy Num.truthy negb orb].
  repeat decide_R. cbn [negb orb].
  set (r0 := initial_result (feed_back s (Some m)) m).
  assert (Hconv : modeOutConv r0 = Fin k).
  { rewrite <- Ek. destruct Hm as [-> | ->]; reflexivity. }
  rewrite addSolutionToResult_agrees.
  - rewrite Hconv, <- Ek. f_equal. symmetry. exact Hs.
  - rewrite Hconv. intros i Hi.
    assert (i = 0 \/ i = 1 \/ i = 2 \/ i = 3 \/ i = 4 \/ i = 5)%nat
      as [-> | [-> | [-> | [-> | [-> | ->]]]]] by lia.
    all: unfold conflicting, calculatedValue, r0, initial_result.
    all: cbn [nth order prop String.eqb Ascii.eqb Bool.eqb res_a res_b res_c
              res_alpha res_beta res_gamma feed_back in_a in_b in_c in_alpha
              in_beta in_gamma Nat.odd Nat.even Z.of_nat Pos.of_succ_nat
              Pos.succ].
    all: rewrite ?Ea, ?Eb, ?Ec, ?Eal, ?Ebe, ?Ega.
    all: cbn [as_param kept]; list_slots.
    all: cbn [Num.mul Nat.odd Nat.even negb].
    all: match goal with
         | |- _ && negb (equalFloat (Fin ?x) (Fin ?x) tolerance) = false =>
             rewrite (proj2 (equalFloat_finite x x))
               by (rewrite Rminus_diag, Rabs_R0; lra)
         end.
    all: apply andb_false_r.
  - unfold angle_out_of_range. list_slots. cbn [existsb].
    rewrite !angle_out_Fin. repeat decide_R. reflexivity.
  - unfold side_out_of_range. list_slots. cbn [existsb].
    rewrite !side_out_Fin. repeat decide_R. reflexivity.
Qed.

Lemma outConv_solve t :
  mode_of t = "deg"%string \/ mode_of t = "rad"%string ->
  modeOutConv (solve t) = outConv (mode_of t).
Proof.
  intros Hm. destruct (solve_sound t) as (Hmode & _ & _).
  unfold modeOutConv, outConv. rewrite Hmode. unfold initial_result.
  cbn [res_mode]. destruct Hm as [-> | ->]; reflexivity.
Qed.

Lemma solve_equilateral :
  solve equilateral
  = push (initial_result equilateral "deg") equilateral_solution.
Proof.
  rewrite solve_accepted.
  2:{ unfold accepted; js_eval; auto 10. }
  unfold validated_array, firstSide, firstAngle, sideCount, angleCount.
  cbn [equilateral in_a in_b in_c in_alpha in_beta in_gamma kept
       param_number given first_given scaled Z.add Pos.add mode_of in_mode].
  rewrite dispatch_SSS by lia. unfold solve_SSS.
  num_eval.
  replace ((1 * 1 + 1 * 1 - 1 * 1) / (2 * 1 * 1))%R with (1 / 2)%R by lra.
  num_eval. rewrite acos_half. num_eval.
  change (0 + 3)%Z with 3%Z. rewrite addSolutionToResult_3.
  unfold angle_out_of_range, side_out_of_range. list_slots.
  cbn [existsb]. rewrite !angle_out_Fin, !side_out_Fin.
  repeat decide_R. reflexivity.
Qed.

Lemma finite_equilateral_solution : finite_solution equilateral_solution.
Proof.
  unfold finite_solution, equilateral_solution.
  cbn [make_solution sol_a sol_b sol_c sol_alpha sol_beta sol_gamma].
  list_slots. rewrite NumFacts.toDeg_eq. cbn [Num.mul].
  do 6 eexists. repeat split.
Qed.


(** * Three points *)

Module PointFacts.

Local Open Scope R_scope.

Lemma sum_squares_pos p q : p <> 0 \/ q <> 0 -> 0 < p * p + q * q.
Proof.
  intros H.
  pose proof (Rle_0_sqr p) as Hp. pose proof (Rle_0_sqr q) as Hq.
  unfold Rsqr in *.
  destruct H as [H | H]; apply Rsqr_pos_lt in H; unfold Rsqr in H; lra.
Qed.

Lemma square_bound n d : 0 < d -> n * n < d * d -> - d < n < d.
Proof. intros Hd H. split; nra. Qed.

(** With three points that are not on a line, the sides are positive and
    the ratio of the law of cosines at the first point is strictly
    between -1 and 1. *)
Lemma noncollinear_ratio xA yA xB yB xC yC :
  (xB - xA) * (yC - yA) - (xC - xA) * (yB - yA) <> 0 ->
  let a := sqrt ((xB - xC) * (xB - xC) + (yB - yC) * (yB - yC)) in
  let b := sqrt ((xC - xA) * (xC - xA) + (yC - yA) * (yC - yA)) in
  let c := sqrt ((xA - xB) * (xA - xB) + (yA - yB) * (yA - yB)) in
  0 < a /\ 0 < b /\ 0 < c /\
  -1 < (b * b + c * c - a * a) / (2 * b * c) < 1.
Proof.
  intros Hx a b c.
  assert (Pa : 0 < (xB - xC) * (xB - xC) + (yB - yC) * (yB - yC)).
  { apply sum_squares_pos.
    destruct (Req_dec (xB - xC) 0) as [E1|]; [|now left].
    destruct (Req_dec (yB - yC) 0) as [E2|]; [|now right].
    exfalso. apply Hx. replace xC with xB by lra. replace yC with yB by lra.
    ring. }
  assert (Pb : 0 < (xC - xA) * (xC - xA) + (yC - yA) * (yC - yA)).
  { apply sum_squares_pos.
    destruct (Req_dec (xC - xA) 0) as [E1|]; [|now left].
    destruct (Req_dec (yC - yA) 0) as [E2|]; [|now right].
    exfalso. apply Hx. rewrite E1, E2. ring. }
  assert (Pc : 0 < (xA - xB) * (xA - xB) + (yA - yB) * (yA - yB)).
  { apply sum_squares_pos.
    destruct (Req_dec (xA - xB) 0) as [E1|]; [|now left].
    destruct (Req_dec (yA - yB) 0) as [E2|]; [|now right].
    exfalso. apply Hx. replace xB with xA by lra. replace yB with yA by lra.
    ring. }
  assert (Ha : 0 < a) by (apply sqrt_lt_R0; assumption).
  assert (Hb : 0 < b) by (apply sqrt_lt_R0; assumption).
  assert (Hc : 0 < c) by (apply sqrt_lt_R0; assumption).
  assert (Ea : a * a = (xB - xC) * (xB - xC) + (yB - yC) * (yB - yC))
    by (apply sqrt_sqrt; lra).
  assert (Eb : b * b = (xC - xA) * (xC - xA) + (yC - yA) * (yC - yA))
    by (apply sqrt_sqrt; lra).
  assert (Ec : c * c = (xA - xB) * (xA - xB) + (yA - yB) * (yA - yB))
    by (apply sqrt_sqrt; lra).
  repeat split; try assumption.
  all: assert (Hd : 0 < 2 * b * c) by (apply Rmult_lt_0_compat; lra).
  all: assert (Hcross : 0 < ((xB - xA) * (yC - yA) - (xC - xA) * (yB - yA))
                          * ((xB - xA) * (yC - yA) - (xC - xA) * (yB - yA)))
         by (apply Rsqr_pos_lt in Hx; exact Hx).
  all: assert (Hsq : (b * b + c * c - a * a) * (b * b + c * c - a * a)
                     < (2 * b * c) * (2 * b * c)).
  all: try (replace (2 * b * c * (2 * b * c)) with (4 * (b * b) * (c * c))
              by ring; rewrite Ea, Eb, Ec; nra).
  all: destruct (square_bound Hd Hsq) as [L U].
  - apply TriangleFacts.div_gt_m1; assumption.
  - apply TriangleFacts.div_lt_1; assumption.
Qed.

End PointFacts.

Lemma checkCoordinate_point rep x y :
  checkCoordinate (point rep x y) = Return true.
Proof. destruct rep; reflexivity. Qed.

Lemma pointToArray_point rep x y :
  pointToArray (point rep x y) = Return (point AsArray x y).
Proof. destruct rep; reflexivity. Qed.

Lemma distance_point r1 r2 x1 y1 x2 y2 :
  distance (point r1 x1 y1) (point r2 x2 y2)
  = Return (Fin (sqrt ((x1 - x2) * (x1 - x2) + (y1 - y2) * (y1 - y2)))).
Proof. destruct r1, r2; reflexivity. Qed.

Lemma barycentricToCartesian_arrays x1 y1 x2 y2 x3 y3 b1 b2 b3 :
  barycentricToCartesian (point AsArray x1 y1) (point AsArray x2 y2)
    (point AsArray x3 y3) [b1; b2; b3]
  = Return
      {| px := Fin 0 + b1 / (Fin 0 + b1 + b2 + b3) * Fin x1
               + b2 / (Fin 0 + b1 + b2 + b3) * Fin x2
               + b3 / (Fin 0 + b1 + b2 + b3) * Fin x3;
         py := Fin 0 + b1 / (Fin 0 + b1 + b2 + b3) * Fin y1
               + b2 / (Fin 0 + b1 + b2 + b3) * Fin y2
               + b3 / (Fin 0 + b1 + b2 + b3) * Fin y3 |}.
Proof. reflexivity. Qed.

Arguments point : simpl never.

(** With exact arithmetic: for three points with finite coordinates that
    are not on one line, and a valid mode, [solvePoints] returns exactly
    one solution and no error; its sides [a], [b], [c] are
    [distance(B, C)], [distance(C, A)] and [distance(A, B)], its angles
    sum to 180 (to pi in radian mode), and its centroid is the mean of the
    three points. *)
Lemma noncollinear_points_solved (rA rB rC : representation)
    (xA yA xB yB xC yC : R) (mode : option string) :
  valid_mode mode ->
  ((xB - xA) * (yC - yA) - (xC - xA) * (yB - yA) <> 0)%R ->
  exists r s,
    solvePoints (point rA xA yA) (point rB xB yB) (point rC xC yC) mode
    = Return r /\
    pr_solutions r = [s] /\ pr_error r = None /\
    distance (point rB xB yB) (point rC xC yC) = Return (ps_a s) /\
    distance (point rC xC yC) (point rA xA yA) = Return (ps_b s) /\
    distance (point rA xA yA) (point rB xB yB) = Return (ps_c s) /\
    ps_alpha s + ps_beta s + ps_gamma s = full_angle mode /\
    ps_centroid s = {| px := Fin ((xA + xB + xC) / 3);
                       py := Fin ((yA + yB + yC) / 3) |}.
Proof.
  intros Hmode Hx.
  destruct (PointFacts.noncollinear_ratio Hx)
    as (Ha & Hb & Hc & HrA).
  cbv zeta in *.
  set (a := sqrt ((xB - xC) * (xB - xC) + (yB - yC) * (yB - yC))) in *.
  set (b := sqrt ((xC - xA) * (xC - xA) + (yC - yA) * (yC - yA))) in *.
  set (c := sqrt ((xA - xB) * (xA - xB) + (yA - yB) * (yA - yB))) in *.
  destruct (TriangleFacts.ratio_triangle_inequality Ha Hb Hc HrA)
    as (T1 & T2 & T3).
  assert (HrB : (-1 < (a * a + c * c - b * b) / (2 * a * c) < 1)%R)
    by (apply TriangleFacts.inequality_ratio; lra).
  destruct (TriangleFacts.SSS_triangle Ha Hb Hc HrA)
    as (_ & _ & _ & Hal & Hbe & Hga & _).
  assert (Hbc : (0 < 2 * b * c)%R) by (apply Rmult_lt_0_compat; lra).
  assert (Hac : (0 < 2 * a * c)%R) by (apply Rmult_lt_0_compat; lra).
  destruct Hmode as [-> | [-> | ->]].
  all: unfold solvePoints.
  all: cbn [check_loop nth]; rewrite !checkCoordinate_point.
  all: cbn [bind negb check_loop].
  all: cbn [duplicate_loop nth Nat.modulo Nat.add Nat.divmod fst snd Nat.sub].
  all: rewrite !distance_point; fold a b c.
  all: cbn [bind Num.eq].
  all: rewrite (@NumFacts.Reqb_false a 0%R), (@NumFacts.Reqb_false b 0%R),
         (@NumFacts.Reqb_false c 0%R) by lra.
  all: cbn [bind Num.sq Num.mul Num.add Num.sub Num.div String.eqb Ascii.eqb
            Bool.eqb negb andb].
  all: rewrite (@NumFacts.Reqb_false (2 * b * c)%R 0%R) by lra.
  all: rewrite (@NumFacts.Reqb_false (2 * a * c)%R 0%R) by lra.
  all: unfold Math.acos, angleSum, Math.PI.
  all: rewrite (@NumFacts.Rltb_false _ (-1)%R) by lra.
  all: rewrite (@NumFacts.Rltb_false 1%R) by lra.
  all: rewrite (@NumFacts.Rltb_false _ (-1)%R) by lra.
  all: rewrite (@NumFacts.Rltb_false 1%R) by lra.
  all: cbn [orb Num.sub existsb Num.truthy].
  all: set (alpha := acos ((b * b + c * c - a * a) / (2 * b * c))) in *.
  all: set (beta := acos ((a * a + c * c - b * b) / (2 * a * c))) in *.
  all: rewrite (@NumFacts.Reqb_false alpha 0%R),
         (@NumFacts.Reqb_false beta 0%R),
         (@NumFacts.Reqb_false (PI - alpha - beta)%R 0%R) by lra.
  all: cbn [negb orb].
  all: rewrite !pointToArray_point; cbn [bind].
  all: rewrite !barycentricToCartesian_arrays; cbn [bind].
  all: do 2 eexists; split; [reflexivity|].
  all: cbn [pr_solutions pr_error ps_a ps_b ps_c ps_alpha ps_beta ps_gamma
            ps_centroid].
  all: repeat split.
  all: cbn [ps_alpha ps_beta ps_gamma ps_centroid full_angle String.eqb
            Ascii.eqb Bool.eqb].
  all: rewrite ?NumFacts.toDeg_eq; unfold Math.PI.
  all: repeat first [progress cbn [Num.add Num.div Num.mul] | decide_R].
  all: pose proof PI_RGT_0.
  all: lazymatch goal with
       | |- Fin _ = Fin _ => apply f_equal
       | |- Build_Point _ _ = _ => apply f_equal2; apply f_equal
       | _ => idtac
       end.
  all: first [reflexivity | lra | field; lra].
Qed.

(** Three different points on a line: [solvePoints([0, 0], [1, 0], [2, 0])]
    returns no solution and the error of the impossible side lengths. *)
Lemma collinear_points_unsolved :
  checkCoordinate (point AsArray 0 0) = Return true /\
  checkCoordinate (point AsArray 1 0) = Return true /\
  checkCoordinate (point AsArray 2 0) = Return true /\
  distance (point AsArray 0 0) (point AsArray 1 0) = Return (Fin 1) /\
  distance (point AsArray 1 0) (point AsArray 2 0) = Return (Fin 1) /\
  distance (point AsArray 2 0) (point AsArray 0 0) = Return (Fin 2) /\
  solvePoints (point AsArray 0 0) (point AsArray 1 0) (point AsArray 2 0) None
  = Return {| pr_A := point AsArray 0 0; pr_B := point AsArray 1 0;
              pr_C := point AsArray 2 0; pr_mode := "deg";
              pr_solutions := [];
              pr_error := Some (ImpossibleSides (Fin 1) (Fin 2) (Fin 1)) |}.
Proof.
  assert (E1 : sqrt ((0 - 1) * (0 - 1) + (0 - 0) * (0 - 0)) = 1%R).
  { replace ((0 - 1) * (0 - 1) + (0 - 0) * (0 - 0))%R with 1%R by lra.
    apply sqrt_1. }
  assert (E2 : sqrt ((1 - 2) * (1 - 2) + (0 - 0) * (0 - 0)) = 1%R).
  { replace ((1 - 2) * (1 - 2) + (0 - 0) * (0 - 0))%R with 1%R by lra.
    apply sqrt_1. }
  assert (E3 : sqrt ((2 - 0) * (2 - 0) + (0 - 0) * (0 - 0)) = 2%R).
  { replace ((2 - 0) * (2 - 0) + (0 - 0) * (0 - 0))%R with (2 * 2)%R by lra.
    apply sqrt_square. lra. }
  rewrite !checkCoordinate_point, !distance_point, E1, E2, E3.
  repeat (split; [reflexivity|]).
  unfold solvePoints.
  cbn [check_loop nth]; rewrite !checkCoordinate_point.
  cbn [bind negb check_loop].
  cbn [duplicate_loop nth Nat.modulo Nat.add Nat.divmod fst snd Nat.sub].
  rewrite !distance_point, E1, E2, E3.
  cbn [bind Num.eq]. repeat decide_R.
  cbn [bind Num.sq Num.mul Num.add Num.sub Num.div String.eqb Ascii.eqb
       Bool.eqb negb andb].
  repeat decide_R.
  replace ((2 * 2 + 1 * 1 - 1 * 1) / (2 * 2 * 1))%R with 1%R by lra.
  unfold Math.acos. repeat decide_R. cbn [orb]. rewrite acos_1.
  cbn [existsb Num.truthy]. repeat decide_R. reflexivity.
Qed.

(** * distance *)

Lemma hypot_sub_sym (x y u v : num) :
  Math.hypot (x - y) (u - v) = Math.hypot (y - x) (v - u).
Proof.
  destruct x as [|[]|x], y as [|[]|y], u as [|[]|u], v as [|[]|v];
    try reflexivity.
  cbn. f_equal. f_equal. ring.
Qed.

(** X4.  [distance] does not depend on the order of its two points: both
    orders throw, or both return the same number. *)
Theorem distance_symmetric (p1 p2 : jsval) :
  distance p1 p2 = distance p2 p1.
Proof.
  unfold distance.
  destruct (pointToArray p1) as [a1|[]], (pointToArray p2) as [a2|[]];
    cbn [bind]; try reflexivity.
  destruct a1, a2; cbn [index bind]; try reflexivity;
    now rewrite hypot_sub_sym.
Qed.

Module MetricFacts.

Local Open Scope R_scope.

Lemma sqrt_sum_squares_zero p q : sqrt (p * p + q * q) = 0 -> p = 0 /\ q = 0.
Proof.
  intros H.
  pose proof (Rle_0_sqr p) as Hp. pose proof (Rle_0_sqr q) as Hq.
  unfold Rsqr in *.
  apply sqrt_eq_0 in H; [|lra].
  split; apply Rsqr_0_uniq; unfold Rsqr; lra.
Qed.

End MetricFacts.

(** X5.  [distance] between two points with finite coordinates is never
    negative, and it is 0 exactly when the two points have the same
    coordinates; the representations of the points do not matter. *)
Theorem distance_zero_iff (rP rQ : representation) (xP yP xQ yQ : R) :
  exists d : num,
    distance (point rP xP yP) (point rQ xQ yQ) = Return d /\
    (d <? Fin 0) = false /\
    ((d ==? Fin 0) = true <-> xP = xQ /\ yP = yQ).
Proof.
  rewrite distance_point. eexists. split; [reflexivity|].
  cbn [Num.lt Num.eq]. split.
  - apply NumFacts.Rltb_false. pose proof (sqrt_pos
      ((xP - xQ) * (xP - xQ) + (yP - yQ) * (yP - yQ))). lra.
  - rewrite NumFacts.Reqb_spec. split.
    + intros E. apply MetricFacts.sqrt_sum_squares_zero in E. split; lra.
    + intros [-> ->].
      replace ((xQ - xQ) * (xQ - xQ) + (yQ - yQ) * (yQ - yQ))%R with 0%R
        by ring.
      apply sqrt_0.
Qed.

(** * Exceptions of the coordinate functions *)











(** * Repeated coordinates *)

(** X8.  Two of three points with finite coordinates coincide: [solvePoints]
    returns no solution and the error "Repeated Coordinates" for the first
    coinciding pair among A and B, B and C, C and A, whatever the mode is. *)
Theorem repeated_points_reported (rA rB rC : representation)
    (xA yA xB yB xC yC : R) (mode : option string) :
  (xA = xB /\ yA = yB) \/ (xB = xC /\ yB = yC) \/ (xC = xA /\ yC = yA) ->
  let A := point rA xA yA in
  let B := point rB xB yB in
  let C := point rC xC yC in
  solvePoints A B C mode
  = Return (points_error (points_initial A B C mode)
              (if Num.Reqb xA xB && Num.Reqb yA yB
               then RepeatedCoordinates "A" A "B" B
               else if Num.Reqb xB xC && Num.Reqb yB yC
               then RepeatedCoordinates "B" B "C" C
               else RepeatedCoordinates "C" C "A" A)).
Proof.
  intros H A B C. unfold solvePoints, A, B, C.
  cbn [check_loop nth]; rewrite !checkCoordinate_point.
  cbn [bind negb check_loop].
  cbn [duplicate_loop nth Nat.modulo Nat.add Nat.divmod fst snd Nat.sub].
  rewrite !distance_point. cbn [bind Num.eq].
  assert (Hz : forall p q,
            Num.Reqb (sqrt ((p * p) + (q * q))) 0
            = Num.Reqb p 0 && Num.Reqb q 0).
  { intros p q. destruct (Num.Reqb (sqrt (p * p + q * q)) 0) eqn:E.
    - apply NumFacts.Reqb_spec, MetricFacts.sqrt_sum_squares_zero in E.
      destruct E as [-> ->]. now rewrite !NumFacts.Reqb_true.
    - apply NumFacts.Reqb_nspec in E.
      destruct (Num.Reqb p 0) eqn:Ep, (Num.Reqb q 0) eqn:Eq; try reflexivity.
      apply NumFacts.Reqb_spec in Ep, Eq. subst.
      contradiction E. rewrite Rmult_0_l, Rplus_0_l. apply sqrt_0. }
  assert (Hd : forall p q, Num.Reqb (p - q) 0 = Num.Reqb p q).
  { intros p q. destruct (Num.Reqb p q) eqn:E.
    - apply NumFacts.Reqb_spec in E. apply NumFacts.Reqb_true. lra.
    - apply NumFacts.Reqb_nspec in E. apply NumFacts.Reqb_false. lra. }
  rewrite !Hz, !Hd.
  destruct (Num.Reqb xA xB && Num.Reqb yA yB) eqn:E1; [reflexivity|].
  cbn [bind].
  destruct (Num.Reqb xB xC && Num.Reqb yB yC) eqn:E2; [reflexivity|].
  cbn [bind].
  destruct (Num.Reqb xC xA && Num.Reqb yC yA) eqn:E3; [reflexivity|].
  exfalso.
  destruct H as [[-> ->]|[[-> ->]|[-> ->]]].
  - now rewrite !NumFacts.Reqb_true in E1.
  - now rewrite !NumFacts.Reqb_true in E2.
  - now rewrite !NumFacts.Reqb_true in E3.
Qed.

(** [solvePoints([1, 2], {x: 1, y: 2}, {X: 3, Y: 4})] *)
Lemma repeated_points_reported_witness :
  solvePoints (point AsArray 1 2) (point As_xy 1 2) (point As_XY 3 4) None
  = Return (points_error
              (points_initial (point AsArray 1 2) (point As_xy 1 2)
                 (point As_XY 3 4) None)
              (RepeatedCoordinates "A" (point AsArray 1 2)
                 "B" (point As_xy 1 2))).
Proof.
  pose proof (@repeated_points_reported AsArray As_xy As_XY 1 2 1 2 3 4 None
                (or_introl (conj eq_refl eq_refl))) as H.
  cbv zeta in H. rewrite !NumFacts.Reqb_true in H by reflexivity.
  exact H.
Defined.

(** * The run of [solve] *)

(** A run of [solve] ends with an error set on the initial result, or the
    input is accepted and falls into one of the seven cases. *)
Lemma solve_run t :
  (exists e, solve t = set_error (initial_result t (mode_of t)) e) \/
  (accepted t /\ exists c, classification t = Some c).
Proof.
  assert (Hacc : (exists e, solve t = set_error (initial_result t (mode_of t)) e)
                 \/ accepted t).
  { unfold solve, accepted.
    destruct (negb (String.eqb (mode_of t) "deg")
              && negb (String.eqb (mode_of t) "rad")) eqn:Hmode; [eauto|].
    apply mode_cases in Hmode. cbv zeta.
    change (res_a (initial_result t (mode_of t))) with (kept (in_a t)).
    change (res_b (initial_result t (mode_of t))) with (kept (in_b t)).
    change (res_c (initial_result t (mode_of t))) with (kept (in_c t)).
    change (res_alpha (initial_result t (mode_of t))) with (kept (in_alpha t)).
    change (res_beta (initial_result t (mode_of t))) with (kept (in_beta t)).
    change (res_gamma (initial_result t (mode_of t))) with (kept (in_gamma t)).
    unfold analyse.
    pose proof (sides_loop_spec (kept (in_a t)) (kept (in_gamma t))
                  (kept (in_b t)) (kept (in_alpha t)) (kept (in_c t))
                  (kept (in_beta t))) as Hs.
    destruct (sides_loop _ _ _ _) as [e|[[v fs] sc]]; [eauto|].
    destruct Hs as (-> & Sa & Sb & Sc & -> & ->).
    pose proof (angles_loop_spec (modeInConv (mode_of t)) (kept (in_a t))
                  (kept (in_gamma t)) (kept (in_b t)) (kept (in_alpha t))
                  (kept (in_c t)) (kept (in_beta t))) as Hs.
    destruct (angles_loop _ _ _ _ _) as [e|[[v fa] ac]]; [eauto|].
    destruct Hs as (-> & Sg & Sal & Sbe & -> & ->).
    right. auto 10. }
  destruct Hacc as [H|Hacc]; [now left|].
  destruct (classification t) as [c|] eqn:Hcl; [right; eauto|].
  left. rewrite (solve_accepted Hacc), dispatch_classify.
  unfold classification in Hcl.
  destruct (_ <? 3)%Z eqn:Hpc; [eauto|].
  destruct (_ =? 0)%Z eqn:Hsc; [eauto|].
  exfalso.
  destruct Hacc as (_ & Ha & Hb & Hc & Hal & Hbe & Hga).
  unfold validated_array, firstSide, firstAngle, sideCount, angleCount in *.
  destruct (kept (in_a t)) as [na|], (kept (in_gamma t)) as [nga|],
    (kept (in_b t)) as [nb|], (kept (in_alpha t)) as [nal|],
    (kept (in_c t)) as [nc|], (kept (in_beta t)) as [nbe|];
    cbn [scaled side_slot angle_slot] in *.
  all: repeat match goal with
       | H : illegal_side ?n = false |- _ =>
           lazymatch goal with
           | _ : Num.truthy n = true |- _ => fail
           | _ => pose proof (NumFacts.legal_side_truthy _ H)
           end
       | H : illegal_angle ?n = false |- _ =>
           lazymatch goal with
           | _ : Num.truthy n = true |- _ => fail
           | _ => pose proof (NumFacts.legal_angle_truthy _ H)
           end
       end.
  all: cbv -[Num.truthy Num.mul modeInConv mode_of] in Hcl.
  all: repeat match goal with
       | H : Num.truthy ?n = true, H' : context [Num.truthy ?n] |- _ =>
           rewrite H in H'
       end; cbv beta iota in Hcl.
  all: try discriminate Hcl.
  all: cbv in Hpc, Hsc; first [discriminate Hpc | discriminate Hsc].
Qed.

Lemma same_parameters_refl r : same_parameters r r.
Proof. repeat split. Qed.

Lemma same_parameters_add v r r' pc :
  same_parameters r r' -> same_parameters (addSolutionToResult v r pc) r'.
Proof.
  intros H.
  destruct (addSolutionToResult_shape v r pc) as [[e ->]|(-> & _)]; exact H.
Qed.

(** X9.  The result of [solve] carries the parameters as they were given,
    those given as [undefined] or as the empty string being absent, and the
    mode; only the solutions and the error are added. *)
Theorem solve_keeps_parameters (t : triangleToSolve) :
  res_a (solve t) = kept (in_a t) /\ res_b (solve t) = kept (in_b t) /\
  res_c (solve t) = kept (in_c t) /\
  res_alpha (solve t) = kept (in_alpha t) /\
  res_beta (solve t) = kept (in_beta t) /\
  res_gamma (solve t) = kept (in_gamma t) /\
  res_mode (solve t)
  = (if String.eqb (mode_of t) "" then None else Some (mode_of t)).
Proof.
  change (same_parameters (solve t) (initial_result t (mode_of t))).
  apply solve_cases; intros.
  - repeat split.
  - unfold solve_SSS. destruct (existsb _ _);
      [|apply same_parameters_add]; repeat split.
  - apply same_parameters_add; repeat split.
  - apply same_parameters_add; repeat split.
  - apply same_parameters_add; repeat split.
  - apply same_parameters_add; repeat split.
  - unfold solve_SSA. destruct (_ >? _); [repeat split|].
    destruct (_ >=? _); repeat apply same_parameters_add; repeat split.
  - unfold solve_ASS. destruct (_ >? _); [repeat split|].
    destruct (_ >=? _); repeat apply same_parameters_add; repeat split.
Qed.

Lemma length_add v r pc :
  (List.length (solutions (addSolutionToResult v r pc))
   <= S (List.length (solutions r)))%nat.
Proof.
  destruct (addSolutionToResult_shape v r pc) as [[e ->]|(-> & _)].
  - rewrite solutions_set_error. lia.
  - cbn [push solutions]. rewrite length_app. cbn. lia.
Qed.

(** X10.  [solve] returns at most two solutions, and two only in the cases SSA
    and ASS: two sides and an angle opposite to one of them. *)
Theorem at_most_two_solutions (t : triangleToSolve) :
  (List.length (solutions (solve t)) <= 2)%nat /\
  ((2 <= List.length (solutions (solve t)))%nat ->
   classification t = Some SSA \/ classification t = Some ASS).
Proof.
  destruct (solve_run t) as [[e ->]|(Hacc & c & Hcl)].
  - rewrite solutions_set_error.
    change (solutions (initial_result t (mode_of t))) with (@nil triangleSolution).
    cbn [List.length]. split; [lia | intros H; exfalso; lia].
  - rewrite (classification_dispatch Hacc Hcl), Hcl.
    assert (H0 : List.length (solutions (initial_result t (mode_of t))) = 0%nat)
      by reflexivity.
    revert H0. generalize (initial_result t (mode_of t)). intros r0 H0.
    destruct c.
    all: unfold solve_SSS, solve_ASA, solve_SAS, solve_SAA, solve_AAS,
           solve_SSA, solve_ASS.
    all: repeat match goal with
         | |- context [if ?b then _ else _] =>
             lazymatch b with
             | context [if _ then _ else _] => fail
             | _ => destruct b
             end
         end.
    all: rewrite ?solutions_set_error.
    all: repeat match goal with
         | |- context [addSolutionToResult ?v ?r ?pc] =>
             lazymatch goal with
             | _ : (List.length (solutions (addSolutionToResult v r pc))
                    <= _)%nat |- _ => fail
             | _ => pose proof (length_add v r pc)
             end
         end.
    all: split; [lia | first [now auto | intros H'; exfalso; lia]].
Qed.

(** X11.  [solve] emits a solution only for a valid input: the mode is ["deg"]
    or ["rad"], every given side and angle is legal, and at least three
    parameters, one of them a side, are given. *)
Theorem solutions_only_for_valid_input (t : triangleToSolve) :
  solutions (solve t) <> [] ->
  accepted t /\ (3 <= parameterCount t)%Z /\ (1 <= sideCount t)%Z.
Proof.
  intros Hs.
  destruct (solve_run t) as [[e He]|(Hacc & c & Hcl)].
  - exfalso. apply Hs. rewrite He, solutions_set_error. reflexivity.
  - split; [exact Hacc|].
    unfold classification, parameterCount in *.
    destruct (Z.ltb_spec (angleCount t + sideCount t) 3); [discriminate|].
    destruct (Z.eqb_spec (sideCount t) 0); [discriminate|].
    split; [assumption|].
    assert (0 <= sideCount t)%Z; [|lia].
    unfold sideCount.
    destruct (kept (in_a t)), (kept (in_b t)), (kept (in_c t)); cbn; lia.
Qed.

Lemma solutions_only_for_valid_input_witness :
  accepted equilateral /\ (3 <= parameterCount equilateral)%Z /\
  (1 <= sideCount equilateral)%Z.
Proof.
  apply (@solutions_only_for_valid_input equilateral).
  rewrite solve_equilateral. discriminate.
Defined.

(** * Solutions and the given parameters *)

Lemma conflict_loop_none_inv conv v r idxs :
  conflict_loop idxs conv v r = None ->
  forall i, In i idxs -> conflicting conv v r i = false.
Proof.
  induction idxs as [|j idxs IH]; intros H i Hi; [destruct Hi|].
  cbn [conflict_loop] in H.
  destruct (conflicting conv v r j) eqn:E; [discriminate|].
  destruct Hi as [<- | Hi]; auto.
Qed.

Lemma in_addSolutionToResult v r pc s :
  In s (solutions (addSolutionToResult v r pc)) ->
  In s (solutions r) \/
  (s = make_solution (modeOutConv r) v /\
   ((3 < pc)%Z ->
    forall i, (i < 6)%nat -> conflicting (modeOutConv r) v r i = false)).
Proof.
  unfold addSolutionToResult.
  destruct (Z.ltb_spec 3 pc) as [Hpc|Hpc].
  - destruct (conflict_loop _ _ _ _) eqn:E; [now left|].
    destruct (angle_out_of_range v); [now left|].
    destruct (side_out_of_range v); [now left|].
    cbn [push solutions]. intros [H|[<-|[]]]%in_app_or; [now left|].
    right. split; [reflexivity|]. intros _ i Hi.
    apply (conflict_loop_none_inv _ _ _ _ E). apply in_seq.
    change (List.length order) with 6%nat. lia.
  - destruct (angle_out_of_range v); [now left|].
    destruct (side_out_of_range v); [now left|].
    cbn [push solutions]. intros [H|[<-|[]]]%in_app_or; [now left|].
    right. split; [reflexivity|]. lia.
Qed.

Lemma solution_value_calculated conv v i :
  (i < 6)%nat ->
  solution_value (make_solution conv v) (nth i order ""%string)
  = calculatedValue conv v i.
Proof.
  intros Hi.
  assert (i = 0 \/ i = 1 \/ i = 2 \/ i = 3 \/ i = 4 \/ i = 5)%nat
    as [-> | [-> | [-> | [-> | [-> | ->]]]]] by lia; reflexivity.
Qed.

Lemma prop_order r property x :
  prop r property = Some x ->
  exists i, (i < 6)%nat /\ property = nth i order ""%string.
Proof.
  unfold prop.
  destruct (String.eqb_spec property "a"); [exists 0%nat; split; [lia|auto]|].
  destruct (String.eqb_spec property "gamma"); [exists 1%nat; split; [lia|auto]|].
  destruct (String.eqb_spec property "b"); [exists 2%nat; split; [lia|auto]|].
  destruct (String.eqb_spec property "alpha"); [exists 3%nat; split; [lia|auto]|].
  destruct (String.eqb_spec property "c"); [exists 4%nat; split; [lia|auto]|].
  destruct (String.eqb_spec property "beta"); [exists 5%nat; split; [lia|auto]|].
  discriminate.
Qed.

Lemma truthy_factor x y : Num.truthy (x * y) = true -> Num.truthy x = true.
Proof.
  destruct x as [|s|p], y as [|s'|q]; cbn; try discriminate; auto.
  - destruct (Num.Reqb p 0) eqn:E; [discriminate|]. reflexivity.
  - destruct (Num.Reqb p 0) eqn:E; [|reflexivity].
    apply NumFacts.Reqb_spec in E. subst p. rewrite Rmult_0_l.
    now rewrite NumFacts.Reqb_true.
Qed.

(** A parameter given to an accepted input is truthy. *)
Lemma given_truthy t property x :
  accepted t ->
  prop (initial_result t (mode_of t)) property = Some x ->
  Num.truthy x = true.
Proof.
  intros (_ & Ha & Hb & Hc & Hal & Hbe & Hga). unfold prop, initial_result.
  cbn [res_a res_b res_c res_alpha res_beta res_gamma].
  repeat match goal with
  | |- (if ?b then _ else _) = _ -> _ => destruct b
  end; try discriminate; intros E; rewrite E in *;
    cbn [scaled side_slot angle_slot] in *.
  1,3,5: now apply NumFacts.legal_side_truthy.
  all: eapply truthy_factor, NumFacts.legal_angle_truthy; eassumption.
Qed.

(** X12.  When more than three parameters are given, every solution agrees
    with every given parameter within the tolerance 0.001, angles being
    compared in the unit of the mode. *)
Theorem redundant_parameters_agree (t : triangleToSolve)
    (s : triangleSolution) (property : string) (x : num) :
  (3 < parameterCount t)%Z ->
  In s (solutions (solve t)) ->
  prop (initial_result t (mode_of t)) property = Some x ->
  equalFloat x (solution_value s property) tolerance = true.
Proof.
  intros Hpc Hin Hx. unfold parameterCount in Hpc.
  destruct (solve_run t) as [[e He]|(Hacc & c & Hcl)];
    [rewrite He in Hin; destruct Hin|].
  pose proof (given_truthy _ Hacc Hx) as Htruthy.
  destruct (prop_order _ _ Hx) as (i & Hi & ->).
  rewrite (classification_dispatch Hacc Hcl) in Hin.
  assert (Hadd : forall v,
            In s (solutions (addSolutionToResult v
                               (initial_result t (mode_of t))
                               (angleCount t + sideCount t))) ->
            equalFloat x (solution_value s (nth i order ""%string)) tolerance
            = true).
  { intros v [[]|(-> & Hc)]%in_addSolutionToResult.
    specialize (Hc Hpc i Hi). unfold conflicting in Hc.
    rewrite Hx in Hc. cbn [truthy ToNumber] in Hc.
    rewrite Htruthy in Hc. cbn [andb] in Hc.
    rewrite solution_value_calculated by assumption.
    now destruct (equalFloat _ _ _). }
  destruct c.
  - unfold solve_SSS in Hin.
    destruct (existsb _ _); [destruct Hin | eapply Hadd, Hin].
  - eapply Hadd, Hin.
  - eapply Hadd, Hin.
  - eapply Hadd, Hin.
  - eapply Hadd, Hin.
  - destruct (ambiguous_three Hacc Hcl (or_introl eq_refl)) as [E _]. lia.
  - destruct (ambiguous_three Hacc Hcl (or_intror eq_refl)) as [E _]. lia.
Qed.

(** The solution of [solve({a: 1, b: 1, c: 1})], fed back with its six
    quantities in degree mode, is reproduced. *)
Lemma solve_feed_back_equilateral :
  solve (feed_back equilateral_solution (Some "deg"%string))
  = push (initial_result (feed_back equilateral_solution (Some "deg"%string))
            "deg")
      equilateral_solution.
Proof.
  destruct (solve_sound equilateral) as (_ & _ & Hsound).
  assert (Hin : In equilateral_solution (solutions (solve equilateral)))
    by (rewrite solve_equilateral; left; reflexivity).
  destruct (Hsound _ Hin finite_equilateral_solution)
    as (v & (a & b & c & alpha & beta & gamma & -> & T) & Hs).
  rewrite (@outConv_solve equilateral (or_introl eq_refl)) in Hs.
  exact (@round_trip_array "deg" _ _ _ _ _ _ (or_introl eq_refl) T _ Hs).
Qed.

(** [solve] of the fed back solution: the given side [a] is 1, and so is
    the side of the solution. *)
Lemma redundant_parameters_agree_witness :
  equalFloat (Fin 1) (solution_value equilateral_solution "a") tolerance
  = true.
Proof.
  apply (@redundant_parameters_agree
           (feed_back equilateral_solution (Some "deg"%string))
           equilateral_solution "a" (Fin 1)).
  - unfold parameterCount, angleCount, sideCount. cbn. lia.
  - rewrite solve_feed_back_equilateral. left. reflexivity.
  - reflexivity.
Defined.

Lemma prop_initial t m i :
  (i < 6)%nat ->
  prop (initial_result t m) (nth i order ""%string)
  = nth i [kept (in_a t); kept (in_gamma t); kept (in_b t);
           kept (in_alpha t); kept (in_c t); kept (in_beta t)] None.
Proof.
  intros Hi.
  assert (i = 0 \/ i = 1 \/ i = 2 \/ i = 3 \/ i = 4 \/ i = 5)%nat
    as [-> | [-> | [-> | [-> | [-> | ->]]]]] by lia; reflexivity.
Qed.

Lemma modeOutConv_initial t :
  mode_of t = "deg"%string \/ mode_of t = "rad"%string ->
  modeOutConv (initial_result t (mode_of t)) = outConv (mode_of t).
Proof.
  intros Hm. unfold modeOutConv, outConv, initial_result. cbn [res_mode].
  destruct Hm as [-> | ->]; reflexivity.
Qed.

(** The two conversions of radian mode multiply by 1. *)
Lemma one_there_and_back x : Fin 1 * (x * Fin 1) = x.
Proof.
  destruct x as [|s|r]; cbn [Num.mul]; [reflexivity| |f_equal; lra].
  rewrite (@NumFacts.Reqb_false 1%R 0%R), (@NumFacts.Rltb_false 1%R 0%R)
    by lra.
  cbn [Num.mul].
  rewrite (@NumFacts.Reqb_false 1%R 0%R), (@NumFacts.Rltb_false 1%R 0%R)
    by lra.
  now destruct s.
Qed.

(** X13.  When exactly three parameters are given, every solution holds
    each given side unchanged, and each given angle after its conversion
    to radians and back, [modeOutConv * (x * modeInConv)]; in radian mode,
    where both factors are 1, that is the given angle itself. *)
Theorem given_parameters_kept (t : triangleToSolve) (s : triangleSolution)
    (property : string) (x : num) :
  parameterCount t = 3%Z ->
  In s (solutions (solve t)) ->
  prop (initial_result t (mode_of t)) property = Some x ->
  solution_value s property
  = (if is_angle property
     then outConv (mode_of t) * (x * modeInConv (mode_of t)) else x) /\
  (mode_of t = "rad"%string -> solution_value s property = x).
Proof.
  intros Hpc Hin Hx. unfold parameterCount in Hpc.
  destruct (solve_run t) as [[e He]|(Hacc & c & Hcl)];
    [rewrite He in Hin; destruct Hin|].
  destruct (prop_order _ _ Hx) as (i & Hi & ->).
  rewrite prop_initial in Hx by assumption.
  rewrite (classification_dispatch Hacc Hcl), Hpc in Hin.
  pose proof Hacc as (Hm & Ha & Hb & Hc & Hal & Hbe & Hga).
  pose proof (modeOutConv_initial t Hm) as Hconv.
  assert (Hr0 : solutions (initial_result t (mode_of t)) = []) by reflexivity.
  revert Hconv Hr0 Hin.
  generalize (initial_result t (mode_of t)). intros r0 Hconv Hr0 Hin.
  assert (Hadd : forall v r,
            modeOutConv r = outConv (mode_of t) ->
            In s (solutions (addSolutionToResult v r 3)) ->
            In s (solutions r) \/
            solution_value s (nth i order ""%string)
            = calculatedValue (outConv (mode_of t)) v i).
  { intros v r Hr [H|(-> & _)]%in_addSolutionToResult; [now left|right].
    rewrite Hr. now apply solution_value_calculated. }
  assert (Hmode_add : forall v r,
            modeOutConv r = outConv (mode_of t) ->
            modeOutConv (addSolutionToResult v r 3) = outConv (mode_of t)).
  { intros v r Hr. unfold modeOutConv in *. now rewrite res_mode_add. }
  unfold classification, validated_array, firstSide, firstAngle, sideCount,
    angleCount in *.
  clear Hacc.
  generalize dependent (param_number (in_a t)).
  generalize dependent (param_number (in_b t)).
  generalize dependent (param_number (in_c t)).
  intros pc0 pb0 pa0 Hin.
  destruct (kept (in_a t)) as [na|], (kept (in_gamma t)) as [nga|],
    (kept (in_b t)) as [nb|], (kept (in_alpha t)) as [nal|],
    (kept (in_c t)) as [nc|], (kept (in_beta t)) as [nbe|];
    cbn [scaled side_slot angle_slot] in *.
  all: try (cbv in Hpc; discriminate Hpc).
  all: repeat match goal with
       | H : illegal_side ?n = false |- _ =>
           lazymatch goal with
           | _ : Num.truthy n = true |- _ => fail
           | _ => pose proof (NumFacts.legal_side_truthy _ H)
           end
       | H : illegal_angle ?n = false |- _ =>
           lazymatch goal with
           | _ : Num.truthy n = true |- _ => fail
           | _ => pose proof (NumFacts.legal_angle_truthy _ H)
           end
       end.
  all: cbv -[Num.truthy Num.mul modeInConv mode_of] in Hcl.
  all: repeat match goal with
       | H : Num.truthy ?n = true, H' : context [Num.truthy ?n] |- _ =>
           rewrite H in H'
       end; cbv beta iota in Hcl.
  all: try discriminate Hcl.
  all: injection Hcl as <-.
  all: cbn [first_given] in Hin.
  all: unfold solve_SSS, solve_ASA, solve_SAS, solve_SAA, solve_AAS,
         solve_SSA, solve_ASS in Hin.
  all: repeat match type of Hin with
       | context [if ?b then _ else _] =>
           lazymatch b with
           | context [if _ then _ else _] => fail
           | _ => destruct b
           end
       end.
  all: try (rewrite solutions_set_error, Hr0 in Hin; now destruct Hin).
  all: repeat match type of Hin with
       | context [put ?v ?k ?y] =>
           lazymatch y with
           | context [put _ _ _] => fail
           | _ => tryif is_var y then fail else
                    (let z := fresh "y" in generalize dependent y; intros z Hin)
           end
       end.
  all: repeat match type of Hin with
       | context [m6 ?k] =>
           let v := eval vm_compute in (m6 k) in change (m6 k) with v in Hin
       end.
  all: cbn [put replace_nth Z.to_nat Pos.to_nat Pos.iter_op Nat.add] in Hin.
  all: repeat match type of Hin with
       | In _ (solutions (addSolutionToResult _ _ 3)) =>
           apply Hadd in Hin;
           [destruct Hin as [Hin|Hin]
           | first [exact Hconv | apply Hmode_add; exact Hconv]]
       end.
  all: try (rewrite Hr0 in Hin; now destruct Hin).
  all: rewrite Hin; clear Hin Hadd Hmode_add.
  all: assert (i = 0 \/ i = 1 \/ i = 2 \/ i = 3 \/ i = 4 \/ i = 5)%nat
         as [-> | [-> | [-> | [-> | [-> | ->]]]]] by lia.
  all: cbn [nth] in Hx; try discriminate Hx; injection Hx as <-.
  all: unfold calculatedValue.
  all: cbn [Nat.odd Nat.even negb Z.of_nat Pos.of_succ_nat Pos.succ get nth
            Z.to_nat Pos.to_nat Pos.iter_op Nat.add Z.ltb Z.compare ToNumber].
  all: match goal with
       | |- context [is_angle ?p] =>
           let b := eval vm_compute in (is_angle p) in
           change (is_angle p) with b
       end; cbv iota.
  all: split; [reflexivity|intros Hrad].
  all: first [reflexivity | rewrite Hrad; apply one_there_and_back].
Qed.

Lemma given_parameters_kept_witness :
  solution_value equilateral_solution "a"
  = (if is_angle "a"
     then outConv (mode_of equilateral)
          * (Fin 1 * modeInConv (mode_of equilateral))
     else Fin 1) /\
  (mode_of equilateral = "rad"%string ->
   solution_value equilateral_solution "a" = Fin 1).
Proof.
  apply (@given_parameters_kept equilateral equilateral_solution "a" (Fin 1)).
  - reflexivity.
  - rewrite solve_equilateral. left. reflexivity.
  - reflexivity.
Defined.

(** * Three sides *)

(** With exact arithmetic: [solve] with three finite sides of a triangle
    and nothing else appends the one candidate of the SSS branch. *)
Lemma solve_three_sides (t : triangleToSolve) (a b c : R) :
  accepted t ->
  in_a t = Number (Fin a) -> in_b t = Number (Fin b) ->
  in_c t = Number (Fin c) -> parameterCount t = 3%Z ->
  (a < b + c)%R -> (b < a + c)%R -> (c < a + b)%R ->
  let alpha := acos ((b * b + c * c - a * a) / (2 * b * c)) in
  let beta := acos ((a * a + c * c - b * b) / (2 * a * c)) in
  solutions (solve t)
  = [make_solution (outConv (mode_of t))
       [Some (Fin a); Some (Fin (PI - alpha - beta)); Some (Fin b);
        Some (Fin alpha); Some (Fin c); Some (Fin beta)]] /\
  res_error (solve t) = None.
Proof.
  intros Hacc Ea Eb Ec Hpc T1 T2 T3 alpha beta. subst alpha beta.
  rewrite (solve_accepted Hacc).
  destruct Hacc as (Hm & Ha & Hb & Hc & _).
  pose proof (modeOutConv_initial t Hm) as Hconv.
  assert (Hr0 : solutions (initial_result t (mode_of t)) = []) by reflexivity.
  assert (He0 : res_error (initial_result t (mode_of t)) = None) by reflexivity.
  revert Hr0 He0 Hconv. generalize (initial_result t (mode_of t)).
  intros r0 Hr0 He0 Hconv.
  unfold parameterCount, validated_array, firstSide, firstAngle, sideCount,
    angleCount in *.
  rewrite Ea, Eb, Ec in *. cbn [kept side_slot given param_number] in *.
  apply legal_finite_side in Ha, Hb, Hc.
  destruct (kept (in_gamma t)), (kept (in_alpha t)), (kept (in_beta t));
    cbn [given] in Hpc; try lia.
  cbn [given scaled Z.add Pos.add Pos.succ].
  rewrite dispatch_SSS by lia. unfold solve_SSS. list_slots.
  cbn [Num.sq Num.mul Num.add Num.sub Num.div].
  assert (Hbc : (0 < 2 * b * c)%R) by (apply Rmult_lt_0_compat; lra).
  assert (Hac : (0 < 2 * a * c)%R) by (apply Rmult_lt_0_compat; lra).
  pose proof (TriangleFacts.inequality_ratio Ha Hb Hc T1 T2 T3) as HrA.
  assert (HrB : (-1 < (a * a + c * c - b * b) / (2 * a * c) < 1)%R)
    by (apply TriangleFacts.inequality_ratio; lra).
  destruct (TriangleFacts.SSS_triangle Ha Hb Hc HrA)
    as (_ & _ & _ & Hal & Hbe & Hga & _).
  rewrite (@NumFacts.Reqb_false (2 * b * c)%R 0%R) by lra.
  rewrite (@NumFacts.Reqb_false (2 * a * c)%R 0%R) by lra.
  unfold Math.acos, angleSum, Math.PI.
  rewrite (@NumFacts.Rltb_false _ (-1)%R) by lra.
  rewrite (@NumFacts.Rltb_false 1%R) by lra.
  rewrite (@NumFacts.Rltb_false _ (-1)%R) by lra.
  rewrite (@NumFacts.Rltb_false 1%R) by lra.
  cbn [orb Num.sub existsb truthy Num.truthy].
  set (alpha := acos ((b * b + c * c - a * a) / (2 * b * c))) in *.
  set (beta := acos ((a * a + c * c - b * b) / (2 * a * c))) in *.
  repeat decide_R. cbn [negb orb].
  change (0 + 3)%Z with 3%Z. rewrite addSolutionToResult_3.
  unfold angle_out_of_range, side_out_of_range. list_slots. cbn [existsb].
  rewrite !angle_out_Fin, !side_out_Fin. repeat decide_R. cbn [orb].
  cbn [push solutions res_error]. rewrite Hr0, Hconv. split; [reflexivity|].
  exact He0.
Qed.

(** * C3: conflicts with redundant parameters *)

(** Each branch with one candidate is a call of [addSolutionToResult] on
    its six-tuple; the SSS branch first tests the tuple for falsy
    values. *)
Lemma branch_array t c :
  accepted t -> classification t = Some c -> c <> SSA -> c <> ASS ->
  solve t
  = if (match c with SSS => some_falsy (solved_array t c) | _ => false end)
    then set_error (initial_result t (mode_of t))
           (ImpossibleSides (param_number (in_a t)) (param_number (in_b t))
              (param_number (in_c t)))
    else addSolutionToResult (solved_array t c)
           (initial_result t (mode_of t)) (parameterCount t).
Proof.
  intros Hacc Hcl H1 H2. rewrite (classification_dispatch Hacc Hcl).
  destruct c; try reflexivity; contradiction.
Qed.

Lemma more_than_three t c :
  accepted t -> classification t = Some c -> (3 < parameterCount t)%Z ->
  c <> SSA /\ c <> ASS.
Proof.
  intros Hacc Hcl Hpc. unfold parameterCount in Hpc.
  split; intros ->.
  - destruct (ambiguous_three Hacc Hcl (or_introl eq_refl)) as (E & _). lia.
  - destruct (ambiguous_three Hacc Hcl (or_intror eq_refl)) as (E & _). lia.
Qed.

(** C3 (amended).  More than three parameters are given to [solve], the
    input is accepted and falls into the case [c], whose branch solves the
    six-tuple [v] and hands it to [addSolutionToResult] (in the SSS case
    the tuple holds no falsy value, or the branch stops before with the
    error of the impossible side lengths).  When property number [i] of
    [order] is the first one that was given and that the test of the code
    finds to differ from the value calculated from [v] (an angle converted
    to the unit of the input) by more than the tolerance 0.001, [solve]
    returns no solution and the error naming that property, the given
    value and the calculated one. *)
Theorem conflict_reported (t : triangleToSolve) (c : triangleCase)
    (i : nat) :
  accepted t -> classification t = Some c -> (3 < parameterCount t)%Z ->
  let r0 := initial_result t (mode_of t) in
  let v := solved_array t c in
  let property := nth i order ""%string in
  (c = SSS -> some_falsy v = false) ->
  (i < 6)%nat ->
  (forall j, (j < i)%nat -> conflicting (outConv (mode_of t)) v r0 j = false) ->
  conflicting (outConv (mode_of t)) v r0 i = true ->
  solve t
  = set_error r0
      (InputConflict property (ToNumber (prop r0 property))
         (calculatedValue (outConv (mode_of t)) v i)) /\
  solutions (solve t) = [].
Proof.
  intros Hacc Hcl Hpc r0 v property Hfalsy Hi Hpre Hconf.
  destruct (more_than_three Hacc Hcl Hpc) as (H1 & H2).
  assert (Hconv : modeOutConv r0 = outConv (mode_of t)).
  { destruct Hacc as (Hm & _).
    unfold r0, modeOutConv, outConv, initial_result. cbn [res_mode].
    destruct Hm as [-> | ->]; reflexivity. }
  assert (E : solve t
              = set_error r0
                  (InputConflict property (ToNumber (prop r0 property))
                     (calculatedValue (outConv (mode_of t)) v i))).
  { rewrite (branch_array Hacc Hcl H1 H2). fold r0 v.
    replace (match c with SSS => some_falsy v | _ => false end) with false
      by (destruct c; try reflexivity; symmetry; now apply Hfalsy).
    unfold addSolutionToResult.
    destruct (Z.ltb_spec 3 (parameterCount t)); [|lia].
    rewrite Hconv.
    rewrite (@conflict_loop_first (outConv (mode_of t)) v r0 i _ (seq 0 i));
      [reflexivity| | |assumption].
    - right. exists (seq (S i) (5 - i)).
      change (List.length order) with 6%nat.
      replace 6%nat with (i + S (5 - i))%nat at 1 by lia.
      now rewrite seq_app.
    - intros j Hj. apply in_seq in Hj. apply Hpre. lia. }
  split; [exact E|]. rewrite E. reflexivity.
Qed.

(** [solve({a:1, b:1, c:1, alpha:10, mode:"deg"})]: no solution, and the
    error names [alpha], the input 10 and the calculated value, 60. *)
Lemma conflict_reported_witness :
  exists calculated,
    solve equilateral_alpha_10
    = set_error (initial_result equilateral_alpha_10 "deg")
        (InputConflict "alpha" (Fin 10) calculated) /\
    solutions (solve equilateral_alpha_10) = [] /\
    equalFloat (Fin 60) calculated tolerance = true.
Proof.
  assert (Hacc : accepted equilateral_alpha_10)
    by (unfold accepted; js_eval; auto 10).
  assert (Hcl : classification equilateral_alpha_10 = Some SSS)
    by reflexivity.
  assert (Hv : solved_array equilateral_alpha_10 SSS
               = [Some (Fin 1); Some (Fin (PI - PI / 3 - PI / 3));
                  Some (Fin 1); Some (Fin (PI / 3)); Some (Fin 1);
                  Some (Fin (PI / 3))]).
  { unfold solved_array, SSS_array, validated_array.
    cbn [equilateral_alpha_10 in_a in_b in_c in_alpha in_beta in_gamma kept
         param_number scaled mode_of in_mode].
    change (modeInConv "deg") with toRad.
    rewrite NumFacts.toRad_eq. num_eval.
    replace ((1 * 1 + 1 * 1 - 1 * 1) / (2 * 1 * 1))%R with (1 / 2)%R by lra.
    num_eval. rewrite acos_half. num_eval. reflexivity. }
  pose proof (@conflict_reported equilateral_alpha_10 SSS 3 Hacc Hcl
                ltac:(reflexivity)) as H.
  cbv zeta in H. rewrite Hv in H.
  change (mode_of equilateral_alpha_10) with "deg"%string in H.
  eexists. 
  assert (Hc : calculatedValue (outConv "deg")
                 [Some (Fin 1); Some (Fin (PI - PI / 3 - PI / 3));
                  Some (Fin 1); Some (Fin (PI / 3)); Some (Fin 1);
                  Some (Fin (PI / 3))] 3 = Fin 60).
  { unfold calculatedValue, outConv, toDeg, Math.PI.
    cbn. repeat decide_R. cbn. f_equal. field. Rlin. }
  destruct H as (H & Hs).
  - intros _. unfold some_falsy. cbn [existsb truthy]. num_eval. reflexivity.
  - lia.
  - intros j Hj.
    assert (j = 0 \/ j = 1 \/ j = 2)%nat as [-> | [-> | ->]] by lia;
      unfold conflicting, equalFloat, tolerance, initial_result; cbn;
      rewrite ?Rminus_diag, ?Rabs_R0; repeat decide_R; reflexivity.
  - unfold conflicting. rewrite Hc.
    unfold equalFloat, tolerance, initial_result; cbn.
    rewrite Rabs_left by lra. repeat decide_R. reflexivity.
  - split; [exact H|]. split; [exact Hs|].
    rewrite Hc. unfold equalFloat, tolerance. cbn.
    rewrite Rminus_diag, Rabs_R0. repeat decide_R. reflexivity.
Defined.

(** [solve({a:1, b:1, c:2, alpha:10, mode:"deg"})]: four parameters, the
    angle recomputed for [alpha] is [acos 1 = 0] and the given 10 degrees
    differ from it by more than the tolerance, and yet the error is the
    one of the impossible side lengths: the SSS branch stops at the falsy
    angle before any comparison. *)
Lemma conflict_hidden_by_impossible_sides :
  accepted degenerate_alpha_10 /\
  classification degenerate_alpha_10 = Some SSS /\
  parameterCount degenerate_alpha_10 = 4%Z /\
  solved_array degenerate_alpha_10 SSS
  = [Some (Fin 1); Some (Fin (PI - 0 - 0)); Some (Fin 1); Some (Fin 0);
     Some (Fin 2); Some (Fin 0)] /\
  conflicting (outConv "deg") (solved_array degenerate_alpha_10 SSS)
    (initial_result degenerate_alpha_10 "deg") 3 = true /\
  solve degenerate_alpha_10
  = set_error (initial_result degenerate_alpha_10 "deg")
      (ImpossibleSides (Fin 1) (Fin 1) (Fin 2)).
Proof.
  assert (Hacc : accepted degenerate_alpha_10)
    by (unfold accepted; js_eval; auto 10).
  assert (Hcl : classification degenerate_alpha_10 = Some SSS)
    by reflexivity.
  assert (Hv : solved_array degenerate_alpha_10 SSS
               = [Some (Fin 1); Some (Fin (PI - 0 - 0)); Some (Fin 1);
                  Some (Fin 0); Some (Fin 2); Some (Fin 0)]).
  { unfold solved_array, SSS_array, validated_array.
    cbn [degenerate_alpha_10 in_a in_b in_c in_alpha in_beta in_gamma kept
         param_number scaled mode_of in_mode].
    change (modeInConv "deg") with toRad.
    rewrite NumFacts.toRad_eq. num_eval.
    replace ((1 * 1 + 2 * 2 - 1 * 1) / (2 * 1 * 2))%R with 1%R by lra.
    num_eval. rewrite acos_1. num_eval. reflexivity. }
  split; [exact Hacc|]. split; [exact Hcl|]. split; [reflexivity|].
  split; [exact Hv|]. split.
  - rewrite Hv. unfold conflicting, calculatedValue, outConv, toDeg, Math.PI,
      equalFloat, tolerance, initial_result. cbn.
    repeat decide_R. cbn. repeat decide_R. cbn.
    rewrite Rabs_right by lra. repeat decide_R. reflexivity.
  - rewrite (branch_array Hacc Hcl) by discriminate.
    rewrite Hv. unfold some_falsy. cbn [existsb truthy]. num_eval.
    reflexivity.
Qed.

(** * C4: the round trip *)



(** * C7: degenerate side lengths *)

(** C7.  The two tests that stand between the SSS branch and a solution,
    [valArray.some(x => !x)] and the range checks of
    [addSolutionToResult], look at the derived angles and at the signs of
    the sides only: whatever the three positive sides are, a tuple whose
    two derived angles are positive with a positive rest is appended as a
    solution.  In double precision the two ratios of the law of cosines of
    the degenerate triple 1.1, 2.8, 3.9 are rounded to just below 1, the
    derived angles are about 1.5e-8 and 2.1e-8, and the degenerate triple
    gets a solution. *)
Theorem degenerate_sides_accepted (r : solveResult)
    (a b c alpha beta : R) :
  (0 < a)%R -> (0 < b)%R -> (0 < c)%R ->
  (0 < alpha)%R -> (0 < beta)%R -> (alpha + beta < PI)%R ->
  let v := [Some (Fin a); Some (Fin (PI - alpha - beta)); Some (Fin b);
            Some (Fin alpha); Some (Fin c); Some (Fin beta)] in
  some_falsy v = false /\
  addSolutionToResult v r 3 = push r (make_solution (modeOutConv r) v).
Proof.
  intros Ha Hb Hc Hal Hbe Hsum v. unfold v. split.
  - unfold some_falsy. cbn [existsb truthy Num.truthy].
    rewrite !NumFacts.Reqb_false by lra. reflexivity.
  - rewrite addSolutionToResult_3.
    unfold angle_out_of_range, side_out_of_range.
    cbn [get nth Z.to_nat Pos.to_nat Pos.iter_op Nat.add Z.ltb Z.compare
         ToNumber existsb].
    rewrite !angle_out_Fin, !side_out_Fin.
    rewrite !NumFacts.Rleb_false by lra. reflexivity.
Qed.

(** The sides 1.1, 2.8, 3.9 with the angles derived in double
    precision. *)
Lemma degenerate_sides_accepted_witness :
  (1.1 + 2.8 = 3.9)%R /\
  let v := [Some (Fin 1.1);
            Some (Fin (PI - 1.4901161193847656e-8 - 2.1073424255447017e-8));
            Some (Fin 2.8); Some (Fin 1.4901161193847656e-8);
            Some (Fin 3.9); Some (Fin 2.1073424255447017e-8)] in
  let r := initial_result sides_11_28_39 "deg" in
  some_falsy v = false /\
  addSolutionToResult v r 3 = push r (make_solution (modeOutConv r) v).
Proof.
  split; [lra|].
  apply (@degenerate_sides_accepted (initial_result sides_11_28_39 "deg")
           1.1 2.8 3.9 1.4901161193847656e-8 2.1073424255447017e-8);
    Rlin.
Defined.

(** * The range checks behind every solution *)

Lemma modeOutConv_add v r pc :
  modeOutConv (addSolutionToResult v r pc) = modeOutConv r.
Proof. unfold modeOutConv. now rewrite res_mode_add. Qed.

Lemma all_range_checked_add conv v r pc :
  all_range_checked conv r ->
  all_range_checked conv (addSolutionToResult v r pc).
Proof.
  intros (Hc & Hr). split; [now rewrite modeOutConv_add|].
  destruct (addSolutionToResult_shape v r pc) as [[e ->]|(-> & Ha & Hs)].
  - exact Hr.
  - intros s Hin. cbn [push solutions] in Hin.
    apply in_app_or in Hin. destruct Hin as [Hin|[<-|[]]]; [auto|].
    unfold angle_out_of_range, side_out_of_range in Ha, Hs.
    cbn [existsb] in Ha, Hs.
    apply orb_false_elim in Ha. destruct Ha as (A1 & Ha).
    apply orb_false_elim in Ha. destruct Ha as (A3 & Ha).
    apply orb_false_elim in Ha. destruct Ha as (A5 & _).
    apply orb_false_elim in Hs. destruct Hs as (S0 & Hs).
    apply orb_false_elim in Hs. destruct Hs as (S2 & Hs).
    apply orb_false_elim in Hs. destruct Hs as (S4 & _).
    rewrite Hc. exists (v.[3]), (v.[5]), (v.[1]).
    cbn [make_solution sol_a sol_b sol_c sol_alpha sol_beta sol_gamma].
    auto 10.
Qed.

Lemma all_range_checked_error conv r e :
  all_range_checked conv r -> all_range_checked conv (set_error r e).
Proof. intros H. exact H. Qed.

(** X1.  Every solution that [solve] returns went through the range
    checks: its angles are the angles of a candidate, converted to the
    unit of the mode, none of which is [<= 0] or [>= pi], and none of its
    sides is [<= 0].  (A [NaN] passes these tests.) *)
Theorem solutions_passed_range_checks (t : triangleToSolve)
    (s : triangleSolution) :
  In s (solutions (solve t)) ->
  exists alpha beta gamma : num,
    sol_alpha s = outConv (mode_of t) * alpha /\
    sol_beta s = outConv (mode_of t) * beta /\
    sol_gamma s = outConv (mode_of t) * gamma /\
    angle_out alpha = false /\ angle_out beta = false /\
    angle_out gamma = false /\
    side_out (ToNumber (sol_a s)) = false /\
    side_out (ToNumber (sol_b s)) = false /\
    side_out (ToNumber (sol_c s)) = false.
Proof.
  intros Hin.
  destruct (solve_run t) as [[e He]|(Hacc & c & Hcl)];
    [rewrite He in Hin; destruct Hin|].
  assert (H0 : all_range_checked (outConv (mode_of t))
                 (initial_result t (mode_of t))).
  { destruct Hacc as (Hm & _). split; [|intros s' []].
    unfold modeOutConv, outConv, initial_result. cbn [res_mode].
    destruct Hm as [-> | ->]; reflexivity. }
  assert (H : all_range_checked (outConv (mode_of t)) (solve t)).
  { rewrite (classification_dispatch Hacc Hcl).
    revert H0. generalize (initial_result t (mode_of t)). intros r0 H0.
    destruct c.
    all: unfold solve_SSS, solve_ASA, solve_SAS, solve_SAA, solve_AAS,
           solve_SSA, solve_ASS.
    all: repeat match goal with
         | |- context [if ?b then _ else _] =>
             lazymatch b with
             | context [if _ then _ else _] => fail
             | _ => destruct b
             end
         end.
    all: repeat first [ exact H0
                      | apply all_range_checked_error
                      | apply all_range_checked_add ]. }
  destruct H as (_ & H). exact (H s Hin).
Qed.

Lemma solutions_passed_range_checks_witness :
  exists alpha beta gamma : num,
    sol_alpha equilateral_solution = outConv "deg" * alpha /\
    sol_beta equilateral_solution = outConv "deg" * beta /\
    sol_gamma equilateral_solution = outConv "deg" * gamma /\
    angle_out alpha = false /\ angle_out beta = false /\
    angle_out gamma = false /\
    side_out (ToNumber (sol_a equilateral_solution)) = false /\
    side_out (ToNumber (sol_b equilateral_solution)) = false /\
    side_out (ToNumber (sol_c equilateral_solution)) = false.
Proof.
  apply (@solutions_passed_range_checks equilateral equilateral_solution).
  rewrite solve_equilateral. left. reflexivity.
Defined.

(** X22.  The angles of every solution of [solve] whose six values are
    finite sum to 180, to pi in radian mode, within the tolerance
    0.001. *)
Theorem angle_sum_within_tolerance (t : triangleToSolve)
    (s : triangleSolution) :
  In s (solutions (solve t)) -> finite_solution s ->
  equalFloat (sol_alpha s + sol_beta s + sol_gamma s) (full_angle (in_mode t))
    tolerance = true.
Proof.
  intros Hin Hfin.
  destruct (solve_sound t) as (_ & Hknown & Hsound).
  assert (Hm : mode_of t = "deg"%string \/ mode_of t = "rad"%string).
  { apply Hknown. intros E. now rewrite E in Hin. }
  destruct (Hsound s Hin Hfin)
    as (v & (a & b & c & alpha & beta & gamma & -> & T) & ->).
  rewrite (@outConv_solve t Hm).
  destruct T as (_ & _ & _ & _ & _ & _ & Hsum & _).
  pose proof PI_RGT_0.
  assert (Hfull : full_angle (in_mode t)
                  = if String.eqb (mode_of t) "rad" then Math.PI else Fin 180).
  { unfold full_angle, mode_of. destruct (in_mode t); reflexivity. }
  rewrite Hfull.
  cbn [make_solution sol_alpha sol_beta sol_gamma]. list_slots.
  destruct Hm as [-> | ->].
  all: cbn [outConv String.eqb Ascii.eqb Bool.eqb].
  all: rewrite ?NumFacts.toDeg_eq; unfold Math.PI, equalFloat, tolerance.
  all: cbn [Num.add Num.sub Num.mul Math.abs Num.le].
  all: apply NumFacts.Rleb_true.
  all: match goal with
       | |- (Rabs ?e <= _)%R =>
           replace e with 0%R
             by (replace gamma with (PI - alpha - beta)%R by lra; field; lra)
       end.
  all: rewrite Rabs_R0; lra.
Qed.

Lemma angle_sum_within_tolerance_witness :
  equalFloat
    (sol_alpha equilateral_solution + sol_beta equilateral_solution
     + sol_gamma equilateral_solution) (Fin 180) tolerance = true.
Proof.
  apply (@angle_sum_within_tolerance equilateral equilateral_solution).
  - rewrite solve_equilateral. left. reflexivity.
  - exact finite_equilateral_solution.
Defined.

(** * C9: the triangle of three points *)

Lemma acos_cases z : Math.acos z = NaN \/ exists x, Math.acos z = Fin x.
Proof.
  unfold Math.acos. destruct z as [| |r]; auto.
  destruct (_ || _); eauto.
Qed.

Lemma truthy_acos z :
  Num.truthy (Math.acos z) = true -> exists x, Math.acos z = Fin x.
Proof.
  destruct (acos_cases z) as [-> | H]; [discriminate | auto].
Qed.

Lemma distinct_distance x1 y1 x2 y2 :
  ~ (x1 = x2 /\ y1 = y2) ->
  Num.Reqb (sqrt ((x1 - x2) * (x1 - x2) + (y1 - y2) * (y1 - y2))) 0 = false.
Proof.
  intros H. apply NumFacts.Reqb_false. intros E.
  apply MetricFacts.sqrt_sum_squares_zero in E. apply H. split; lra.
Qed.

(** The run of [solvePoints] on three points with finite coordinates, no
    two of them at distance 0, and a valid mode: the three angles decide
    between the error and the one solution. *)
Lemma solvePoints_run (rA rB rC : representation)
    (xA yA xB yB xC yC : R) (mode : option string) :
  valid_mode mode ->
  let a := sqrt ((xB - xC) * (xB - xC) + (yB - yC) * (yB - yC)) in
  let b := sqrt ((xC - xA) * (xC - xA) + (yC - yA) * (yC - yA)) in
  let c := sqrt ((xA - xB) * (xA - xB) + (yA - yB) * (yA - yB)) in
  Num.Reqb a 0 = false -> Num.Reqb b 0 = false -> Num.Reqb c 0 = false ->
  let A := point rA xA yA in
  let B := point rB xB yB in
  let C := point rC xC yC in
  let angleA :=
    Math.acos ((Num.sq (Fin b) + Num.sq (Fin c) - Num.sq (Fin a))
               / (Fin 2 * Fin b * Fin c)) in
  let angleB :=
    Math.acos ((Num.sq (Fin a) + Num.sq (Fin c) - Num.sq (Fin b))
               / (Fin 2 * Fin a * Fin c)) in
  let angleC := angleSum - angleA - angleB in
  let radius := (Fin a / Math.sin angleA) / Fin 2 in
  if some_falsy_angle [angleA; angleB; angleC]
  then solvePoints A B C mode
       = Return (points_error (points_initial A B C mode)
                   (ImpossibleSides (Fin a) (Fin b) (Fin c)))
  else exists s,
    solvePoints A B C mode
    = Return {| pr_A := A; pr_B := B; pr_C := C;
                pr_mode := points_mode mode;
                pr_solutions := [s]; pr_error := None |} /\
    ps_a s = Fin a /\ ps_b s = Fin b /\ ps_c s = Fin c /\
    ps_alpha s = outConv (points_mode mode) * angleA /\
    ps_beta s = outConv (points_mode mode) * angleB /\
    ps_gamma s = outConv (points_mode mode) * angleC /\
    ps_centroid s
    = {| px := Fin 0 + third * Fin xA + third * Fin xB + third * Fin xC;
         py := Fin 0 + third * Fin yA + third * Fin yB + third * Fin yC |} /\
    ps_circumcircle_radius s = radius /\
    ps_ha s = (Fin b * Fin c) / (Fin 2 * radius) /\
    ps_hb s = (Fin a * Fin c) / (Fin 2 * radius) /\
    ps_hc s = (Fin a * Fin b) / (Fin 2 * radius).
Proof.
  intros Hmode a b c Da Db Dc A B C angleA angleB angleC radius.
  unfold A, B, C, angleC, radius.
  assert (Hrun : solvePoints (point rA xA yA) (point rB xB yB)
                   (point rC xC yC) mode
                 = if some_falsy_angle
                        [angleA; angleB; angleSum - angleA - angleB]
                   then Return (points_error
                                  (points_initial (point rA xA yA)
                                     (point rB xB yB) (point rC xC yC) mode)
                                  (ImpossibleSides (Fin a) (Fin b) (Fin c)))
                   else
                     Return
                       {| pr_A := point rA xA yA; pr_B := point rB xB yB;
                          pr_C := point rC xC yC;
                          pr_mode := points_mode mode;
                          pr_solutions :=
                            [{| ps_angleA := outConv (points_mode mode) * angleA;
                                ps_angleB := outConv (points_mode mode) * angleB;
                                ps_angleC := outConv (points_mode mode)
                                             * (angleSum - angleA - angleB);
                                ps_sideAB := Fin c; ps_sideBC := Fin a;
                                ps_sideCA := Fin b;
                                ps_a := Fin a; ps_b := Fin b; ps_c := Fin c;
                                ps_alpha := outConv (points_mode mode) * angleA;
                                ps_beta := outConv (points_mode mode) * angleB;
                                ps_gamma := outConv (points_mode mode)
                                            * (angleSum - angleA - angleB);
                                ps_area := Fin (1 / 2) * Fin c * Fin a
                                           * Math.sin angleB;
                                ps_centroid :=
                                  {| px := Fin 0 + third * Fin xA
                                           + third * Fin xB + third * Fin xC;
                                     py := Fin 0 + third * Fin yA
                                           + third * Fin yB + third * Fin yC |};
                                ps_incircle_center :=
                                  {| px := Fin 0
                                       + Fin a / (Fin 0 + Fin a + Fin b + Fin c)
                                         * Fin xA
                                       + Fin b / (Fin 0 + Fin a + Fin b + Fin c)
                                         * Fin xB
                                       + Fin c / (Fin 0 + Fin a + Fin b + Fin c)
                                         * Fin xC;
                                     py := Fin 0
                                       + Fin a / (Fin 0 + Fin a + Fin b + Fin c)
                                         * Fin yA
                                       + Fin b / (Fin 0 + Fin a + Fin b + Fin c)
                                         * Fin yB
                                       + Fin c / (Fin 0 + Fin a + Fin b + Fin c)
                                         * Fin yC |};
                                ps_incircle_radius :=
                                  incircleRadius (Fin c) (Fin a) (Fin b);
                                ps_circumcircle_center :=
                                  let w1 := Math.sin (Fin 2 * angleA) in
                                  let w2 := Math.sin (Fin 2 * angleB) in
                                  let w3 := Math.sin
                                              (Fin 2
                                               * (angleSum - angleA - angleB)) in
                                  {| px := Fin 0
                                       + w1 / (Fin 0 + w1 + w2 + w3) * Fin xA
                                       + w2 / (Fin 0 + w1 + w2 + w3) * Fin xB
                                       + w3 / (Fin 0 + w1 + w2 + w3) * Fin xC;
                                     py := Fin 0
                                       + w1 / (Fin 0 + w1 + w2 + w3) * Fin yA
                                       + w2 / (Fin 0 + w1 + w2 + w3) * Fin yB
                                       + w3 / (Fin 0 + w1 + w2 + w3) * Fin yC |};
                                ps_circumcircle_radius :=
                                  (Fin a / Math.sin angleA) / Fin 2;
                                ps_ha := (Fin b * Fin c)
                                         / (Fin 2
                                            * ((Fin a / Math.sin angleA) / Fin 2));
                                ps_hb := (Fin a * Fin c)
                                         / (Fin 2
                                            * ((Fin a / Math.sin angleA) / Fin 2));
                                ps_hc := (Fin a * Fin b)
                                         / (Fin 2
                                            * ((Fin a / Math.sin angleA) / Fin 2))
                             |}];
                          pr_error := None |}).
  { unfold solvePoints.
    cbn [check_loop nth]; rewrite !checkCoordinate_point.
    cbn [bind negb check_loop].
    cbn [duplicate_loop nth Nat.modulo Nat.add Nat.divmod fst snd Nat.sub].
    rewrite !distance_point; fold a b c.
    cbn [bind Num.eq]. rewrite Da, Db, Dc. cbn [bind].
    fold angleA angleB.
    unfold some_falsy_angle.
    destruct Hmode as [-> | [-> | ->]].
    all: cbn [String.eqb Ascii.eqb Bool.eqb negb andb points_mode].
    all: destruct (existsb _ _); [reflexivity|].
    all: rewrite !pointToArray_point; cbn [bind].
    all: rewrite !barycentricToCartesian_arrays; cbn [bind].
    all: reflexivity. }
  rewrite Hrun.
  destruct (some_falsy_angle _); [reflexivity|].
  eexists. split; [reflexivity|].
  cbn [ps_a ps_b ps_c ps_alpha ps_beta ps_gamma ps_centroid
       ps_circumcircle_radius ps_ha ps_hb ps_hc].
  repeat split.
Qed.

(** C9 (amended).  For three points with finite coordinates, each in one
    of the accepted representations, no two of which coincide, and a valid
    mode, [solvePoints] computes the sides [a], [b], [c] as
    [distance(B, C)], [distance(C, A)], [distance(A, B)] and the angles by
    the law of cosines and the angle sum.  When one of the three angles
    is 0 or [NaN] it returns no solution and the error of the impossible
    side lengths (as for different points on one line); otherwise it
    returns exactly one solution and no error, with these sides and
    angles, the angles summing to 180 (to pi in radian mode) within the
    tolerance 0.001, and the centroid the combination of the three
    vertices with three equal weights. *)
Theorem three_points_solved (rA rB rC : representation)
    (xA yA xB yB xC yC : R) (mode : option string) :
  valid_mode mode ->
  ~ (xA = xB /\ yA = yB) -> ~ (xB = xC /\ yB = yC) ->
  ~ (xC = xA /\ yC = yA) ->
  let A := point rA xA yA in
  let B := point rB xB yB in
  let C := point rC xC yC in
  exists a b c : num,
    distance B C = Return a /\ distance C A = Return b /\
    distance A B = Return c /\
    let angleA :=
      Math.acos ((Num.sq b + Num.sq c - Num.sq a) / (Fin 2 * b * c)) in
    let angleB :=
      Math.acos ((Num.sq a + Num.sq c - Num.sq b) / (Fin 2 * a * c)) in
    let angleC := angleSum - angleA - angleB in
    if some_falsy_angle [angleA; angleB; angleC]
    then solvePoints A B C mode
         = Return (points_error (points_initial A B C mode)
                     (ImpossibleSides a b c))
    else exists s,
      solvePoints A B C mode
      = Return {| pr_A := A; pr_B := B; pr_C := C;
                  pr_mode := points_mode mode;
                  pr_solutions := [s]; pr_error := None |} /\
      ps_a s = a /\ ps_b s = b /\ ps_c s = c /\
      ps_alpha s = outConv (points_mode mode) * angleA /\
      ps_beta s = outConv (points_mode mode) * angleB /\
      ps_gamma s = outConv (points_mode mode) * angleC /\
      equalFloat (ps_alpha s + ps_beta s + ps_gamma s) (full_angle mode)
        tolerance = true /\
      ps_centroid s
      = {| px := Fin 0 + third * Fin xA + third * Fin xB + third * Fin xC;
           py := Fin 0 + third * Fin yA + third * Fin yB + third * Fin yC |}.
Proof.
  intros Hmode HAB HBC HCA A B C. unfold A, B, C.
  rewrite !distance_point. do 3 eexists.
  do 3 (split; [reflexivity|]). cbv zeta.
  pose proof (@solvePoints_run rA rB rC xA yA xB yB xC yC mode Hmode
                (distinct_distance HBC) (distinct_distance HCA)
                (distinct_distance HAB)) as Hrun.
  cbv zeta in Hrun.
  set (a := sqrt ((xB - xC) * (xB - xC) + (yB - yC) * (yB - yC))) in *.
  set (b := sqrt ((xC - xA) * (xC - xA) + (yC - yA) * (yC - yA))) in *.
  set (c := sqrt ((xA - xB) * (xA - xB) + (yA - yB) * (yA - yB))) in *.
  set (angleA := Math.acos ((Num.sq (Fin b) + Num.sq (Fin c) - Num.sq (Fin a))
                            / (Fin 2 * Fin b * Fin c))) in *.
  set (angleB := Math.acos ((Num.sq (Fin a) + Num.sq (Fin c) - Num.sq (Fin b))
                            / (Fin 2 * Fin a * Fin c))) in *.
  destruct (some_falsy_angle _) eqn:Hf; [exact Hrun|].
  destruct Hrun as (s & Hs & Fa & Fb & Fc & Fal & Fbe & Fga & Fcen & _).
  exists s. split; [exact Hs|].
  do 6 (split; [assumption|]). split; [|exact Fcen].
  rewrite Fal, Fbe, Fga.
  unfold some_falsy_angle in Hf. cbn [existsb] in Hf.
  apply orb_false_elim in Hf. destruct Hf as (HA & Hf).
  apply orb_false_elim in Hf. destruct Hf as (HB & _).
  apply negb_false_iff in HA, HB.
  destruct (truthy_acos _ HA) as (x & Ex).
  destruct (truthy_acos _ HB) as (y & Ey).
  fold angleA in Ex. fold angleB in Ey. rewrite Ex, Ey.
  pose proof PI_RGT_0.
  destruct Hmode as [-> | [-> | ->]].
  all: cbn [points_mode outConv full_angle String.eqb Ascii.eqb Bool.eqb].
  all: rewrite ?NumFacts.toDeg_eq; unfold angleSum, Math.PI, equalFloat,
         tolerance.
  all: cbn [Num.add Num.sub Num.mul Math.abs Num.le].
  all: apply NumFacts.Rleb_true.
  all: match goal with
       | |- (Rabs ?e <= _)%R => replace e with 0%R by (field; lra)
       end.
  all: rewrite Rabs_R0; lra.
Qed.

(** [solvePoints([-2, -2], [2, 1], [0, 5])] *)
Lemma three_points_solved_witness :
  exists s,
    solvePoints (point AsArray (-2) (-2)) (point AsArray 2 1)
      (point AsArray 0 5) None
    = Return {| pr_A := point AsArray (-2) (-2); pr_B := point AsArray 2 1;
                pr_C := point AsArray 0 5; pr_mode := "deg";
                pr_solutions := [s]; pr_error := None |} /\
    distance (point AsArray 2 1) (point AsArray 0 5) = Return (ps_a s) /\
    distance (point AsArray 0 5) (point AsArray (-2) (-2)) = Return (ps_b s) /\
    distance (point AsArray (-2) (-2)) (point AsArray 2 1) = Return (ps_c s) /\
    equalFloat (ps_alpha s + ps_beta s + ps_gamma s) (Fin 180) tolerance
    = true /\
    ps_centroid s
    = {| px := Fin 0 + third * Fin (-2) + third * Fin 2 + third * Fin 0;
         py := Fin 0 + third * Fin (-2) + third * Fin 1 + third * Fin 5 |}.
Proof.
  destruct (@three_points_solved AsArray AsArray AsArray (-2) (-2) 2 1 0 5
              None (or_introl eq_refl))
    as (a & b & c & Ha & Hb & Hc & H); try (intros [E1 E2]; lra).
  cbv zeta in H.
  destruct (some_falsy_angle _).
  - exfalso.
    destruct (@noncollinear_points_solved AsArray AsArray AsArray
                (-2) (-2) 2 1 0 5 None (or_introl eq_refl) ltac:(lra))
      as (r & s & Hr & Hs & _).
    rewrite H in Hr. injection Hr as <-. discriminate Hs.
  - destruct H as (s & Hr & Fa & Fb & Fc & _ & _ & _ & Hsum & Hcen).
    exists s. rewrite Fa, Fb, Fc. auto 10.
Defined.

(** * [solvePoints] and [solve] *)

(** X21.  [solvePoints] agrees with [solve] on the sides: when [solve],
    given the three distances [distance(B, C)], [distance(C, A)],
    [distance(A, B)] as [a], [b], [c] and the same mode, returns a
    solution, [solvePoints] returns one solution and no error, with the
    same sides, angles, radius of the circumcircle and altitudes. *)
Theorem solvePoints_agrees_with_solve (rA rB rC : representation)
    (xA yA xB yB xC yC : R) (mode : option string) (a b c : num)
    (s : triangleSolution) :
  let A := point rA xA yA in
  let B := point rB xB yB in
  let C := point rC xC yC in
  distance B C = Return a -> distance C A = Return b ->
  distance A B = Return c ->
  In s (solutions (solve (sides_only a b c mode))) ->
  exists p,
    solvePoints A B C mode
    = Return {| pr_A := A; pr_B := B; pr_C := C;
                pr_mode := points_mode mode;
                pr_solutions := [p]; pr_error := None |} /\
    sol_a s = Some (ps_a p) /\ sol_b s = Some (ps_b p) /\
    sol_c s = Some (ps_c p) /\
    sol_alpha s = ps_alpha p /\ sol_beta s = ps_beta p /\
    sol_gamma s = ps_gamma p /\
    sol_circumcircle_radius s = ps_circumcircle_radius p /\
    sol_ha s = ps_ha p /\ sol_hb s = ps_hb p /\ sol_hc s = ps_hc p.
Proof.
  intros A B C Ha Hb Hc Hin. unfold A, B, C in *.
  rewrite distance_point in Ha, Hb, Hc.
  injection Ha as <-. injection Hb as <-. injection Hc as <-.
  set (a := sqrt ((xB - xC) * (xB - xC) + (yB - yC) * (yB - yC))) in *.
  set (b := sqrt ((xC - xA) * (xC - xA) + (yC - yA) * (yC - yA))) in *.
  set (c := sqrt ((xA - xB) * (xA - xB) + (yA - yB) * (yA - yB))) in *.
  set (t := sides_only (Fin a) (Fin b) (Fin c) mode) in *.
  destruct (solve_run t) as [[e He]|(Hacc & c0 & Hcl)];
    [rewrite He in Hin; destruct Hin|].
  assert (Hc0 : c0 = SSS) by (cbv in Hcl; congruence).
  subst c0.
  pose proof Hacc as (Hm & Sa & Sb & Sc & _).
  assert (Hmode : valid_mode mode).
  { unfold mode_of, t, sides_only in Hm. cbn [in_mode] in Hm.
    destruct mode as [m|]; [|now left].
    destruct Hm as [-> | ->]; [right; left | right; right]; reflexivity. }
  assert (Hpm : mode_of t = points_mode mode) by (destruct mode; reflexivity).
  assert (Hconv : modeOutConv (initial_result t (mode_of t))
                  = outConv (points_mode mode)).
  { rewrite <- Hpm. unfold modeOutConv, outConv, initial_result.
    cbn [res_mode]. destruct Hm as [-> | ->]; reflexivity. }
  unfold t, sides_only in Sa, Sb, Sc. cbn [in_a in_b in_c kept] in Sa, Sb, Sc.
  apply legal_finite_side in Sa, Sb, Sc.
  pose proof (@solvePoints_run rA rB rC xA yA xB yB xC yC mode Hmode
                (NumFacts.Reqb_false (Rgt_not_eq _ _ Sa))
                (NumFacts.Reqb_false (Rgt_not_eq _ _ Sb))
                (NumFacts.Reqb_false (Rgt_not_eq _ _ Sc))) as Hrun.
  cbv zeta in Hrun. fold a b c in Hrun.
  rewrite (branch_array Hacc Hcl) in Hin by discriminate.
  assert (Hv : solved_array t SSS
               = SSS_array (Fin a) (Fin b) (Fin c)
                   [Some (Fin a); None; Some (Fin b); None; Some (Fin c);
                    None]) by reflexivity.
  rewrite Hv in Hin.
  unfold SSS_array in Hin. cbv zeta in Hin.
  set (angleA := Math.acos ((Num.sq (Fin b) + Num.sq (Fin c) - Num.sq (Fin a))
                            / (Fin 2 * Fin b * Fin c))) in *.
  set (angleB := Math.acos ((Num.sq (Fin a) + Num.sq (Fin c) - Num.sq (Fin b))
                            / (Fin 2 * Fin a * Fin c))) in *.
  cbn [put replace_nth get nth Z.to_nat Pos.to_nat Pos.iter_op Nat.add
       Z.ltb Z.compare ToNumber] in Hin.
  destruct (some_falsy _) eqn:Hf;
    [rewrite solutions_set_error in Hin; destruct Hin|].
  unfold some_falsy in Hf. cbn [existsb truthy] in Hf.
  assert (Hfa : some_falsy_angle [angleA; angleB; angleSum - angleA - angleB]
                = false).
  { unfold some_falsy_angle. cbn [existsb].
    apply orb_false_elim in Hf. destruct Hf as (_ & Hf).
    apply orb_false_elim in Hf. destruct Hf as (F1 & Hf).
    apply orb_false_elim in Hf. destruct Hf as (_ & Hf).
    apply orb_false_elim in Hf. destruct Hf as (F3 & Hf).
    apply orb_false_elim in Hf. destruct Hf as (_ & Hf).
    apply orb_false_elim in Hf. destruct Hf as (F5 & _).
    rewrite F1, F3, F5. reflexivity. }
  rewrite Hfa in Hrun.
  destruct Hrun as (p & Hp & Fa & Fb & Fc & Fal & Fbe & Fga & _ & Fr & Fha
                    & Fhb & Fhc).
  exists p. split; [exact Hp|].
  apply in_addSolutionToResult in Hin.
  destruct Hin as [[]|(-> & _)].
  rewrite Hconv, Fa, Fb, Fc, Fal, Fbe, Fga, Fr, Fha, Fhb, Fhc.
  cbn [make_solution sol_a sol_b sol_c sol_alpha sol_beta sol_gamma
       sol_circumcircle_radius sol_ha sol_hb sol_hc get nth Z.to_nat
       Z.ltb Z.compare ToNumber].
  repeat split.
Qed.

(** The points [[0, 0]], [[4, 0]], [[0, 3]]: the sides 5, 3, 4. *)
Lemma solvePoints_agrees_with_solve_witness :
  exists a b c s p,
    distance (point AsArray 4 0) (point AsArray 0 3) = Return a /\
    distance (point AsArray 0 3) (point AsArray 0 0) = Return b /\
    distance (point AsArray 0 0) (point AsArray 4 0) = Return c /\
    In s (solutions (solve (sides_only a b c None))) /\
    solvePoints (point AsArray 0 0) (point AsArray 4 0) (point AsArray 0 3)
      None
    = Return {| pr_A := point AsArray 0 0; pr_B := point AsArray 4 0;
                pr_C := point AsArray 0 3; pr_mode := "deg";
                pr_solutions := [p]; pr_error := None |} /\
    sol_a s = Some (ps_a p) /\ sol_b s = Some (ps_b p) /\
    sol_c s = Some (ps_c p) /\
    sol_alpha s = ps_alpha p /\ sol_beta s = ps_beta p /\
    sol_gamma s = ps_gamma p /\
    sol_circumcircle_radius s = ps_circumcircle_radius p /\
    sol_ha s = ps_ha p /\ sol_hb s = ps_hb p /\ sol_hc s = ps_hc p.
Proof.
  set (a := sqrt ((4 - 0) * (4 - 0) + (0 - 3) * (0 - 3))).
  set (b := sqrt ((0 - 0) * (0 - 0) + (3 - 0) * (3 - 0))).
  set (c := sqrt ((0 - 4) * (0 - 4) + (0 - 0) * (0 - 0))).
  assert (Ea : a = 5%R).
  { unfold a. replace ((4 - 0) * (4 - 0) + (0 - 3) * (0 - 3))%R
      with (5 * 5)%R by lra. apply sqrt_square. lra. }
  assert (Eb : b = 3%R).
  { unfold b. replace ((0 - 0) * (0 - 0) + (3 - 0) * (3 - 0))%R
      with (3 * 3)%R by lra. apply sqrt_square. lra. }
  assert (Ec : c = 4%R).
  { unfold c. replace ((0 - 4) * (0 - 4) + (0 - 0) * (0 - 0))%R
      with (4 * 4)%R by lra. apply sqrt_square. lra. }
  assert (Hacc : accepted (sides_only (Fin a) (Fin b) (Fin c) None)).
  { unfold accepted, sides_only, mode_of. cbn.
    split; [now left|].
    repeat split; apply NumFacts.Rleb_false; lra. }
  destruct (@solve_three_sides (sides_only (Fin a) (Fin b) (Fin c) None)
              a b c Hacc eq_refl eq_refl eq_refl eq_refl
              ltac:(lra) ltac:(lra) ltac:(lra)) as (Hs & _).
  exists (Fin a), (Fin b), (Fin c). eexists.
  assert (Hin : In _ (solutions
                        (solve (sides_only (Fin a) (Fin b) (Fin c) None))))
    by (rewrite Hs; left; reflexivity).
  destruct (@solvePoints_agrees_with_solve AsArray AsArray AsArray
              0 0 4 0 0 3 None (Fin a) (Fin b) (Fin c) _
              (distance_point _ _ _ _ _ _) (distance_point _ _ _ _ _ _)
              (distance_point _ _ _ _ _ _) Hin) as (p & H).
  exists p.
  split; [apply distance_point|]. split; [apply distance_point|].
  split; [apply distance_point|]. split; [exact Hin|]. exact H.
Defined.
